(** * Portfolio analytics engine (FTPI backend): a shallow embedding

    The development follows the three backend modules that carry the
    analytics:

    - [crud.py]   the ledger aggregator ([get_positions], [get_cash_balance],
                  [list_transactions]);
    - [market.py] the price history provider ([fetch_stooq_history],
                  [simulate_gbm], [get_price_history], [get_last_prices]);
    - [main.py]   the analytics entry points ([portfolio_value], [cashflow],
                  [allocation], [monte_carlo]).

    Modelling conventions.

    - A Python [float] is the real number of [R] it denotes: sums, products
      and [math.sqrt] are the exact operations, so the rounding of binary64
      arithmetic, infinities and NaN are not part of the model. Two places
      where the code leaves the real numbers are part of it: [math.exp]
      raises [OverflowError] above [EXP_MAX] (about 709.78) and returns 0.0
      below [EXP_MIN] (about -745.13), see [math_exp]; and a [Numeric]
      column, or a [SUM] over one, is read back from SQLite rounded to the
      scale of the column, see [round_to] and [orm_read]. The one place where
      a rounded product is truncated to an index, the percentile picks of
      [monte_carlo], is checked against binary64 arithmetic in [Binary64].
    - A [datetime.date] is its proleptic Gregorian ordinal
      ([date.toordinal()]), a [Z] between [MINORD] and [MAXORD]; adding a
      [timedelta] raises [OverflowError] outside that range, as CPython does.
    - The outside world (the HTTP client, the clock, the text-to-number
      parsers, the pseudo-random generator and the binary representation of
      the floats) is a [World] read through two cursors kept in the threaded
      [state].
    - Exceptions are the [Raise] results of [result] and of the monad [M]. *)

From Stdlib Require Import Reals Lra Lia ZArith List String Ascii Bool.
From Stdlib Require Import Permutation Sorted.
From Stdlib Require Floats.
Import ListNotations.

Local Open Scope Z_scope.

(* ================================================================== *)
(** * The Python runtime the code relies on                            *)
(* ================================================================== *)

Module Py.

(** ** Exceptions and fallible results *)

Inductive exn : Type :=
| OverflowError   (* "date value out of range" *)
| IndexError      (* list index out of range *)
| TransportError. (* any exception of the HTTP client *)

Inductive result (A : Type) : Type :=
| Ok (a : A)
| Raise (e : exn).

Arguments Ok {A} a.
Arguments Raise {A} e.

Definition rbind {A B : Type} (r : result A) (k : A -> result B) : result B :=
  match r with
  | Ok a => k a
  | Raise e => Raise e
  end.

Fixpoint rmap {A B : Type} (f : A -> result B) (l : list A) : result (list B) :=
  match l with
  | [] => Ok []
  | x :: l' => rbind (f x) (fun y => rbind (rmap f l') (fun ys => Ok (y :: ys)))
  end.

(** ** State: how far the random generator and the network have been read *)

Record state : Type := mkState {
  rng_pos : nat;   (* standard-normal variates drawn so far *)
  net_pos : nat    (* HTTP requests issued so far *)
}.

Definition M (A : Type) : Type := state -> result A * state.

Definition ret {A : Type} (a : A) : M A := fun s => (Ok a, s).

Definition raise {A : Type} (e : exn) : M A := fun s => (Raise e, s).

Definition bind {A B : Type} (m : M A) (k : A -> M B) : M B :=
  fun s =>
    match m s with
    | (Ok a, s') => k a s'
    | (Raise e, s') => (Raise e, s')
    end.

Definition lift {A : Type} (r : result A) : M A := fun s => (r, s).

(** [try: m except Exception: h]: effects of [m] performed before the
    exception are kept. *)
Definition try_except {A : Type} (m : M A) (h : exn -> M A) : M A :=
  fun s =>
    match m s with
    | (Ok a, s') => (Ok a, s')
    | (Raise e, s') => h e s'
    end.

(** [[f(x) for x in l]] with an effectful [f], left to right. *)
Fixpoint mapM {A B : Type} (f : A -> M B) (l : list A) : M (list B) :=
  match l with
  | [] => ret []
  | x :: l' => bind (f x) (fun y => bind (mapM f l') (fun ys => ret (y :: ys)))
  end.

(** [[m for _ in range(n)]] *)
Fixpoint replicateM {A : Type} (n : nat) (m : M A) : M (list A) :=
  match n with
  | O => ret []
  | S n' => bind m (fun y => bind (replicateM n' m) (fun ys => ret (y :: ys)))
  end.

(** ** [datetime.date] *)

Definition date : Type := Z.

Definition MINORD : Z := 1.          (* date.min = 0001-01-01 *)
Definition MAXORD : Z := 3652059.    (* date.max = 9999-12-31 *)

Definition date_valid (d : date) : Prop := MINORD <= d <= MAXORD.

(** [d + timedelta(days=k)] *)
Definition date_add_days (d : date) (k : Z) : result date :=
  let o := d + k in
  if (MINORD <=? o) && (o <=? MAXORD) then Ok o else Raise OverflowError.

(** [d - timedelta(days=k)] *)
Definition date_sub_days (d : date) (k : Z) : result date :=
  date_add_days d (- k).

Definition DAYS_IN_MONTH : list Z :=
  [-1; 31; 28; 31; 30; 31; 30; 31; 31; 30; 31; 30; 31].

Definition DAYS_BEFORE_MONTH : list Z :=
  [-1; 0; 31; 59; 90; 120; 151; 181; 212; 243; 273; 304; 334].

Definition tbl (t : list Z) (i : Z) : Z := nth (Z.to_nat i) t 0.

Definition is_leap (y : Z) : bool :=
  (y mod 4 =? 0) && (negb (y mod 100 =? 0) || (y mod 400 =? 0)).

Definition days_before_year (year : Z) : Z :=
  let y := year - 1 in y * 365 + y / 4 - y / 100 + y / 400.

Definition days_before_month (year month : Z) : Z :=
  tbl DAYS_BEFORE_MONTH month + (if (2 <? month) && is_leap year then 1 else 0).

(** [date(y, m, d).toordinal()] *)
Definition ymd2ord (year month day : Z) : date :=
  days_before_year year + days_before_month year month + day.

(** [(d.year, d.month, d.day)] of the date with ordinal [n] *)
Definition ord2ymd (n : date) : Z * Z * Z :=
  let n := n - 1 in
  let n400 := n / 146097 in
  let n := n mod 146097 in
  let year := n400 * 400 + 1 in
  let n100 := n / 36524 in
  let n := n mod 36524 in
  let n4 := n / 1461 in
  let n := n mod 1461 in
  let n1 := n / 365 in
  let n := n mod 365 in
  let year := year + n100 * 100 + n4 * 4 + n1 in
  if (n1 =? 4) || (n100 =? 4) then (year - 1, 12, 31)
  else
    let leapyear := (n1 =? 3) && (negb (n4 =? 24) || (n100 =? 3)) in
    let month := Z.shiftr (n + 50) 5 in
    let preceding :=
      tbl DAYS_BEFORE_MONTH month + (if (2 <? month) && leapyear then 1 else 0) in
    if n <? preceding then
      let month := month - 1 in
      let preceding :=
        preceding
        - (tbl DAYS_IN_MONTH month + (if (month =? 2) && leapyear then 1 else 0)) in
      (year, month, n - preceding + 1)
    else (year, month, n - preceding + 1).

Definition year (d : date) : Z := fst (fst (ord2ymd d)).
Definition month (d : date) : Z := snd (fst (ord2ymd d)).

(** [check] holds of the [n] integers from [k] on. *)
Fixpoint holds_from (n : nat) (k : Z) (check : Z -> bool) : bool :=
  match n with
  | O => true
  | S n' => check k && holds_from n' (k + 1) check
  end.

(** The ordinal [n] reads as a year, month and day that make [n] again. *)
Definition ymd_roundtrip (n : date) : bool :=
  let '(y, m, d) := ord2ymd n in
  (ymd2ord y m d =? n) && (1 <=? y) && (y <=? 9999)
  && (1 <=? m) && (m <=? 12) && (1 <=? d) && (d <=? 31).

(** ** [float] *)

Local Open Scope R_scope.

Definition Rleb (a b : R) : bool := if Rle_dec a b then true else false.
Definition Rltb (a b : R) : bool := if Rlt_dec a b then true else false.

(** [int(x)]: truncation toward zero. *)
Definition py_int (x : R) : Z :=
  if Rle_dec 0 x then Int_part x else (- Int_part (- x))%Z.

(** [math.exp(x)]. The result overflows binary64 when [e^x >= 2^1024], and
    CPython then raises [OverflowError] ("math range error"); it rounds to
    0.0 when [e^x <= 2^-1075]. No float lies between these bounds and the
    thresholds binary64 rounding really has, 709.782712893384 being the
    largest float on which [math.exp] returns. *)
Definition EXP_MAX : R := 1024 * ln 2.
Definition EXP_MIN : R := - (1075 * ln 2).

(** The value [math.exp(x)] has when it returns. *)
Definition exp_value (x : R) : R := if Rltb x EXP_MIN then 0 else exp x.

Definition math_exp (x : R) : result R :=
  if Rltb EXP_MAX x then Raise OverflowError else Ok (exp_value x).

(** [x or 0.0] for an optional number: [None] and [0] are both falsy. *)
Definition or_zero (x : option R) : R :=
  match x with
  | Some v => if Req_dec_T v 0 then 0 else v
  | None => 0
  end.

Local Close Scope R_scope.

(** ** Lists *)

(** [l[i]]: a negative index counts from the end; out of range raises. *)
Definition py_index {A : Type} (l : list A) (i : Z) : result A :=
  let n := Z.of_nat (List.length l) in
  let j := if i <? 0 then i + n else i in
  if (0 <=? j) && (j <? n) then
    match nth_error l (Z.to_nat j) with
    | Some x => Ok x
    | None => Raise IndexError
    end
  else Raise IndexError.

(** [sorted(l, key=key)] and [l.sort(key=key)]: the stable ascending sort. *)
Section Sorted.
Context {A K : Type} (key : A -> K) (leb : K -> K -> bool).

Fixpoint insort (x : A) (l : list A) : list A :=
  match l with
  | [] => [x]
  | y :: l' => if leb (key x) (key y) then x :: l else y :: insort x l'
  end.

Definition sorted (l : list A) : list A := fold_right insort [] l.

(** The order the sort establishes between an element and a later one. *)
Definition key_le (a b : A) : Prop := leb (key a) (key b) = true.

End Sorted.

(** [zip] applied to the unpacked rows: the columns, as long as every row still has an element. *)
Fixpoint heads {A : Type} (rows : list (list A)) : option (list A) :=
  match rows with
  | [] => Some []
  | [] :: _ => None
  | (x :: _) :: rows' =>
      match heads rows' with
      | Some hs => Some (x :: hs)
      | None => None
      end
  end.

Fixpoint zip_star_n {A : Type} (n : nat) (rows : list (list A)) : list (list A) :=
  match n with
  | O => []
  | S n' =>
      match heads rows with
      | Some hs => hs :: zip_star_n n' (map (@tl A) rows)
      | None => []
      end
  end.

Definition zip_star {A : Type} (rows : list (list A)) : list (list A) :=
  match rows with
  | [] => []
  | r :: _ => zip_star_n (List.length r) rows
  end.

(** ** [dict]: insertion-ordered, assignment to a present key keeps its place *)
Section Dict.
Context {K V : Type} (eqb : K -> K -> bool).

Fixpoint dict_get (d : list (K * V)) (k : K) : option V :=
  match d with
  | [] => None
  | (k', v) :: d' => if eqb k' k then Some v else dict_get d' k
  end.

Fixpoint dict_set (d : list (K * V)) (k : K) (v : V) : list (K * V) :=
  match d with
  | [] => [(k, v)]
  | (k', v') :: d' =>
      if eqb k' k then (k', v) :: d' else (k', v') :: dict_set d' k v
  end.

Definition dict_keys (d : list (K * V)) : list K := map fst d.

End Dict.

(** ** [str]

    A string is its sequence of bytes. [lower] and [upper] map the ASCII
    letters, the letters ticker symbols are made of; [str.lower] and
    [str.upper] also map letters outside ASCII, which are not modelled. *)

Definition lower_char (c : ascii) : ascii :=
  let n := nat_of_ascii c in
  if (Nat.leb 65 n && Nat.leb n 90)%bool then ascii_of_nat (n + 32) else c.

Definition upper_char (c : ascii) : ascii :=
  let n := nat_of_ascii c in
  if (Nat.leb 97 n && Nat.leb n 122)%bool then ascii_of_nat (n - 32) else c.

Fixpoint str_map (f : ascii -> ascii) (s : string) : string :=
  match s with
  | EmptyString => EmptyString
  | String c s' => String (f c) (str_map f s')
  end.

Definition lower : string -> string := str_map lower_char.
Definition upper : string -> string := str_map upper_char.

(** [needle in hay] *)
Fixpoint contains (needle hay : string) : bool :=
  prefix needle hay ||
  match hay with
  | EmptyString => false
  | String _ hay' => contains needle hay'
  end.

Definition is_space (c : ascii) : bool :=
  let n := nat_of_ascii c in
  (Nat.leb 9 n && Nat.leb n 13) || (Nat.leb 28 n && Nat.leb n 32).

Fixpoint lstrip (s : string) : string :=
  match s with
  | EmptyString => EmptyString
  | String c s' => if is_space c then lstrip s' else s
  end.

Fixpoint rstrip (s : string) : string :=
  match s with
  | EmptyString => EmptyString
  | String c s' =>
      match rstrip s' with
      | EmptyString => if is_space c then EmptyString else String c EmptyString
      | t => String c t
      end
  end.

Definition strip (s : string) : string := rstrip (lstrip s).

Definition is_linebreak (c : ascii) : bool :=
  let n := nat_of_ascii c in
  (Nat.leb 10 n && Nat.leb n 13) || (Nat.leb 28 n && Nat.leb n 30).

(** [s.splitlines()], [cur] being the line read so far *)
Fixpoint splitlines_from (cur s : string) : list string :=
  match s with
  | EmptyString => match cur with EmptyString => [] | _ => [cur] end
  | String c rest =>
      if Nat.eqb (nat_of_ascii c) 13 then
        match rest with
        | String c' rest' =>
            if Nat.eqb (nat_of_ascii c') 10
            then cur :: splitlines_from EmptyString rest'
            else cur :: splitlines_from EmptyString rest
        | EmptyString => [cur]
        end
      else if is_linebreak c then cur :: splitlines_from EmptyString rest
      else splitlines_from (String.append cur (String c EmptyString)) rest
  end.

Definition splitlines (s : string) : list string := splitlines_from EmptyString s.

(** [s.split(sep)] for a one-character separator *)
Fixpoint split_from (sep : ascii) (cur s : string) : list string :=
  match s with
  | EmptyString => [cur]
  | String c rest =>
      if Ascii.eqb c sep then cur :: split_from sep EmptyString rest
      else split_from sep (String.append cur (String c EmptyString)) rest
  end.

Definition str_split (sep : ascii) (s : string) : list string :=
  split_from sep EmptyString s.

(** ** The outside world *)

Record response : Type := mkResponse {
  status_code : Z;
  text : string
}.

Record World : Type := mkWorld {
  (** [date.today()] *)
  today : date;
  (** [await client.get(url)] for the [k]-th request of the run *)
  http_get : nat -> string -> result response;
  (** [datetime.strptime(s, "%Y-%m-%d").date()]; [None] is [ValueError] *)
  strptime_ymd : string -> option date;
  (** [float(s)]; [None] is [ValueError] *)
  float_of_str : string -> option R;
  (** the standard-normal variate behind the [k]-th call of [random.gauss] *)
  normal_variate : nat -> R;
  (** [random.gauss] draws [z = cos(2 pi x) * sqrt(-2 log(1 - y))] (or the
      sine) from [x] and [y] of [random()]; [y] is a multiple of [2^-53]
      below 1, so that [|z| <= sqrt(106 ln 2)], which is less than 8.6 *)
  variate_bound : forall k : nat, (-9 <= normal_variate k <= 9)%R;
  (** for a real that lies halfway between two neighbouring multiples of
      [10^-scale]: whether the float it stands for is printed as the upper
      one. The binary value of the float decides: the float of the literal
      [10.555] lies below the half and prints as [10.55], the float [0.125]
      lies on it and prints, half to even, as [0.12]. *)
  half_up : R -> bool
}.

Local Open Scope R_scope.

(** [float(Decimal("%.<scale>f" % x))]: how SQLAlchemy hands a [Numeric]
    value of SQLite to Python (SQLite stores the float as it is; the result
    processor formats it with [scale] decimals and the code takes [float] of
    the [Decimal]). The multiple of [10^-scale] nearest to [x]. *)
Definition round_to (w : World) (scale : nat) (x : R) : R :=
  let y := x * 10 ^ scale in
  let k := Int_part y in
  let f := y - IZR k in
  IZR (if Rltb f (1 / 2) then k
       else if Rltb (1 / 2) f then k + 1
       else if half_up w x then k + 1 else k)%Z
  / 10 ^ scale.

Local Close Scope R_scope.

(** [random.gauss(mu, sigma)] returns [mu + z * sigma] for the next variate. *)
Definition gauss (w : World) (mu sigma : R) : M R :=
  fun s =>
    (Ok (mu + normal_variate w (rng_pos s) * sigma)%R,
     mkState (S (rng_pos s)) (net_pos s)).

Definition client_get (w : World) (url : string) : M response :=
  fun s => (http_get w (net_pos s) url, mkState (rng_pos s) (S (net_pos s))).

End Py.

Export Py.

Notation "x <- m ;; k" := (bind m (fun x => k))
  (at level 61, m at next level, right associativity).
Notation "x <-? r ;; k" := (rbind r (fun x => k))
  (at level 61, r at next level, right associativity).

(* ================================================================== *)
(** * models.py and crud.py: the ledger                                *)
(* ================================================================== *)

Module Crud.

(** A row of the [transactions] table, and a [Transaction] object. *)
Record Transaction : Type := mkTransaction {
  t_id : Z;
  t_user_id : Z;
  t_date : date;
  t_type : string;                 (* income | expense | transfer | trade *)
  t_category : option string;
  t_amount : R;                    (* Numeric(14, 2) *)
  t_asset_symbol : option string;
  t_shares : option R;             (* Numeric(18, 6) *)
  t_price_at_trade : option R      (* Numeric(14, 4) *)
}.

(** What a session reads: the rows of the table, as SQLite stores them. A
    float bound to a [Numeric] column is stored as it is. *)
Definition Session : Type := list Transaction.

(** The object the ORM builds from a stored row: each [Numeric] column comes
    back at the scale of the column. *)
Definition orm_read (w : World) (t : Transaction) : Transaction :=
  mkTransaction (t_id t) (t_user_id t) (t_date t) (t_type t) (t_category t)
                (round_to w 2 (t_amount t)) (t_asset_symbol t)
                (option_map (round_to w 6) (t_shares t))
                (option_map (round_to w 4) (t_price_at_trade t)).

(** The table as the ORM reads it. *)
Definition orm_rows (w : World) (session : Session) : list Transaction :=
  map (orm_read w) session.

(** SQL [SUM]: [NULL] inputs are skipped, and the sum of no value is [NULL]. *)
Fixpoint sql_sum (xs : list (option R)) : option R :=
  match xs with
  | [] => None
  | None :: xs' => sql_sum xs'
  | Some v :: xs' =>
      match sql_sum xs' with
      | Some s => Some (v + s)%R
      | None => Some v
      end
  end.

(** The distinct keys of a column. *)
Fixpoint distinct (ks : list string) : list string :=
  match ks with
  | [] => []
  | k :: ks' => k :: filter (fun k' => negb (String.eqb k' k)) (distinct ks')
  end.

(** SQL [GROUP BY]: one group per distinct key. SQLite forms the groups by
    sorting on the key (through an index or a sorter) and emits them in
    ascending order of the key, byte by byte. *)
Definition group_keys (ks : list string) : list string :=
  sorted (fun k => k) String.leb (distinct ks).

(** Tuple comparison [(d1, i1) <= (d2, i2)] of [ORDER BY date, id]. *)
Definition pair_leb (a b : Z * Z) : bool :=
  (fst a <? fst b) || ((fst a =? fst b) && (snd a <=? snd b)).

(** The rows of [SELECT ... FROM transactions [WHERE user_id = ?]
    ORDER BY date, id]. *)
Definition select_transactions (session : Session) (user_id : option Z)
  : list Transaction :=
  let rows :=
    match user_id with
    | Some u => filter (fun t => t_user_id t =? u) session
    | None => session
    end in
  sorted (fun t => (t_date t, t_id t)) pair_leb rows.

Definition list_transactions (w : World) (session : Session)
  (user_id : option Z) : list Transaction :=
  map (orm_read w) (select_transactions session user_id).

Definition has_symbol (t : Transaction) : bool :=
  match t_asset_symbol t with
  | Some _ => true
  | None => false
  end.

Definition symbol_is (s : string) (t : Transaction) : bool :=
  match t_asset_symbol t with
  | Some s' => String.eqb s' s
  | None => false
  end.

Definition symbols_of (ts : list Transaction) : list string :=
  flat_map (fun t => match t_asset_symbol t with Some s => [s] | None => [] end) ts.

(** The rows of
    [SELECT asset_symbol, SUM(shares) ... WHERE user_id = ? AND type = 'trade'
     AND asset_symbol IS NOT NULL GROUP BY asset_symbol]: the sum is taken
    over the stored shares and, being the sum of a [Numeric(18, 6)] column,
    read back with 6 decimals. *)
Definition positions_rows (w : World) (session : Session) (user_id : Z)
  : list (string * option R) :=
  let trades :=
    filter (fun t => (t_user_id t =? user_id)
                     && String.eqb (t_type t) "trade"
                     && has_symbol t) session in
  map (fun s =>
         (s, option_map (round_to w 6)
                        (sql_sum (map t_shares (filter (symbol_is s) trades)))))
      (group_keys (symbols_of trades)).

(** One row through the comprehension
    [{symbol: float(shares or 0.0) for symbol, shares in rows if symbol}]. *)
Definition comprehension_step (d : list (string * R)) (row : string * option R)
  : list (string * R) :=
  if negb (String.eqb (fst row) "")
  then dict_set String.eqb d (fst row) (or_zero (snd row))
  else d.

Definition get_positions (w : World) (session : Session) (user_id : Z)
  : list (string * R) :=
  fold_left comprehension_step (positions_rows w session user_id) [].

(** [SELECT SUM(amount) ... WHERE user_id = ? AND type = ?]: the sum of the
    stored amounts, read back, as the sum of a [Numeric(14, 2)] column, with
    2 decimals. *)
Definition sum_amount_stmt (w : World) (session : Session) (user_id : Z)
  (ty : string) : option R :=
  option_map (round_to w 2)
    (sql_sum
       (map (fun t => Some (t_amount t))
            (filter (fun t => (t_user_id t =? user_id) && String.eqb (t_type t) ty)
                    session))).

Definition get_cash_balance (w : World) (session : Session) (user_id : Z) : R :=
  let income := or_zero (sum_amount_stmt w session user_id "income") in
  let expense := or_zero (sum_amount_stmt w session user_id "expense") in
  (income - expense)%R.

(** [create_transaction]: [session.add(txn)], [commit] and [refresh]. The
    table gains the row, stored under the primary key [new_id] that the
    database assigns with the floats of the call as they are, and [refresh]
    loads the attributes of the returned object from the stored row. *)
Definition create_transaction (w : World) (session : Session) (new_id : Z)
  (user_id : Z) (date_ : date) (type_ : string) (category : option string)
  (amount : R) (asset_symbol : option string) (shares : option R)
  (price_at_trade : option R) : Transaction * Session :=
  let row :=
    mkTransaction new_id user_id date_ type_ category amount asset_symbol
                  shares price_at_trade in
  (orm_read w row, session ++ [row]).

End Crud.

Export Crud.

(* ================================================================== *)
(** * market.py: the price history provider                            *)
(* ================================================================== *)

Module Market.

(** An entry [{"date": d, "close": c}] of a price series. *)
Record row : Type := mkRow {
  r_date : date;
  r_close : R
}.

Definition HEADER : string := "Date,Open,High,Low,Close,Volume".

Definition stooq_url (cand : string) : string :=
  String.append "https://stooq.com/q/d/l/?s=" (String.append cand "&i=d").

(** One data line of the CSV payload; [None] is a line the loop skips. *)
Definition parse_line (w : World) (line : string) : option row :=
  let parts := str_split ","%char line in
  if (List.length parts <? 5)%nat then None
  else
    match strptime_ymd w (nth 0 parts EmptyString) with
    | None => None
    | Some d =>
        match float_of_str w (nth 4 parts EmptyString) with
        | None => None
        | Some close => Some (mkRow d close)
        end
    end.

Definition parse_lines (w : World) (lines : list string) : list row :=
  flat_map (fun line => match parse_line w line with Some r => [r] | None => [] end)
           lines.

(** The loop [for cand in candidates] of [fetch_stooq_history]. *)
Fixpoint fetch_candidates (w : World) (candidates : list string) : M (list row) :=
  match candidates with
  | [] => ret []
  | cand :: rest =>
      resp <- client_get w (stooq_url cand) ;;
      if (status_code resp =? 200) && contains HEADER (text resp) then
        let lines := splitlines (strip (text resp)) in
        if (List.length lines <=? 1)%nat then fetch_candidates w rest
        else
          match parse_lines w (tl lines) with
          | [] => fetch_candidates w rest
          | out => ret (sorted r_date Z.leb out)
          end
      else fetch_candidates w rest
  end.

Definition fetch_stooq_history (w : World) (symbol : string) : M (list row) :=
  fetch_candidates w [lower symbol; String.append (lower symbol) ".us"].

(** The loop [while cur <= end] of [daterange]; [fuel] is the number of days
    left to visit, see [daterange_unfold] for the equation of the loop. *)
Fixpoint daterange_loop (fuel : nat) (cur end_ : date) : result (list date) :=
  match fuel with
  | O => Ok []
  | S fuel' =>
      if cur <=? end_ then
        cur' <-? date_add_days cur 1 ;;
        res <-? daterange_loop fuel' cur' end_ ;;
        Ok (cur :: res)
      else Ok []
  end.

Definition daterange (start end_ : date) : result (list date) :=
  daterange_loop (Z.to_nat (end_ - start + 1)) start end_.

(** The iterations [i >= 1] of the loop of [simulate_gbm]. *)
Fixpoint gbm_steps (w : World) (mean std price : R) (dates : list date)
  : M (list row) :=
  match dates with
  | [] => ret []
  | d :: dates' =>
      shock <- gauss w mean std ;;
      growth <- lift (math_exp shock) ;;
      let price' := (price * growth)%R in
      series <- gbm_steps w mean std price' dates' ;;
      ret (mkRow d price' :: series)
  end.

Definition simulate_gbm (w : World) (start end_ : date)
  (start_price mu sigma : R) : M (list row) :=
  dates <- lift (daterange start end_) ;;
  match dates with
  | [] => ret []
  | d0 :: dates' =>
      let dt := (1.0 / 252.0)%R in
      series <- gbm_steps w ((mu - 0.5 * sigma * sigma) * dt)%R
                          (sigma * sqrt dt)%R start_price dates' ;;
      ret (mkRow d0 start_price :: series)
  end.

(** [simulate_gbm(start, end)] with the default arguments. *)
Definition fallback_series (w : World) (start end_ : date) : M (list row) :=
  simulate_gbm w start end_ 100.0%R 0.07%R 0.2%R.

(** The body of the loop of [get_price_history] up to [results[sym] = series]. *)
Definition symbol_series (w : World) (sym : string) (start end_ : date)
  : M (list row) :=
  try_except
    (series <- fetch_stooq_history w sym ;;
     let series :=
       filter (fun r => (start <=? r_date r) && (r_date r <=? end_)) series in
     match series with
     | [] => fallback_series w start end_
     | _ => ret series
     end)
    (fun _ => fallback_series w start end_).

Fixpoint price_history_loop (w : World) (symbols : list string)
  (start end_ : date) (results : list (string * list row))
  : M (list (string * list row)) :=
  match symbols with
  | [] => ret results
  | sym :: symbols' =>
      series <- symbol_series w sym start end_ ;;
      price_history_loop w symbols' start end_
                         (dict_set String.eqb results sym series)
  end.

Definition get_price_history (w : World) (symbols : list string)
  (start end_ : date) : M (list (string * list row)) :=
  price_history_loop w symbols start end_ [].

(** [float(series[-1]["close"]) if series else 0.0] *)
Definition last_close (series : list row) : R :=
  match rev series with
  | r :: _ => r_close r
  | [] => 0.0%R
  end.

Definition get_last_prices (w : World) (symbols : list string) (as_of : date)
  : M (list (string * R)) :=
  start <- lift (date_sub_days as_of 365) ;;
  hist <- get_price_history w symbols start as_of ;;
  ret (fold_left
         (fun last item =>
            dict_set String.eqb last (fst item) (last_close (snd item)))
         hist []).

End Market.

Export Market.

(* ================================================================== *)
(** * main.py: the analytics entry points                              *)
(* ================================================================== *)

Module Main.

(** ** Response schemas *)

Record PortfolioValuePoint : Type := mkPortfolioValuePoint {
  pv_date : date;
  pv_value : R
}.

Record CashflowPoint : Type := mkCashflowPoint {
  cf_date : date;
  cf_income : R;
  cf_expense : R;
  cf_net : R
}.

Record AllocationSlice : Type := mkAllocationSlice {
  label : string;
  slice_value : R
}.

Record MonteCarloParams : Type := mkMonteCarloParams {
  user_id : Z;
  initial_value : option R;
  expected_return : R;
  volatility : R;
  periods : Z;
  simulations : Z
}.

Record MonteCarloResult : Type := mkMonteCarloResult {
  median : list R;
  p10 : list R;
  p90 : list R
}.

(** ** Helpers *)

(** The loop [while cur <= end] of [date_range]; as for [daterange], [fuel]
    counts the days left to visit. *)
Fixpoint date_range_loop (fuel : nat) (cur end_ : date) : result (list date) :=
  match fuel with
  | O => Ok []
  | S fuel' =>
      if cur <=? end_ then
        cur' <-? date_add_days cur 1 ;;
        res <-? date_range_loop fuel' cur' end_ ;;
        Ok (cur :: res)
      else Ok []
  end.

Definition date_range (start end_ : date) : result (list date) :=
  date_range_loop (Z.to_nat (end_ - start + 1)) start end_.

(** [as_of or date.today()] *)
Definition as_of_or_today (w : World) (as_of : option date) : date :=
  match as_of with
  | Some d => d
  | None => today w
  end.

(** ** Portfolio value *)

(** The loop [for row in reversed(series)] with its [break], on the rows
    still to visit. *)
Fixpoint scan_price (rows : list row) (d : date) : R :=
  match rows with
  | [] => 0.0%R
  | r :: rows' => if r_date r <=? d then r_close r else scan_price rows' d
  end.

Definition price_at_or_before (series : list row) (d : date) : R :=
  scan_price (rev series) d.

(** [history.get(sym, [])] *)
Definition history_get (history : list (string * list row)) (sym : string)
  : list row :=
  match dict_get String.eqb history sym with
  | Some series => series
  | None => []
  end.

(** The value of the portfolio on day [d]: the inner loop over
    [positions.items()]. *)
Definition total_on (cash : R) (positions : list (string * R))
  (history : list (string * list row)) (d : date) : R :=
  fold_left
    (fun total item =>
       (total + snd item * price_at_or_before (history_get history (fst item)) d)%R)
    positions cash.

Definition portfolio_value (w : World) (session : Session) (user : Z)
  (as_of : option date) : M (list PortfolioValuePoint) :=
  let as_of := as_of_or_today w as_of in
  let positions := get_positions w session user in
  let cash := get_cash_balance w session user in
  match positions with
  | [] => ret [mkPortfolioValuePoint as_of cash]
  | _ =>
      let symbols := dict_keys positions in
      start <- lift (date_sub_days as_of 365) ;;
      history <- get_price_history w symbols start as_of ;;
      days <- lift (date_range start as_of) ;;
      ret (map (fun d => mkPortfolioValuePoint d (total_on cash positions history d))
               days)
  end.

(** ** Cashflow *)

Definition ym_eqb (a b : Z * Z) : bool :=
  (fst a =? fst b) && (snd a =? snd b).

Definition is_cash_type (ty : string) : bool :=
  String.eqb ty "income" || String.eqb ty "expense".

(** A bucket [{"income": i, "expense": e}] is the pair [(i, e)]. *)
Definition bucket_of (monthly : list ((Z * Z) * (R * R))) (key : Z * Z) : R * R :=
  match dict_get ym_eqb monthly key with
  | Some b => b
  | None => (0.0, 0.0)%R
  end.

(** [if key not in monthly: monthly[key] = {"income": 0.0, "expense": 0.0}] *)
Definition ensure_bucket (monthly : list ((Z * Z) * (R * R))) (key : Z * Z)
  : list ((Z * Z) * (R * R)) :=
  match dict_get ym_eqb monthly key with
  | None => dict_set ym_eqb monthly key (0.0, 0.0)%R
  | Some _ => monthly
  end.

(** The body of the loop [for t in txns]. *)
Definition cashflow_step (monthly : list ((Z * Z) * (R * R))) (t : Transaction)
  : list ((Z * Z) * (R * R)) :=
  if negb (is_cash_type (t_type t)) then monthly
  else
    let key := (year (t_date t), month (t_date t)) in
    let monthly := ensure_bucket monthly key in
    let b := bucket_of monthly key in
    if String.eqb (t_type t) "income"
    then dict_set ym_eqb monthly key ((fst b + t_amount t)%R, snd b)
    else dict_set ym_eqb monthly key (fst b, (snd b + t_amount t)%R).

Definition cashflow_point (monthly : list ((Z * Z) * (R * R))) (key : Z * Z)
  : CashflowPoint :=
  let income := fst (bucket_of monthly key) in
  let expense := snd (bucket_of monthly key) in
  mkCashflowPoint (ymd2ord (fst key) (snd key) 1) income expense
                  (income - expense)%R.

Definition cashflow (w : World) (session : Session) (user : Z)
  : list CashflowPoint :=
  let txns := list_transactions w session (Some user) in
  match txns with
  | [] => []
  | _ =>
      let monthly := fold_left cashflow_step txns [] in
      map (cashflow_point monthly)
          (sorted (fun k => k) pair_leb (dict_keys monthly))
  end.

(** ** Allocation *)

(** [prices.get(s, 0.0)] *)
Definition price_get (prices : list (string * R)) (s : string) : R :=
  match dict_get String.eqb prices s with
  | Some p => p
  | None => 0.0%R
  end.

(** [positions[s]] for a key [s] of [positions] *)
Definition shares_of (positions : list (string * R)) (s : string) : R :=
  match dict_get String.eqb positions s with
  | Some sh => sh
  | None => 0%R
  end.

(** The body of the loop [for s in symbols]. *)
Definition allocation_step (positions prices : list (string * R))
  (parts : list AllocationSlice) (s : string) : list AllocationSlice :=
  let value := (shares_of positions s * price_get prices s)%R in
  if Rltb 0 value then parts ++ [mkAllocationSlice (upper s) value] else parts.

Definition allocation (w : World) (session : Session) (user : Z)
  (as_of : option date) : M (list AllocationSlice) :=
  let as_of := as_of_or_today w as_of in
  let positions := get_positions w session user in
  let cash := get_cash_balance w session user in
  let symbols := dict_keys positions in
  prices <- match symbols with
            | [] => ret []
            | _ => get_last_prices w symbols as_of
            end ;;
  let parts := if Rltb 0 cash then [mkAllocationSlice "Cash" cash] else [] in
  ret (fold_left (allocation_step positions prices) symbols parts).

(** ** Monte Carlo *)

(** The loop [for _ in range(n)] of [simulate_path], from the current value. *)
Fixpoint path_steps (w : World) (means stds : R) (n : nat) (value : R)
  : M (list R) :=
  match n with
  | O => ret []
  | S n' =>
      shock <- gauss w means stds ;;
      growth <- lift (math_exp shock) ;;
      let value' := (value * growth)%R in
      vals <- path_steps w means stds n' value' ;;
      ret (value' :: vals)
  end.

Definition simulate_path (w : World) (initial means stds : R) (n : Z)
  : M (list R) :=
  vals <- path_steps w means stds (Z.to_nat n) initial ;;
  ret (initial :: vals).

Definition len (col : list R) : Z := Z.of_nat (List.length col).

Definition median_pick (col : list R) : result R :=
  py_index (sorted (fun x => x) Rleb col) (len col / 2).

Definition p10_pick (col : list R) : result R :=
  py_index (sorted (fun x => x) Rleb col)
           (Z.max 0 (py_int (0.10 * IZR (len col - 1))%R)).

Definition p90_pick (col : list R) : result R :=
  py_index (sorted (fun x => x) Rleb col)
           (py_int (0.90 * IZR (len col - 1))%R).

(** Lines 149-156: cash plus the holdings at their last price. *)
Definition current_total (w : World) (session : Session) (user : Z) : M R :=
  let as_of := today w in
  let positions := get_positions w session user in
  let cash := get_cash_balance w session user in
  match positions with
  | [] => ret cash
  | _ =>
      last_prices <- get_last_prices w (dict_keys positions) as_of ;;
      ret (fold_left
             (fun total item =>
                (total + snd item * price_get last_prices (fst item))%R)
             positions cash)
  end.

(** [dt = 1.0 / 12.0] *)
Definition dt : R := (1.0 / 12.0)%R.

(** [means = (mu - 0.5 * sigma * sigma) * dt] *)
Definition means_of (params : MonteCarloParams) : R :=
  ((expected_return params - 0.5 * volatility params * volatility params) * dt)%R.

(** [stds = sigma * math.sqrt(dt)] *)
Definition stds_of (params : MonteCarloParams) : R :=
  (volatility params * sqrt dt)%R.

(** [params.initial_value if params.initial_value is not None else total] *)
Definition initial_of (params : MonteCarloParams) (total : R) : R :=
  match initial_value params with
  | Some v => v
  | None => total
  end.

(** [all_vals = [simulate_path() for _ in range(sims)]] *)
Definition simulate_all (w : World) (initial : R) (params : MonteCarloParams)
  : M (list (list R)) :=
  replicateM (Z.to_nat (simulations params))
             (simulate_path w initial (means_of params) (stds_of params)
                            (periods params)).

(** Lines 158-177: the simulated paths and their percentile bands. *)
Definition simulate_bands (w : World) (initial : R) (params : MonteCarloParams)
  : M MonteCarloResult :=
  all_vals <- simulate_all w initial params ;;
  median <- lift (rmap median_pick (zip_star all_vals)) ;;
  p10 <- lift (rmap p10_pick (zip_star all_vals)) ;;
  p90 <- lift (rmap p90_pick (zip_star all_vals)) ;;
  ret (mkMonteCarloResult median p10 p90).

Definition monte_carlo (w : World) (session : Session) (params : MonteCarloParams)
  : M MonteCarloResult :=
  total <- current_total w session (user_id params) ;;
  simulate_bands w (initial_of params total) params.

(** ** Transactions *)

(** The request body [schemas.TransactionCreate]. *)
Record TransactionCreate : Type := mkTransactionCreate {
  tc_user_id : Z;
  tc_date : date;
  tc_type : string;
  tc_category : option string;
  tc_amount : R;
  tc_asset_symbol : option string;
  tc_shares : option R;
  tc_price_at_trade : option R
}.

Definition add_transaction (w : World) (session : Session) (new_id : Z)
  (payload : TransactionCreate) : Transaction * Session :=
  create_transaction w session new_id
    (tc_user_id payload) (tc_date payload) (tc_type payload)
    (tc_category payload) (tc_amount payload) (tc_asset_symbol payload)
    (tc_shares payload) (tc_price_at_trade payload).

(** [get_transactions] *)
Definition get_transactions (w : World) (session : Session)
  (user_id : option Z) : list Transaction :=
  list_transactions w session user_id.

End Main.

Export Main.

(* ================================================================== *)
(** * binary64 arithmetic for the percentile indices                   *)
(* ================================================================== *)

Module Binary64.

Import Floats.

(** The binary64 values of the literals [0.10] and [0.90]. *)
Definition tenth : float := 0x1.999999999999ap-4%float.
Definition nine_tenths : float := 0x1.ccccccccccccdp-1%float.

(** [int(c * k) == q] for an integer [k] and a non-negative [q]: the rounded
    product lies in [[q, q + 1)]. *)
Definition int_of_product_is (c : float) (k q : Z) : bool :=
  let prod := PrimFloat.mul c (PrimFloat.of_uint63 (Uint63.of_Z k)) in
  PrimFloat.leb (PrimFloat.of_uint63 (Uint63.of_Z q)) prod
  && PrimFloat.ltb prod (PrimFloat.of_uint63 (Uint63.of_Z (q + 1))).

End Binary64.

(* ================================================================== *)
(** * The specification's own words                                    *)
(* ================================================================== *)

Module Spec.

Local Open Scope R_scope.

(** "Sigma amount over type = ty" for one user: the sum, over the whole
    ledger, of the amounts of the user's transactions of that type. *)
Fixpoint sum_amount (ty : string) (user : Z) (txns : list Transaction) : R :=
  match txns with
  | [] => 0
  | t :: txns' =>
      if ((t_user_id t =? user)%Z && String.eqb (t_type t) ty)%bool
      then t_amount t + sum_amount ty user txns'
      else sum_amount ty user txns'
  end.

(** A transaction that is a trade of [user] in [sym]. *)
Definition trade_in (user : Z) (sym : string) (t : Transaction) : bool :=
  ((t_user_id t =? user)%Z && String.eqb (t_type t) "trade" && symbol_is sym t)%bool.

(** "Sigma shares where asset_symbol == sym" over the user's trades; a trade
    that records no share count adds nothing. *)
Fixpoint sum_shares (user : Z) (sym : string) (txns : list Transaction) : R :=
  match txns with
  | [] => 0
  | t :: txns' =>
      if trade_in user sym t
      then match t_shares t with
           | Some sh => sh + sum_shares user sym txns'
           | None => sum_shares user sym txns'
           end
      else sum_shares user sym txns'
  end.

(** Some trade of [user] names [sym]. *)
Definition traded (user : Z) (sym : string) (txns : list Transaction) : bool :=
  existsb (trade_in user sym) txns.

(** A transaction that is neither a trade nor a transfer. *)
Definition not_trade_or_transfer (t : Transaction) : bool :=
  negb (String.eqb (t_type t) "trade" || String.eqb (t_type t) "transfer").

(** The sum of the values that are present. *)
Fixpoint sum_present (xs : list (option R)) : R :=
  match xs with
  | [] => 0
  | Some v :: xs' => v + sum_present xs'
  | None :: xs' => sum_present xs'
  end.

(** The calendar month [(year, month)] a transaction falls in. *)
Definition month_of (t : Transaction) : Z * Z :=
  (year (t_date t), month (t_date t)).

(** The sum of the amounts of the user's transactions of type [ty] that fall
    in the month [key]. *)
Fixpoint month_amount (ty : string) (user : Z) (key : Z * Z)
  (txns : list Transaction) : R :=
  match txns with
  | [] => 0
  | t :: txns' =>
      if ((t_user_id t =? user)%Z && String.eqb (t_type t) ty
          && ym_eqb (month_of t) key)%bool
      then t_amount t + month_amount ty user key txns'
      else month_amount ty user key txns'
  end.

(** Months in ascending [(year, month)] order. *)
Definition ym_lt (a b : Z * Z) : Prop :=
  (fst a < fst b \/ (fst a = fst b /\ snd a < snd b))%Z.

(** The [n] consecutive days [cur, cur + 1, ..., cur + n - 1]. *)
Definition days_from (cur : date) (n : nat) : list date :=
  map (fun i => (cur + Z.of_nat i)%Z) (seq 0 n).

(** The cash slice, present when the balance is positive. *)
Definition cash_slice (cash : R) : list AllocationSlice :=
  if Rltb 0 cash then [mkAllocationSlice "Cash" cash] else [].

(** The value of the holding in [s] at the given prices. *)
Definition holding_value (positions prices : list (string * R)) (s : string) : R :=
  shares_of positions s * price_get prices s.

(** One slice per symbol of positive value, in the order of [symbols]. *)
Definition symbol_slices (positions prices : list (string * R))
  (symbols : list string) : list AllocationSlice :=
  map (fun s => mkAllocationSlice (upper s) (holding_value positions prices s))
      (filter (fun s => Rltb 0 (holding_value positions prices s)) symbols).

(** What the retrieval of [sym] brings at state [s]: the fetched rows that
    fall in [[start, end_]]; nothing when the fetch raised. *)
Definition retrieved (w : World) (sym : string) (start end_ : date) (s : state)
  : list row :=
  match fetch_stooq_history w sym s with
  | (Ok rows, _) =>
      filter (fun r => (start <=? r_date r)%Z && (r_date r <=? end_)%Z) rows
  | (Raise _, _) => []
  end.

(** The state in which the retrieval of [sym] leaves the world. *)
Definition after_fetch (w : World) (sym : string) (s : state) : state :=
  snd (fetch_stooq_history w sym s).

(** The cross-section of the simulated paths at time index [t]. *)
Definition cross_section (paths : list (list R)) (t : nat) : list R :=
  map (fun path => nth t path 0) paths.

(** The shock [random.gauss(means, stds)] returns at draw [k]. *)
Definition shock_at (w : World) (means stds : R) (k : nat) : R :=
  means + normal_variate w k * stds.

(** None of the [m] draws from position [k] on gives a shock above the
    range of [math.exp]. *)
Definition shocks_in_range (w : World) (means stds : R) (k m : nat) : Prop :=
  forall j : nat, (k <= j < k + m)%nat -> shock_at w means stds j <= EXP_MAX.

(** The shocks of a whole simulation are in the range of [math.exp]:
    those of the [simulations * periods] draws from the state [s] on. *)
Definition simulation_in_range (w : World) (params : MonteCarloParams)
  (s : state) : Prop :=
  shocks_in_range w (means_of params) (stds_of params) (rng_pos s)
                  (Z.to_nat (simulations params) * Z.to_nat (periods params)).

(** The path that starts at [value] and takes [n] steps with the variates
    from position [k] on, without its starting value. *)
Fixpoint path_from (w : World) (means stds : R) (n : nat) (value : R) (k : nat)
  : list R :=
  match n with
  | O => []
  | S n' =>
      let value' := value * exp_value (shock_at w means stds k) in
      value' :: path_from w means stds n' value' (S k)
  end.

(** [sims] paths of [n] steps each, drawn one after the other from
    position [k] on. *)
Fixpoint paths_from (w : World) (initial means stds : R) (n sims k : nat)
  : list (list R) :=
  match sims with
  | O => []
  | S sims' =>
      (initial :: path_from w means stds n initial k)
      :: paths_from w initial means stds n sims' (k + n)
  end.

(** The order-statistic indices: [floor(n/2)], [floor(0.10 (n-1))] and
    [floor(0.90 (n-1))], [Int_part] being the floor of a real number. *)
Definition median_index (n : Z) : nat := Z.to_nat (n / 2).
Definition p10_index (n : Z) : nat := Z.to_nat (Int_part (0.10 * IZR (n - 1))).
Definition p90_index (n : Z) : nat := Z.to_nat (Int_part (0.90 * IZR (n - 1))).

(** The element at index [idx] of the ascending cross-section at time [t]. *)
Definition pick (idx : nat) (paths : list (list R)) (t : nat) : R :=
  nth idx (sorted (fun x => x) Rleb (cross_section paths t)) 0.

(** The picks at index [idx] for the time indices [0 .. L-1]. *)
Definition band (idx : nat) (paths : list (list R)) (L : nat) : list R :=
  map (pick idx paths) (seq 0 L).

(** The deterministic path [initial * growth ^ t] for [t = 0 .. n]. *)
Definition det_path (initial growth : R) (n : nat) : list R :=
  map (fun t => initial * growth ^ t) (seq 0 (S n)).

(** [sorted_col] is the cross-section [col] sorted ascending. *)
Definition ascending_sort_of (col sorted_col : list R) : Prop :=
  Permutation col sorted_col /\ StronglySorted Rle sorted_col.

(** ** Words for the properties beyond the specification *)

(** [(a1, a2) <= (b1, b2)] in the order of tuples. *)
Definition lex_le (a b : Z * Z) : Prop :=
  (fst a < fst b \/ (fst a = fst b /\ snd a <= snd b))%Z.

(** The sum of a list of numbers. *)
Definition sum_list (l : list R) : R := fold_right Rplus 0 l.

(** A row dated within [[start, end_]]. *)
Definition dated_within (start end_ : date) (r : row) : Prop :=
  (start <= r_date r <= end_)%Z.

(** A transaction of [user]. *)
Definition of_user (user : Z) (t : Transaction) : bool := (t_user_id t =? user)%Z.

(** The state after one more request. *)
Definition requested (s : state) : state := mkState (rng_pos s) (S (net_pos s)).

(** A response that yields no row: not a success, no header, no data line,
    or no data line that parses. *)
Definition no_data (w : World) (resp : response) : bool :=
  negb ((status_code resp =? 200)%Z && contains HEADER (text resp))
  || (List.length (splitlines (strip (text resp))) <=? 1)%nat
  || match parse_lines w (tl (splitlines (strip (text resp)))) with
     | [] => true
     | _ => false
     end.

(** The rows of a response that yields some, as [fetch_stooq_history]
    returns them. *)
Definition rows_of (w : World) (resp : response) : list row :=
  sorted r_date Z.leb (parse_lines w (tl (splitlines (strip (text resp))))).

(** What a transaction of the given type and amount adds to the cash of
    its owner. *)
Definition cash_effect (ty : string) (amount : R) : R :=
  if String.eqb ty "income" then amount
  else if String.eqb ty "expense" then - amount
  else 0.

(** The shares a position holds, none when the symbol is not held. *)
Definition held (positions : list (string * R)) (sym : string) : R :=
  match dict_get String.eqb positions sym with
  | Some sh => sh
  | None => 0
  end.

(** The part of a price history that is known on day [d]. *)
Definition known_on (d : date) (series : list row) : list row :=
  filter (fun r => (r_date r <=? d)%Z) series.

(** A number with at most [scale] decimals: a multiple of [10^-scale]. *)
Definition decimals (scale : nat) (x : R) : Prop :=
  exists k : Z, x = IZR k / 10 ^ scale.

(** [r] has at most [scale] decimals and no such number is nearer to [x]:
    it is at most half a unit of the last decimal away. *)
Definition nearest (scale : nat) (x r : R) : Prop :=
  decimals scale r /\ Rabs (r - x) <= / 2 / 10 ^ scale.

(** An optional number with at most [scale] decimals. *)
Definition opt_decimals (scale : nat) (x : option R) : Prop :=
  match x with
  | Some v => decimals scale v
  | None => True
  end.

(** A row whose numbers are stored at the scale of their columns. *)
Definition at_scale (t : Transaction) : Prop :=
  decimals 2 (t_amount t) /\ opt_decimals 6 (t_shares t)
  /\ opt_decimals 4 (t_price_at_trade t).

(** The income and expense rows of [user] are stored in whole cents. *)
Definition cash_in_cents (user : Z) (session : Session) : Prop :=
  forall t, In t session -> t_user_id t = user ->
            is_cash_type (t_type t) = true -> decimals 2 (t_amount t).

(** The trades of [user] record their shares with at most 6 decimals. *)
Definition shares_in_millionths (user : Z) (session : Session) : Prop :=
  forall t, In t session -> t_user_id t = user ->
            String.eqb (t_type t) "trade" = true ->
            opt_decimals 6 (t_shares t).

End Spec.

Export Spec.

(* ================================================================== *)
(** * Sample data                                                      *)
(* ================================================================== *)

Module Sample.

Local Open Scope string_scope.

Definition income_tx (id user : Z) (d : date) (amount : R) : Transaction :=
  mkTransaction id user d "income" (Some "salary") amount None None None.

Definition expense_tx (id user : Z) (d : date) (amount : R) : Transaction :=
  mkTransaction id user d "expense" (Some "rent") amount None None None.

Definition trade_tx (id user : Z) (d : date) (sym : string) (shares : R)
  : Transaction :=
  mkTransaction id user d "trade" (Some "buy") 1500%R (Some sym) (Some shares)
                (Some 150%R).

(** 2024-01-05, 2024-01-10 and 2024-02-02 *)
Definition ledger : Session :=
  [income_tx 1 1 738890 5000%R; expense_tx 2 1 738895 2000%R].

Definition ledger_with_trade : Session :=
  [income_tx 1 1 738890 5000%R; trade_tx 3 1 738918 "AAPL" 10%R;
   expense_tx 2 1 738895 2000%R].

(** A trade whose symbol is the empty string. *)
Definition ledger_empty_symbol : Session := [trade_tx 1 1 738918 "" 10%R].

(** A world without network: every request raises; every variate is 0. *)
Definition offline : World :=
  mkWorld 738918 (fun _ _ => Raise TransportError) (fun _ => None)
          (fun _ => None) (fun _ => 0%R) (fun _ => ltac:(cbv beta; lra))
          (fun _ => false).

(** A world without network whose variates alternate 0, 1, 0, 1, ... *)
Definition offline_alternating : World :=
  mkWorld 738918 (fun _ _ => Raise TransportError) (fun _ => None)
          (fun _ => None) (fun k => if Nat.even k then 0%R else 1%R)
          (fun k => ltac:(cbv beta; destruct (Nat.even k); lra))
          (fun _ => false).

Definition s0 : state := mkState 0 0.

(** Two incomes in January 2024, an expense and a trade in February 2024. *)
Definition ledger_two_months : Session :=
  [income_tx 1 1 738890 100%R; income_tx 2 1 738905 50%R;
   expense_tx 3 1 738918 30%R; trade_tx 4 1 738918 "AAPL" 10%R].

(** A payload of the price source: two data lines, newest first, and a line
    that does not parse. *)
Definition payload : string :=
"Date,Open,High,Low,Close,Volume
2024-01-03,184.2,185.8,183.4,184.25,58414500
2024-01-02,187.1,188.4,183.9,185.64,82488700
n/a,1,2
".

(** A world whose price source knows [aapl.us] only. *)
Definition online : World :=
  mkWorld 738918
    (fun _ url =>
       if String.eqb url "https://stooq.com/q/d/l/?s=aapl.us&i=d"
       then Ok (mkResponse 200 payload)
       else Ok (mkResponse 404 ""))
    (fun s =>
       if String.eqb s "2024-01-02" then Some 738887
       else if String.eqb s "2024-01-03" then Some 738888
       else None)
    (fun s =>
       if String.eqb s "185.64" then Some 185.64%R
       else if String.eqb s "184.25" then Some 184.25%R
       else None)
    (fun _ => 0%R) (fun _ => ltac:(cbv beta; lra)) (fun _ => false).

(** Three paths over two months from 1000. *)
Definition three_paths : MonteCarloParams :=
  mkMonteCarloParams 1 (Some 1000%R) 0.07%R 0.15%R 2 3.

(** Three paths over two months from 1000, without volatility. *)
Definition three_calm_paths : MonteCarloParams :=
  mkMonteCarloParams 1 (Some 1000%R) 0.07%R 0%R 2 3.

(** Two paths over one month from 1, with [mu = 0.5] and [sigma = 1]. *)
Definition two_paths : MonteCarloParams :=
  mkMonteCarloParams 1 (Some 1%R) 0.5%R 1%R 1 2.

(** The ledger with a trade, and an income of another user. *)
Definition ledger_two_users : Session :=
  List.app ledger_with_trade [income_tx 9 2 738890 700%R].

(** A purchase of 5 shares of MSFT by user 1. *)
Definition buy_msft : TransactionCreate :=
  mkTransactionCreate 1 738920 "trade" (Some "buy") 2000%R (Some "MSFT")
                      (Some 5%R) (Some 400%R).

(** Three incomes of 0.004 in January 2024. *)
Definition ledger_fractions : Session :=
  [income_tx 1 1 738890 0.004%R; income_tx 2 1 738891 0.004%R;
   income_tx 3 1 738892 0.004%R].

(** A trade of 0.0000004 shares. *)
Definition ledger_tiny_trade : Session :=
  [trade_tx 1 1 738918 "AAPL" 0.0000004%R].

(** A deposit by user 1. *)
Definition deposit (amount : R) : TransactionCreate :=
  mkTransactionCreate 1 738920 "income" (Some "salary") amount None None None.

(** A year of simulation at a drift that [math.exp] cannot take. *)
Definition runaway_paths : MonteCarloParams :=
  mkMonteCarloParams 1 (Some 1000%R) 10000%R 0%R 12 1.

End Sample.

Export Sample.

(* ================================================================== *)
(** * Facts about the runtime model                                    *)
(* ================================================================== *)

Module PyFacts.

Lemma Rleb_true (a b : R) : Rleb a b = true <-> (a <= b)%R.
Proof.
  unfold Rleb. destruct (Rle_dec a b); split; intros; auto; discriminate.
Qed.

Lemma Rltb_true (a b : R) : Rltb a b = true <-> (a < b)%R.
Proof.
  unfold Rltb. destruct (Rlt_dec a b); split; intros; auto; discriminate.
Qed.

Lemma Rltb_false (a b : R) : Rltb a b = false <-> (b <= a)%R.
Proof.
  unfold Rltb. destruct (Rlt_dec a b); split; intros; try discriminate; auto; lra.
Qed.

Lemma or_zero_some (v : R) : or_zero (Some v) = v.
Proof.
  unfold or_zero. destruct (Req_dec_T v 0); congruence.
Qed.

(** ** The range of [math.exp] *)

Lemma ln_2_bounds : (/ 2 < ln 2 < 0.8)%R.
Proof.
  split; [apply ln_lt_2|].
  assert (H : (2 < exp 0.8)%R).
  { replace 0.8%R with (0.2 + 0.2 + (0.2 + 0.2))%R by lra.
    rewrite !exp_plus.
    pose proof (exp_ineq1 0.2 ltac:(lra)) as He.
    assert (1.44 < exp 0.2 * exp 0.2)%R by nra. nra. }
  rewrite <- (ln_exp 0.8). apply ln_increasing; lra.
Qed.

Lemma EXP_bounds : (-860 < EXP_MIN < -537 /\ 512 < EXP_MAX < 820)%R.
Proof. unfold EXP_MIN, EXP_MAX. pose proof ln_2_bounds. lra. Qed.

Lemma math_exp_ok (x : R) : (x <= EXP_MAX)%R -> math_exp x = Ok (exp_value x).
Proof.
  intros H. unfold math_exp.
  now rewrite (proj2 (Rltb_false EXP_MAX x) H).
Qed.

Lemma math_exp_raise (x : R) :
  (EXP_MAX < x)%R -> math_exp x = Raise OverflowError.
Proof.
  intros H. unfold math_exp. now rewrite (proj2 (Rltb_true EXP_MAX x) H).
Qed.

Lemma exp_value_exp (x : R) : (EXP_MIN <= x)%R -> exp_value x = exp x.
Proof.
  intros H. unfold exp_value. now rewrite (proj2 (Rltb_false x EXP_MIN) H).
Qed.

Lemma exp_value_nonneg (x : R) : (0 <= exp_value x)%R.
Proof.
  unfold exp_value. destruct (Rltb x EXP_MIN); [lra|].
  left. apply exp_pos.
Qed.

(** ** Reading a [Numeric] back *)

Section Rounding.

Local Open Scope R_scope.

Lemma pow10_pos (scale : nat) : 0 < 10 ^ scale.
Proof. apply pow_lt. lra. Qed.

Lemma floor_bounds (y : R) : 0 <= y - IZR (Int_part y) < 1.
Proof. destruct (base_Int_part y). lra. Qed.

Lemma Z_between (a b : Z) : -1 < IZR a - IZR b < 1 -> a = b.
Proof.
  intros [H1 H2].
  assert (b - 1 < a)%Z by (apply lt_IZR; rewrite minus_IZR; lra).
  assert (a < b + 1)%Z by (apply lt_IZR; rewrite plus_IZR; lra).
  lia.
Qed.

(** A number less than half a unit away from a multiple is read back as
    that multiple, whatever the world. *)
Lemma round_to_near (w : World) (scale : nat) (x : R) (k : Z) :
  Rabs (x * 10 ^ scale - IZR k) < 1 / 2 ->
  round_to w scale x = IZR k / 10 ^ scale.
Proof.
  intros H. apply Rabs_def2 in H. unfold round_to.
  set (y := x * 10 ^ scale) in *. pose proof (floor_bounds y) as Hf.
  f_equal. f_equal.
  destruct (Rltb (y - IZR (Int_part y)) (1 / 2)) eqn:E1.
  - apply Rltb_true in E1. apply Z_between. lra.
  - apply Rltb_false in E1.
    destruct (Rltb (1 / 2) (y - IZR (Int_part y))) eqn:E2.
    + apply Rltb_true in E2. apply Z_between. rewrite plus_IZR. lra.
    + apply Rltb_false in E2. exfalso.
      assert (Hk : Int_part y = (k - 1)%Z \/ Int_part y = k).
      { assert (k - 2 < Int_part y)%Z by (apply lt_IZR; rewrite minus_IZR; lra).
        assert (Int_part y < k + 1)%Z by (apply lt_IZR; rewrite plus_IZR; lra).
        lia. }
      destruct Hk as [Hk|Hk]; rewrite Hk in *; try rewrite minus_IZR in *; lra.
Qed.

(** Halfway between two multiples the world decides. *)
Lemma round_to_half (w : World) (scale : nat) (x : R) (k : Z) :
  x * 10 ^ scale = IZR k + 1 / 2 ->
  round_to w scale x
  = IZR (if half_up w x then k + 1 else k) / 10 ^ scale.
Proof.
  intros H. unfold round_to. rewrite H.
  assert (Hk : Int_part (IZR k + 1 / 2) = k).
  { symmetry. apply Int_part_spec. lra. }
  rewrite Hk.
  replace (IZR k + 1 / 2 - IZR k) with (1 / 2) by lra.
  rewrite (proj2 (Rltb_false (1 / 2) (1 / 2))) by lra.
  reflexivity.
Qed.

Lemma round_to_decimals (w : World) (scale : nat) (x : R) :
  decimals scale x -> round_to w scale x = x.
Proof.
  intros [k Hk]. pose proof (pow10_pos scale).
  rewrite (round_to_near w scale x k); [now rewrite Hk|].
  rewrite Hk. replace (IZR k / 10 ^ scale * 10 ^ scale - IZR k) with 0
    by (field; lra).
  rewrite Rabs_R0. lra.
Qed.

Lemma round_to_is_decimal (w : World) (scale : nat) (x : R) :
  decimals scale (round_to w scale x).
Proof. unfold round_to. eexists. reflexivity. Qed.

Lemma round_to_nearest (w : World) (scale : nat) (x : R) :
  nearest scale x (round_to w scale x).
Proof.
  split; [apply round_to_is_decimal|].
  pose proof (pow10_pos scale) as Hp. unfold round_to.
  set (y := x * 10 ^ scale). pose proof (floor_bounds y) as Hf.
  set (r := (if Rltb (y - IZR (Int_part y)) (1 / 2) then Int_part y
             else if Rltb (1 / 2) (y - IZR (Int_part y)) then (Int_part y + 1)%Z
             else if half_up w x then (Int_part y + 1)%Z else Int_part y)).
  assert (Hr : Rabs (IZR r - y) <= / 2).
  { unfold r. apply Rabs_le.
    destruct (Rltb (y - IZR (Int_part y)) (1 / 2)) eqn:E1.
    - apply Rltb_true in E1. lra.
    - apply Rltb_false in E1.
      destruct (Rltb (1 / 2) (y - IZR (Int_part y))) eqn:E2.
      + apply Rltb_true in E2. rewrite plus_IZR. lra.
      + apply Rltb_false in E2.
        destruct (half_up w x); try rewrite plus_IZR; lra. }
  replace (IZR r / 10 ^ scale - x) with ((IZR r - y) * / 10 ^ scale)
    by (unfold y; field; lra).
  rewrite Rabs_mult, (Rabs_right (/ 10 ^ scale))
    by (left; now apply Rinv_0_lt_compat).
  apply Rmult_le_compat_r; [left; now apply Rinv_0_lt_compat|exact Hr].
Qed.

Lemma decimals_0 (scale : nat) : decimals scale 0.
Proof. exists 0%Z. pose proof (pow10_pos scale). field. lra. Qed.

Lemma decimals_plus (scale : nat) (x y : R) :
  decimals scale x -> decimals scale y -> decimals scale (x + y).
Proof.
  intros [a ->] [b ->]. exists (a + b)%Z. pose proof (pow10_pos scale).
  rewrite plus_IZR. field. lra.
Qed.

Lemma decimals_IZR (scale : nat) (k : Z) : decimals scale (IZR k).
Proof.
  exists (k * 10 ^ Z.of_nat scale)%Z. pose proof (pow10_pos scale).
  rewrite mult_IZR, <- pow_IZR. field. lra.
Qed.

Lemma round_to_0 (w : World) (scale : nat) : round_to w scale 0 = 0.
Proof. apply round_to_decimals, decimals_0. Qed.

Lemma or_zero_round (w : World) (scale : nat) (x : option R) :
  or_zero (option_map (round_to w scale) x)
  = round_to w scale (or_zero x).
Proof.
  destruct x as [v|]; cbn [option_map]; [|cbn; now rewrite round_to_0].
  rewrite !or_zero_some. reflexivity.
Qed.

End Rounding.

Lemma pair_leb_total (a b : Z * Z) : pair_leb a b = true \/ pair_leb b a = true.
Proof.
  unfold pair_leb. destruct a as [a1 a2], b as [b1 b2]; simpl.
  destruct (Z.ltb_spec a1 b1); [now left|].
  destruct (Z.ltb_spec b1 a1); [now right|].
  assert (a1 = b1) by lia. subst. rewrite Z.eqb_refl. simpl.
  destruct (Z.leb_spec a2 b2); [now left|]. right. apply Z.leb_le. lia.
Qed.

Lemma pair_leb_spec (a b : Z * Z) :
  pair_leb a b = true <-> (fst a < fst b \/ (fst a = fst b /\ snd a <= snd b)).
Proof.
  unfold pair_leb. rewrite orb_true_iff, andb_true_iff, Z.ltb_lt, Z.eqb_eq, Z.leb_le.
  tauto.
Qed.

Lemma pair_leb_trans (a b c : Z * Z) :
  pair_leb a b = true -> pair_leb b c = true -> pair_leb a c = true.
Proof.
  rewrite !pair_leb_spec. lia.
Qed.

Lemma ym_eqb_eq (a b : Z * Z) : ym_eqb a b = true <-> a = b.
Proof.
  unfold ym_eqb. destruct a, b; simpl.
  rewrite andb_true_iff, !Z.eqb_eq. split; [intros []; congruence|].
  intros H; inversion H; auto.
Qed.

Lemma ym_eqb_refl (a : Z * Z) : ym_eqb a a = true.
Proof. now apply ym_eqb_eq. Qed.

(** ** The stable sort returns an ascending permutation *)

Section SortedFacts.
Context {A K : Type} (key : A -> K) (leb : K -> K -> bool).

Lemma insort_perm (x : A) (l : list A) :
  Permutation (insort key leb x l) (x :: l).
Proof.
  induction l as [|y l IH]; simpl; [reflexivity|].
  destruct (leb (key x) (key y)); [reflexivity|].
  rewrite IH. apply perm_swap.
Qed.

Lemma sorted_perm (l : list A) : Permutation (sorted key leb l) l.
Proof.
  induction l as [|x l IH]; simpl; [constructor|].
  rewrite insort_perm. now constructor.
Qed.

Lemma sorted_length (l : list A) : List.length (sorted key leb l) = List.length l.
Proof. apply Permutation_length, sorted_perm. Qed.

Hypothesis leb_total : forall a b, leb a b = true \/ leb b a = true.
Hypothesis leb_trans :
  forall a b c, leb a b = true -> leb b c = true -> leb a c = true.

Lemma insort_sorted (x : A) (l : list A) :
  StronglySorted (key_le key leb) l ->
  StronglySorted (key_le key leb) (insort key leb x l).
Proof.
  induction 1 as [|y l Hl IH Hy]; simpl.
  - repeat constructor.
  - destruct (leb (key x) (key y)) eqn:E.
    + constructor; [now constructor|].
      constructor; [exact E|].
      eapply Forall_impl; [|exact Hy]. intros z Hz.
      unfold key_le in *. eauto.
    + constructor; [exact IH|].
      assert (Hyx : key_le key leb y x).
      { destruct (leb_total (key x) (key y)); [congruence|assumption]. }
      eapply Permutation_Forall; [symmetry; apply insort_perm|].
      now constructor.
Qed.

Lemma sorted_sorted (l : list A) :
  StronglySorted (key_le key leb) (sorted key leb l).
Proof.
  induction l as [|x l IH]; simpl; [constructor|].
  now apply insort_sorted.
Qed.

End SortedFacts.

Lemma sorted_R_ascending (col : list R) :
  ascending_sort_of col (sorted (fun x => x) Rleb col).
Proof.
  split; [symmetry; apply sorted_perm|].
  assert (H : StronglySorted (key_le (fun x : R => x) Rleb)
                             (sorted (fun x => x) Rleb col)).
  { apply sorted_sorted.
    - intros a b. rewrite !Rleb_true. lra.
    - intros a b c. rewrite !Rleb_true. lra. }
  induction H as [|a l Hl IH Ha]; constructor; [exact IH|].
  eapply Forall_impl; [|exact Ha]. intros b Hb. now apply Rleb_true.
Qed.

End PyFacts.

Import PyFacts.

(** ** Dictionaries *)

Module DictFacts.

Section WithKey.
Context {K V : Type} (eqb : K -> K -> bool).
Hypothesis eqb_eq : forall a b, eqb a b = true <-> a = b.

Lemma eqb_refl' (a : K) : eqb a a = true.
Proof. now apply eqb_eq. Qed.

Lemma dict_get_set (d : list (K * V)) (k : K) (v : V) (q : K) :
  dict_get eqb (dict_set eqb d k v) q =
  if eqb k q then Some v else dict_get eqb d q.
Proof.
  induction d as [|[k0 v0] d IH]; simpl; [reflexivity|].
  destruct (eqb k0 k) eqn:E0; simpl.
  - apply eqb_eq in E0. subst k0. now destruct (eqb k q).
  - rewrite IH. destruct (eqb k q) eqn:E1; [|reflexivity].
    apply eqb_eq in E1. subst q. now rewrite E0.
Qed.

Lemma dict_keys_set_in (d : list (K * V)) (k : K) (v : V) (q : K) :
  In q (dict_keys (dict_set eqb d k v)) <-> q = k \/ In q (dict_keys d).
Proof.
  unfold dict_keys. induction d as [|[k0 v0] d IH]; simpl.
  - split; intros [H|H]; auto; contradiction.
  - destruct (eqb k0 k) eqn:E0; simpl.
    + apply eqb_eq in E0. subst k0. split; intros H; [tauto|].
      destruct H as [H|[H|H]]; auto.
    + rewrite IH. split; intros H; [tauto|].
      destruct H as [H|[H|H]]; auto.
Qed.

Lemma dict_set_NoDup (d : list (K * V)) (k : K) (v : V) :
  NoDup (dict_keys d) -> NoDup (dict_keys (dict_set eqb d k v)).
Proof.
  unfold dict_keys. induction d as [|[k0 v0] d IH]; simpl; intros H.
  - constructor; [intros []|constructor].
  - inversion H as [|? ? Hn Hd]; subst.
    destruct (eqb k0 k) eqn:E0; simpl.
    + now constructor.
    + constructor; [|now apply IH].
      intros Hin. apply (dict_keys_set_in d k v k0) in Hin.
      destruct Hin as [->|Hin]; [|contradiction].
      rewrite eqb_refl' in E0. discriminate.
Qed.

Lemma dict_get_none (d : list (K * V)) (q : K) :
  dict_get eqb d q = None <-> ~ In q (dict_keys d).
Proof.
  unfold dict_keys. induction d as [|[k0 v0] d IH]; simpl; [tauto|].
  destruct (eqb k0 q) eqn:E.
  - apply eqb_eq in E. subst. split; [discriminate|tauto].
  - rewrite IH. split; [|tauto]. intros H [H1|H1]; [|tauto].
    subst. rewrite eqb_refl' in E. discriminate.
Qed.

End WithKey.

End DictFacts.

Import DictFacts.

Lemma string_eqb_eq (a b : string) : String.eqb a b = true <-> a = b.
Proof. apply String.eqb_eq. Qed.

(* ================================================================== *)
(** * The ledger aggregator                                            *)
(* ================================================================== *)

Module CrudFacts.

Local Open Scope R_scope.

Lemma or_zero_sql_sum (xs : list (option R)) :
  or_zero (sql_sum xs) = sum_present xs.
Proof.
  induction xs as [|[v|] xs IH]; simpl; auto.
  destruct (sql_sum xs) as [s|].
  - rewrite or_zero_some in *. now rewrite IH.
  - rewrite or_zero_some. simpl in IH. rewrite <- IH. lra.
Qed.

Lemma sum_amount_stmt_spec (w : World) (session : Session) (user : Z)
  (ty : string) :
  or_zero (sum_amount_stmt w session user ty)
  = round_to w 2 (sum_amount ty user session).
Proof.
  unfold sum_amount_stmt. rewrite or_zero_round, or_zero_sql_sum. f_equal.
  induction session as [|t session IH]; simpl; auto.
  destruct ((t_user_id t =? user)%Z && String.eqb (t_type t) ty)%bool; simpl;
    now rewrite IH.
Qed.

Lemma cash_balance_rounded (w : World) (session : Session) (user : Z) :
  get_cash_balance w session user
  = round_to w 2 (sum_amount "income" user session)
    - round_to w 2 (sum_amount "expense" user session).
Proof. unfold get_cash_balance. now rewrite !sum_amount_stmt_spec. Qed.

Lemma sum_amount_cents (ty : string) (user : Z) (session : Session) :
  is_cash_type ty = true -> cash_in_cents user session ->
  decimals 2 (sum_amount ty user session).
Proof.
  intros Hty. induction session as [|t session IH]; intros Hc.
  - apply decimals_0.
  - assert (IH' : decimals 2 (sum_amount ty user session)).
    { apply IH. intros t' Ht'. apply Hc. now right. }
    cbn [sum_amount].
    destruct ((t_user_id t =? user)%Z && String.eqb (t_type t) ty)%bool eqn:E;
      [|exact IH'].
    apply andb_true_iff in E. destruct E as [E1 E2].
    apply Z.eqb_eq in E1. apply String.eqb_eq in E2.
    apply decimals_plus; [|exact IH'].
    apply Hc; [now left|exact E1|now rewrite E2].
Qed.

Lemma cash_balance_cents (w : World) (session : Session) (user : Z) :
  cash_in_cents user session ->
  get_cash_balance w session user
  = sum_amount "income" user session - sum_amount "expense" user session.
Proof.
  intros Hc. rewrite cash_balance_rounded.
  now rewrite !round_to_decimals by (apply sum_amount_cents; auto).
Qed.

(** A row stored at the scale of its columns is read back as it is. *)
Lemma orm_read_at_scale (w : World) (t : Transaction) :
  at_scale t -> orm_read w t = t.
Proof.
  intros [Ha [Hs Hp]]. destruct t as [i u d ty c a sym sh pr].
  unfold orm_read. cbn in *. rewrite (round_to_decimals w 2 a Ha).
  f_equal.
  - destruct sh as [v|]; [cbn; now rewrite round_to_decimals|reflexivity].
  - destruct pr as [v|]; [cbn; now rewrite round_to_decimals|reflexivity].
Qed.

Lemma orm_rows_at_scale (w : World) (rows : list Transaction) :
  Forall at_scale rows -> map (orm_read w) rows = rows.
Proof.
  induction 1 as [|t rows Ht _ IH]; [reflexivity|].
  cbn [map]. now rewrite orm_read_at_scale, IH.
Qed.

Lemma list_transactions_at_scale (w : World) (session : Session)
  (user_id : option Z) :
  Forall at_scale session ->
  list_transactions w session user_id = select_transactions session user_id.
Proof.
  intros H. unfold list_transactions. apply orm_rows_at_scale.
  eapply Permutation_Forall; [symmetry; apply sorted_perm|].
  destruct user_id as [u|]; [|exact H].
  apply Forall_forall. intros t Ht. apply filter_In in Ht.
  rewrite Forall_forall in H. now apply H.
Qed.

(** The sample ledgers are stored at scale. *)
Lemma whole_trade_row (i u d : Z) (ty : string) (c sym : option string)
  (a sh pr : Z) :
  at_scale (mkTransaction i u d ty c (IZR a) sym (Some (IZR sh)) (Some (IZR pr))).
Proof. repeat split; cbn; apply decimals_IZR. Qed.

Lemma whole_cash_row (i u d : Z) (ty : string) (c sym : option string) (a : Z) :
  at_scale (mkTransaction i u d ty c (IZR a) sym None None).
Proof. repeat split; cbn; auto; apply decimals_IZR. Qed.

(** Proves that a ledger of such rows is stored at scale. *)
Ltac whole_rows :=
  repeat (apply Forall_cons;
          [first [apply whole_cash_row|apply whole_trade_row]|]);
  apply Forall_nil.

Lemma fractions_sum : sum_amount "income" 1 ledger_fractions = 0.012.
Proof. cbn. lra. Qed.

Lemma fractions_balance (w : World) : get_cash_balance w ledger_fractions 1 = 0.01.
Proof.
  rewrite cash_balance_rounded, fractions_sum.
  change (sum_amount "expense" 1 ledger_fractions) with 0.
  rewrite round_to_0, (round_to_near w 2 0.012 1).
  - lra.
  - apply Rabs_def1; lra.
Qed.

Lemma sum_amount_cash_only (ty : string) (user : Z) (session : Session) :
  is_cash_type ty = true ->
  sum_amount ty user (filter not_trade_or_transfer session)
  = sum_amount ty user session.
Proof.
  intros Hty. induction session as [|t session IH]; simpl; auto.
  unfold not_trade_or_transfer at 1.
  destruct (String.eqb (t_type t) "trade" || String.eqb (t_type t) "transfer")%bool
    eqn:E; simpl.
  - assert (Hne : String.eqb (t_type t) ty = false).
    { destruct (String.eqb_spec (t_type t) ty) as [Heq|]; [|reflexivity].
      rewrite Heq in E. unfold is_cash_type in Hty.
      apply orb_true_iff in Hty. apply orb_true_iff in E.
      destruct Hty as [H|H]; apply String.eqb_eq in H; subst ty;
        destruct E as [E|E]; discriminate. }
    rewrite Hne, andb_false_r. exact IH.
  - rewrite IH. reflexivity.
Qed.

End CrudFacts.

Import CrudFacts.




Module PositionsFacts.

Local Open Scope R_scope.

Lemma distinct_in (ks : list string) (k : string) :
  In k (distinct ks) <-> In k ks.
Proof.
  induction ks as [|k0 ks IH]; simpl; [tauto|].
  rewrite filter_In, IH, negb_true_iff.
  destruct (String.eqb_spec k k0) as [->|Hne]; [tauto|].
  split; [tauto|]. intros [H|H]; [now left|right; auto].
Qed.

Lemma distinct_NoDup (ks : list string) : NoDup (distinct ks).
Proof.
  induction ks as [|k0 ks IH]; simpl; constructor.
  - rewrite filter_In, String.eqb_refl. intros [_ H]. discriminate.
  - now apply NoDup_filter.
Qed.

Lemma group_keys_in (ks : list string) (k : string) :
  In k (group_keys ks) <-> In k ks.
Proof.
  unfold group_keys. split; intros H.
  - apply distinct_in.
    now apply (Permutation_in _ (sorted_perm (fun k => k) String.leb _)).
  - apply (Permutation_in
             _ (Permutation_sym (sorted_perm (fun k => k) String.leb _))).
    now apply distinct_in.
Qed.

Lemma group_keys_NoDup (ks : list string) : NoDup (group_keys ks).
Proof.
  unfold group_keys.
  eapply Permutation_NoDup; [symmetry; apply sorted_perm|apply distinct_NoDup].
Qed.

Lemma group_keys_ascending (ks : list string) :
  StronglySorted (fun a b => String.leb a b = true) (group_keys ks).
Proof.
  unfold group_keys.
  apply (sorted_sorted (fun k : string => k) String.leb).
  - apply String.leb_total.
  - intros a b c. unfold String.leb.
    destruct (String.compare a b) eqn:E1; try discriminate;
      destruct (String.compare b c) eqn:E2; try discriminate; intros _ _.
    + apply String.compare_eq_iff in E1. subst. now rewrite E2.
    + apply String.compare_eq_iff in E1. subst. now rewrite E2.
    + apply String.compare_eq_iff in E2. subst. now rewrite E1.
    + assert (E : String.compare a c = Lt); [|now rewrite E].
      revert b c E1 E2. induction a as [|x a IH]; intros [|y b] [|z c];
        cbn; try discriminate; try reflexivity.
      unfold Ascii.compare.
      destruct (N.compare_spec (N_of_ascii x) (N_of_ascii y)) as [Exy|Exy|Exy];
        destruct (N.compare_spec (N_of_ascii y) (N_of_ascii z)) as [Eyz|Eyz|Eyz];
        try discriminate; intros H1 H2.
      * rewrite Exy, Eyz, N.compare_refl. now apply (IH b c).
      * rewrite Exy. now apply N.compare_lt_iff in Eyz as ->.
      * rewrite <- Eyz. now apply N.compare_lt_iff in Exy as ->.
      * assert (Hlt : (N_of_ascii x < N_of_ascii z)%N) by lia.
        now apply N.compare_lt_iff in Hlt as ->.
Qed.

Lemma comprehension_get (f : string -> option R) (keys : list string) :
  NoDup keys ->
  forall (d : list (string * R)) (k : string),
    dict_get String.eqb
      (fold_left comprehension_step (map (fun s => (s, f s)) keys) d) k
    = if (existsb (String.eqb k) keys && negb (String.eqb k ""))%bool
      then Some (or_zero (f k))
      else dict_get String.eqb d k.
Proof.
  induction 1 as [|k0 keys Hn Hnd IH]; intros d k; simpl; [reflexivity|].
  rewrite IH. unfold comprehension_step. simpl.
  destruct (String.eqb_spec k k0) as [->|Hne]; simpl.
  - assert (Hex : existsb (String.eqb k0) keys = false).
    { destruct (existsb (String.eqb k0) keys) eqn:E; [|reflexivity].
      apply existsb_exists in E. destruct E as [x [Hx E]].
      apply String.eqb_eq in E. subst x. contradiction. }
    rewrite Hex. simpl.
    destruct (String.eqb k0 "") eqn:E0; simpl; [reflexivity|].
    rewrite (dict_get_set String.eqb string_eqb_eq), String.eqb_refl.
    reflexivity.
  - destruct (existsb (String.eqb k) keys && negb (String.eqb k ""))%bool;
      [reflexivity|].
    destruct (negb (String.eqb k0 "")); [|reflexivity].
    rewrite (dict_get_set String.eqb string_eqb_eq).
    destruct (String.eqb_spec k0 k); [congruence|reflexivity].
Qed.

Lemma symbol_in_trades (session : Session) (user : Z) (k : string) :
  existsb (String.eqb k)
    (group_keys (symbols_of
       (filter (fun t => ((t_user_id t =? user)%Z
                          && String.eqb (t_type t) "trade"
                          && has_symbol t)%bool) session)))
  = traded user k session.
Proof.
  apply eq_true_iff_eq. unfold traded. rewrite !existsb_exists. split.
  - intros [x [Hx E]]. apply String.eqb_eq in E. subst x.
    apply (proj1 (group_keys_in _ _)) in Hx. unfold symbols_of in Hx.
    apply (proj1 (in_flat_map _ _ _)) in Hx. destruct Hx as [t [Ht Hk]].
    apply (proj1 (filter_In _ _ _)) in Ht. destruct Ht as [Ht Hc].
    exists t. split; [exact Ht|]. unfold trade_in, symbol_is.
    destruct (t_asset_symbol t) as [s|]; [|contradiction].
    destruct Hk as [->|[]]. rewrite String.eqb_refl.
    apply andb_true_iff in Hc. destruct Hc as [Hc _]. now rewrite Hc.
  - intros [t [Ht Hc]]. exists k. split; [|apply String.eqb_refl].
    apply (proj2 (group_keys_in _ _)). unfold symbols_of.
    apply (proj2 (in_flat_map _ _ _)).
    unfold trade_in, symbol_is in Hc.
    destruct (t_asset_symbol t) as [s|] eqn:Es;
      [|rewrite andb_false_r in Hc; discriminate].
    apply andb_true_iff in Hc. destruct Hc as [Hc Hs].
    apply String.eqb_eq in Hs. subst s.
    exists t. split; [|rewrite Es; now left].
    apply (proj2 (filter_In _ _ _)). split; [exact Ht|].
    unfold has_symbol. now rewrite Es, Hc.
Qed.

Lemma group_sum_spec (session : Session) (user : Z) (k : string) :
  sum_present
    (map t_shares
       (filter (symbol_is k)
          (filter (fun t => ((t_user_id t =? user)%Z
                             && String.eqb (t_type t) "trade"
                             && has_symbol t)%bool) session)))
  = sum_shares user k session.
Proof.
  assert (Hf : forall l,
    filter (symbol_is k)
      (filter (fun t => ((t_user_id t =? user)%Z
                         && String.eqb (t_type t) "trade"
                         && has_symbol t)%bool) l)
    = filter (trade_in user k) l).
  { induction l as [|t l IH]; [reflexivity|].
    cbn [filter]. unfold trade_in at 1, has_symbol at 1.
    destruct ((t_user_id t =? user)%Z && String.eqb (t_type t) "trade")%bool;
      cbn [andb].
    - unfold symbol_is at 2.
      destruct (t_asset_symbol t) as [s|] eqn:Es.
      + cbn [filter]. unfold symbol_is at 1. rewrite Es.
        destruct (String.eqb s k); now rewrite IH.
      + exact IH.
    - exact IH. }
  rewrite Hf. clear Hf.
  induction session as [|t session IH]; [reflexivity|].
  cbn [filter sum_shares]. destruct (trade_in user k t); [|exact IH].
  cbn [map sum_present]. rewrite IH. reflexivity.
Qed.

Lemma get_positions_lookup (w : World) (session : Session) (user : Z)
  (k : string) :
  dict_get String.eqb (get_positions w session user) k
  = if (traded user k session && negb (String.eqb k ""))%bool
    then Some (round_to w 6 (sum_shares user k session))
    else None.
Proof.
  unfold get_positions, positions_rows.
  rewrite (comprehension_get
             (fun s => option_map (round_to w 6)
                         (sql_sum (map t_shares (filter (symbol_is s) _)))))
    by apply group_keys_NoDup.
  rewrite symbol_in_trades, or_zero_round, or_zero_sql_sum, group_sum_spec.
  reflexivity.
Qed.

Lemma sum_shares_millionths (user : Z) (sym : string) (session : Session) :
  shares_in_millionths user session ->
  decimals 6 (sum_shares user sym session).
Proof.
  induction session as [|t session IH]; intros Hc.
  - apply decimals_0.
  - assert (IH' : decimals 6 (sum_shares user sym session)).
    { apply IH. intros t' Ht'. apply Hc. now right. }
    cbn [sum_shares]. destruct (trade_in user sym t) eqn:E; [|exact IH'].
    destruct (t_shares t) as [sh|] eqn:Es; [|exact IH'].
    apply decimals_plus; [|exact IH'].
    unfold trade_in in E. apply andb_true_iff in E. destruct E as [E _].
    apply andb_true_iff in E. destruct E as [E1 E2]. apply Z.eqb_eq in E1.
    pose proof (Hc t (or_introl eq_refl) E1 E2) as Hd.
    now rewrite Es in Hd.
Qed.

Lemma tiny_trade_position (w : World) :
  sum_shares 1 "AAPL"%string ledger_tiny_trade = 0.0000004
  /\ dict_get String.eqb (get_positions w ledger_tiny_trade 1) "AAPL"%string
     = Some 0.
Proof.
  assert (Hs : sum_shares 1 "AAPL"%string ledger_tiny_trade = 0.0000004)
    by (cbn; lra).
  split; [exact Hs|].
  rewrite get_positions_lookup, Hs.
  assert (Hc : (traded 1 "AAPL"%string ledger_tiny_trade
                && negb (String.eqb "AAPL"%string ""%string))%bool = true)
    by reflexivity.
  rewrite Hc. f_equal.
  rewrite (round_to_near w 6 0.0000004 0).
  - lra.
  - apply Rabs_def1; simpl; lra.
Qed.

End PositionsFacts.

Import PositionsFacts.




Module LookupFacts.

Lemma scan_price_skip (rows rest : list row) (d : date) :
  Forall (fun r => d < r_date r) rows ->
  scan_price (rows ++ rest) d = scan_price rest d.
Proof.
  induction 1 as [|r rows Hr _ IH]; simpl; [reflexivity|].
  destruct (Z.leb_spec (r_date r) d); [lia|exact IH].
Qed.

Lemma price_found (pre post : list row) (r : row) (d : date) :
  r_date r <= d ->
  Forall (fun r' => d < r_date r') post ->
  price_at_or_before (pre ++ r :: post) d = r_close r.
Proof.
  intros Hr Hpost. unfold price_at_or_before.
  rewrite rev_app_distr. simpl. rewrite <- !app_assoc.
  rewrite scan_price_skip by now apply Forall_rev.
  simpl. destruct (Z.leb_spec (r_date r) d); [reflexivity|lia].
Qed.

Lemma price_not_found (series : list row) (d : date) :
  Forall (fun r => d < r_date r) series ->
  price_at_or_before series d = 0%R.
Proof.
  intros H. unfold price_at_or_before.
  rewrite <- (app_nil_r (rev series)).
  rewrite scan_price_skip by now apply Forall_rev.
  simpl. lra.
Qed.

End LookupFacts.

Import LookupFacts.

(** C3. The per-day price lookup of the valuation returns the close of the
    last entry of the series whose date is at or before the query date [d]
    (the entry [r] after which every entry is dated after [d]), and [0.0] when
    every entry is dated after [d]. In particular, on a two-entry series
    [[(d1, c1); (d2, c2)]] with [d1 < d2], a query with [d1 <= d < d2]
    returns [c1] and a query with [d < d1] returns [0.0]. *)
Theorem price_at_or_before_last_entry :
  forall (series : list row) (d : date),
    (forall pre r post,
        series = pre ++ r :: post ->
        r_date r <= d ->
        Forall (fun r' => d < r_date r') post ->
        price_at_or_before series d = r_close r)
    /\ (Forall (fun r => d < r_date r) series ->
        price_at_or_before series d = 0%R)
    /\ (forall d1 c1 d2 c2,
           series = [mkRow d1 c1; mkRow d2 c2] ->
           d1 < d2 ->
           (d1 <= d < d2 -> price_at_or_before series d = c1)
           /\ (d < d1 -> price_at_or_before series d = 0%R)).
Proof.
  intros series d. split; [|split].
  - intros pre r post -> Hr Hpost. now apply price_found.
  - apply price_not_found.
  - intros d1 c1 d2 c2 -> Hlt. split.
    + intros [H1 H2].
      apply (price_found [] [mkRow d2 c2] (mkRow d1 c1) d); simpl; [lia|].
      repeat constructor. simpl. lia.
    + intros H. apply price_not_found. repeat constructor; simpl; lia.
Qed.

Lemma price_at_or_before_last_entry_witness :
  10 < 20 /\ 10 <= 15 < 20
  /\ price_at_or_before [mkRow 10 1%R; mkRow 20 2%R] 15 = 1%R.
Proof.
  assert (H1 : 10 < 20) by lia.
  assert (H2 : 10 <= 15 < 20) by lia.
  split; [exact H1|split; [exact H2|]].
  exact (proj1 (proj2 (proj2 (price_at_or_before_last_entry
                                [mkRow 10 1%R; mkRow 20 2%R] 15))
                      10 1%R 20 2%R eq_refl H1) H2).
Defined.

(* ================================================================== *)
(** * The cashflow summarizer                                          *)
(* ================================================================== *)

Module CashflowFacts.

Local Open Scope R_scope.

Lemma bucket_of_set (d : list ((Z * Z) * (R * R))) (key k : Z * Z) (v : R * R) :
  bucket_of (dict_set ym_eqb d key v) k
  = if ym_eqb key k then v else bucket_of d k.
Proof.
  unfold bucket_of. rewrite (dict_get_set ym_eqb ym_eqb_eq).
  now destruct (ym_eqb key k).
Qed.

Lemma bucket_of_ensured (d : list ((Z * Z) * (R * R))) (key k : Z * Z) :
  bucket_of (ensure_bucket d key) k = bucket_of d k.
Proof.
  unfold ensure_bucket. destruct (dict_get ym_eqb d key) eqn:E; [reflexivity|].
  rewrite bucket_of_set. destruct (ym_eqb key k) eqn:Ek; [|reflexivity].
  apply ym_eqb_eq in Ek. subst k. unfold bucket_of. now rewrite E.
Qed.

Lemma keys_ensured (d : list ((Z * Z) * (R * R))) (key k : Z * Z) :
  In k (dict_keys (ensure_bucket d key)) <-> k = key \/ In k (dict_keys d).
Proof.
  unfold ensure_bucket. destruct (dict_get ym_eqb d key) eqn:E.
  - split; [tauto|]. intros [->|H]; [|exact H].
    destruct (in_dec (fun a b : Z * Z =>
                        ltac:(decide equality; apply Z.eq_dec) : {a = b} + {a <> b})
                     key (dict_keys d)) as [H|H]; [exact H|].
    apply (dict_get_none ym_eqb ym_eqb_eq) in H. congruence.
  - apply (dict_keys_set_in ym_eqb ym_eqb_eq).
Qed.

Lemma NoDup_ensured (d : list ((Z * Z) * (R * R))) (key : Z * Z) :
  NoDup (dict_keys d) -> NoDup (dict_keys (ensure_bucket d key)).
Proof.
  unfold ensure_bucket. destruct (dict_get ym_eqb d key); [auto|].
  apply (dict_set_NoDup ym_eqb ym_eqb_eq).
Qed.

Lemma cashflow_step_unfold (d : list ((Z * Z) * (R * R))) (t : Transaction) :
  cashflow_step d t =
  if negb (is_cash_type (t_type t)) then d
  else
    let b := bucket_of (ensure_bucket d (month_of t)) (month_of t) in
    if String.eqb (t_type t) "income"
    then dict_set ym_eqb (ensure_bucket d (month_of t)) (month_of t)
                  (fst b + t_amount t, snd b)
    else dict_set ym_eqb (ensure_bucket d (month_of t)) (month_of t)
                  (fst b, snd b + t_amount t).
Proof. reflexivity. Qed.

Lemma cash_type_cases (ty : string) :
  is_cash_type ty = true ->
  (String.eqb ty "income" = true /\ String.eqb ty "expense" = false)
  \/ (String.eqb ty "income" = false /\ String.eqb ty "expense" = true).
Proof.
  unfold is_cash_type. intros H. apply orb_true_iff in H.
  destruct H as [H|H]; pose proof H as H'; apply String.eqb_eq in H'; subst ty;
    [left|right]; split; reflexivity.
Qed.

Lemma not_cash_type (ty : string) :
  is_cash_type ty = false ->
  String.eqb ty "income" = false /\ String.eqb ty "expense" = false.
Proof.
  unfold is_cash_type. intros H. now apply orb_false_iff in H.
Qed.

Lemma step_bucket (user : Z) (d : list ((Z * Z) * (R * R))) (t : Transaction)
  (k : Z * Z) :
  t_user_id t = user ->
  fst (bucket_of (cashflow_step d t) k)
    = fst (bucket_of d k) + month_amount "income" user k [t]
  /\ snd (bucket_of (cashflow_step d t) k)
    = snd (bucket_of d k) + month_amount "expense" user k [t].
Proof.
  intros Hu. rewrite cashflow_step_unfold. cbn [month_amount].
  rewrite Hu, Z.eqb_refl. cbn [andb].
  destruct (is_cash_type (t_type t)) eqn:Ec; cbn [negb].
  - cbv zeta.
    destruct (cash_type_cases _ Ec) as [[Hi He]|[Hi He]]; rewrite Hi, He;
      cbn [andb]; rewrite bucket_of_set;
      destruct (ym_eqb (month_of t) k) eqn:Ek;
      try (apply ym_eqb_eq in Ek; subst k);
      rewrite ?bucket_of_ensured; cbn [fst snd]; split; lra.
  - destruct (not_cash_type _ Ec) as [Hi He]. rewrite Hi, He. cbn [andb].
    split; lra.
Qed.

Lemma month_amount_cons (ty : string) (user : Z) (k : Z * Z) (t : Transaction)
  (l : list Transaction) :
  month_amount ty user k (t :: l)
  = month_amount ty user k [t] + month_amount ty user k l.
Proof.
  cbn [month_amount].
  destruct ((t_user_id t =? user)%Z && String.eqb (t_type t) ty
            && ym_eqb (month_of t) k)%bool; lra.
Qed.

Lemma fold_bucket (user : Z) (l : list Transaction) :
  Forall (fun t => t_user_id t = user) l ->
  forall (d : list ((Z * Z) * (R * R))) (k : Z * Z),
    fst (bucket_of (fold_left cashflow_step l d) k)
      = fst (bucket_of d k) + month_amount "income" user k l
    /\ snd (bucket_of (fold_left cashflow_step l d) k)
      = snd (bucket_of d k) + month_amount "expense" user k l.
Proof.
  induction 1 as [|t l Ht _ IH]; intros d k.
  - simpl. split; lra.
  - cbn [fold_left]. destruct (IH (cashflow_step d t) k) as [H1 H2].
    destruct (step_bucket user d t k Ht) as [H3 H4].
    rewrite H1, H2, H3, H4.
    rewrite (month_amount_cons "income" user k t l),
            (month_amount_cons "expense" user k t l).
    split; lra.
Qed.

Lemma step_keys (d : list ((Z * Z) * (R * R))) (t : Transaction) (k : Z * Z) :
  In k (dict_keys (cashflow_step d t))
  <-> In k (dict_keys d) \/ (is_cash_type (t_type t) = true /\ month_of t = k).
Proof.
  rewrite cashflow_step_unfold.
  destruct (is_cash_type (t_type t)) eqn:Ec; cbn [negb].
  - cbv zeta. destruct (String.eqb (t_type t) "income");
      rewrite (dict_keys_set_in ym_eqb ym_eqb_eq), keys_ensured;
      (split; intros H;
       [destruct H as [H|[H|H]]; auto|destruct H as [H|[_ H]]; auto]).
  - split; [tauto|]. intros [H|[H _]]; [exact H|discriminate].
Qed.

Lemma step_NoDup (d : list ((Z * Z) * (R * R))) (t : Transaction) :
  NoDup (dict_keys d) -> NoDup (dict_keys (cashflow_step d t)).
Proof.
  intros H. rewrite cashflow_step_unfold.
  destruct (negb (is_cash_type (t_type t))); [exact H|].
  cbv zeta. destruct (String.eqb (t_type t) "income");
    apply (dict_set_NoDup ym_eqb ym_eqb_eq), NoDup_ensured, H.
Qed.

Lemma fold_keys (l : list Transaction) :
  forall (d : list ((Z * Z) * (R * R))) (k : Z * Z),
    In k (dict_keys (fold_left cashflow_step l d))
    <-> In k (dict_keys d)
        \/ exists t, In t l /\ is_cash_type (t_type t) = true /\ month_of t = k.
Proof.
  induction l as [|t l IH]; intros d k; cbn [fold_left].
  - split; [tauto|]. intros [H|[t [[] _]]]. exact H.
  - rewrite IH, step_keys. split.
    + intros [[H|[H1 H2]]|[t' [H1 H2]]]; [now left| |].
      * right. exists t. split; [now left|auto].
      * right. exists t'. split; [now right|auto].
    + intros [H|[t' [[->|H1] H2]]]; [tauto|tauto|].
      right. exists t'. auto.
Qed.

Lemma fold_NoDup (l : list Transaction) :
  forall d : list ((Z * Z) * (R * R)),
    NoDup (dict_keys d) -> NoDup (dict_keys (fold_left cashflow_step l d)).
Proof.
  induction l as [|t l IH]; intros d H; cbn [fold_left]; [exact H|].
  apply IH, step_NoDup, H.
Qed.

End CashflowFacts.

Module CashflowOrder.

Import CashflowFacts.

Local Open Scope R_scope.

Lemma month_amount_perm (ty : string) (user : Z) (k : Z * Z)
  (l l' : list Transaction) :
  Permutation l l' -> month_amount ty user k l = month_amount ty user k l'.
Proof.
  induction 1 as [|t l l' _ IH|t t' l|l l' l'' _ IH1 _ IH2].
  - reflexivity.
  - rewrite (month_amount_cons ty user k t l), (month_amount_cons ty user k t l').
    now rewrite IH.
  - rewrite (month_amount_cons ty user k t' (t :: l)),
            (month_amount_cons ty user k t l),
            (month_amount_cons ty user k t (t' :: l)),
            (month_amount_cons ty user k t' l).
    lra.
  - now rewrite IH1.
Qed.

Lemma month_amount_user_filter (ty : string) (user : Z) (k : Z * Z)
  (l : list Transaction) :
  month_amount ty user k (filter (fun t => (t_user_id t =? user)%Z) l)
  = month_amount ty user k l.
Proof.
  induction l as [|t l IH]; [reflexivity|].
  cbn [filter month_amount].
  destruct (t_user_id t =? user)%Z eqn:E; cbn [andb]; [|exact IH].
  cbn [month_amount]. rewrite E, IH. reflexivity.
Qed.

Lemma orm_rows_of_user (w : World) (session : Session) (user : Z) :
  map (orm_read w) (filter (fun t => (t_user_id t =? user)%Z) session)
  = filter (fun t => (t_user_id t =? user)%Z) (orm_rows w session).
Proof.
  unfold orm_rows. induction session as [|t session IH]; [reflexivity|].
  cbn [filter map]. change (t_user_id (orm_read w t)) with (t_user_id t).
  destruct (t_user_id t =? user)%Z; cbn [map]; now rewrite IH.
Qed.

Lemma list_transactions_perm (w : World) (session : Session) (user : Z) :
  Permutation (list_transactions w session (Some user))
              (filter (fun t => (t_user_id t =? user)%Z) (orm_rows w session)).
Proof.
  unfold list_transactions, select_transactions.
  rewrite <- orm_rows_of_user. apply Permutation_map, sorted_perm.
Qed.

Lemma list_transactions_user (w : World) (session : Session) (user : Z) :
  Forall (fun t => t_user_id t = user) (list_transactions w session (Some user)).
Proof.
  eapply Permutation_Forall; [symmetry; apply list_transactions_perm|].
  apply Forall_forall. intros t Ht.
  apply (proj1 (filter_In _ _ _)) in Ht. now apply Z.eqb_eq.
Qed.

Lemma sorted_keys_strict (keys : list (Z * Z)) :
  NoDup keys ->
  StronglySorted ym_lt (sorted (fun k => k) pair_leb keys).
Proof.
  intros Hnd.
  assert (Hs : StronglySorted (key_le (fun k : Z * Z => k) pair_leb)
                 (sorted (fun k => k) pair_leb keys))
    by (apply sorted_sorted; [apply pair_leb_total|apply pair_leb_trans]).
  assert (Hn : NoDup (sorted (fun k : Z * Z => k) pair_leb keys))
    by (eapply Permutation_NoDup; [symmetry; apply sorted_perm|exact Hnd]).
  induction Hs as [|a l Hl IH Ha]; constructor.
  - apply IH. now inversion Hn.
  - inversion Hn as [|? ? Hnin _]; subst.
    rewrite Forall_forall in *. intros b Hb.
    pose proof (Ha b Hb) as Hab. unfold key_le in Hab.
    apply pair_leb_spec in Hab. unfold ym_lt.
    destruct a as [a1 a2], b as [b1 b2]; simpl in *.
    assert ((a1, a2) <> (b1, b2)) by (intros E; rewrite E in Hnin; contradiction).
    destruct Hab as [Hab|[Hab1 Hab2]]; [now left|right].
    split; [exact Hab1|]. subst b1.
    assert (a2 <> b2) by congruence. lia.
Qed.

Lemma cashflow_unfold (w : World) (session : Session) (user : Z) :
  cashflow w session user
  = let monthly :=
      fold_left cashflow_step (list_transactions w session (Some user)) [] in
    map (cashflow_point monthly)
        (sorted (fun k => k) pair_leb (dict_keys monthly)).
Proof.
  unfold cashflow. now destruct (list_transactions w session (Some user)).
Qed.

End CashflowOrder.

Import CashflowFacts CashflowOrder.

(** C7. The monthly cashflow of a user has one point per calendar month in
    which an income or expense transaction of the user falls, and no other
    point (months without one are omitted, trades and transfers open no
    month); the points come in strictly ascending [(year, month)] order; the
    point of a month carries the sum of the income amounts and the sum of
    the expense amounts of that month, and their difference as [net]; and
    the empty ledger yields the empty sequence. The transactions are those
    the listing returns, [orm_rows]: the rows of the ledger with their
    amounts as the ORM reads them. *)
Theorem cashflow_monthly_buckets :
  forall (w : World) (session : Session) (user : Z),
    let rows := orm_rows w session in
    exists months : list (Z * Z),
      cashflow w session user
      = map (fun k =>
               mkCashflowPoint
                 (ymd2ord (fst k) (snd k) 1)
                 (month_amount "income" user k rows)
                 (month_amount "expense" user k rows)
                 (month_amount "income" user k rows
                  - month_amount "expense" user k rows)%R)
            months
      /\ StronglySorted ym_lt months
      /\ (forall k, In k months <->
                    exists t, In t rows /\ t_user_id t = user
                              /\ is_cash_type (t_type t) = true
                              /\ month_of t = k)
      /\ cashflow w [] user = [].
Proof.
  intros w session user rows.
  set (txns := list_transactions w session (Some user)).
  set (monthly := fold_left cashflow_step txns []).
  exists (sorted (fun k => k) pair_leb (dict_keys monthly)).
  assert (Hsum : forall ty k,
             month_amount ty user k txns = month_amount ty user k rows).
  { intros ty k. unfold txns.
    rewrite (month_amount_perm ty user k _ _
               (list_transactions_perm w session user)).
    apply month_amount_user_filter. }
  split; [|split; [|split]].
  - rewrite cashflow_unfold. fold txns. fold monthly. cbv zeta.
    apply map_ext. intros k. unfold cashflow_point.
    destruct (fold_bucket user txns (list_transactions_user w session user) [] k)
      as [H1 H2].
    fold monthly in H1, H2. rewrite !Hsum in *.
    unfold bucket_of at 2 in H1. unfold bucket_of at 2 in H2. simpl in H1, H2.
    f_equal; lra.
  - apply sorted_keys_strict. apply fold_NoDup. constructor.
  - intros k. split.
    + intros Hk.
      apply (Permutation_in _ (sorted_perm (fun k => k) pair_leb _)) in Hk.
      apply (proj1 (fold_keys txns [] k)) in Hk.
      destruct Hk as [[]|[t [Ht [Hc Hm]]]].
      apply (Permutation_in _ (list_transactions_perm w session user)) in Ht.
      apply (proj1 (filter_In _ _ _)) in Ht. destruct Ht as [Ht Hu].
      exists t. repeat split; auto. now apply Z.eqb_eq.
    + intros [t [Ht [Hu [Hc Hm]]]].
      apply (Permutation_in _ (Permutation_sym (sorted_perm (fun k => k) pair_leb _))).
      apply (proj2 (fold_keys txns [] k)). right. exists t.
      repeat split; auto.
      apply (Permutation_in
               _ (Permutation_sym (list_transactions_perm w session user))).
      apply (proj2 (filter_In _ _ _)). split; [exact Ht|now apply Z.eqb_eq].
  - reflexivity.
Qed.

(* ================================================================== *)
(** * The price history provider                                      *)
(* ================================================================== *)

Module MarketFacts.

(** ** Calendar loops *)

Lemma date_add_one_ok (cur : date) :
  0 <= cur < MAXORD -> date_add_days cur 1 = Ok (cur + 1).
Proof.
  intros H. unfold date_add_days, MINORD, MAXORD in *. cbv zeta.
  destruct (Z.leb_spec 1 (cur + 1)); [|lia].
  destruct (Z.leb_spec (cur + 1) 3652059); [reflexivity|lia].
Qed.

Lemma date_add_one_overflow : date_add_days MAXORD 1 = Raise OverflowError.
Proof. reflexivity. Qed.

Lemma date_sub_ok (d : date) (k : Z) :
  MINORD <= d - k <= MAXORD -> date_sub_days d k = Ok (d - k).
Proof.
  intros H. unfold date_sub_days, date_add_days, MINORD, MAXORD in *.
  cbv zeta. replace (d + - k) with (d - k) by lia.
  destruct (Z.leb_spec 1 (d - k)); [|lia].
  destruct (Z.leb_spec (d - k) 3652059); [reflexivity|lia].
Qed.

Lemma date_sub_overflow (d : date) (k : Z) :
  d - k < MINORD -> date_sub_days d k = Raise OverflowError.
Proof.
  intros H. unfold date_sub_days, date_add_days, MINORD in *.
  cbv zeta. replace (d + - k) with (d - k) by lia.
  destruct (Z.leb_spec 1 (d - k)); [lia|reflexivity].
Qed.

Lemma days_from_S (cur : date) (n : nat) :
  days_from cur (S n) = cur :: days_from (cur + 1) n.
Proof.
  unfold days_from. cbn [seq map].
  replace (cur + Z.of_nat 0) with cur by (simpl; lia).
  apply f_equal.
  rewrite <- seq_shift, map_map. apply map_ext. intros i. lia.
Qed.

Lemma days_from_length (cur : date) (n : nat) :
  List.length (days_from cur n) = n.
Proof. unfold days_from. now rewrite length_map, length_seq. Qed.

Lemma daterange_loop_ok (fuel : nat) :
  forall cur end_,
    0 <= cur -> end_ < MAXORD -> fuel = Z.to_nat (end_ - cur + 1) ->
    daterange_loop fuel cur end_ = Ok (days_from cur fuel).
Proof.
  induction fuel as [|fuel IH]; intros cur end_ H0 Hmax Hfuel; [reflexivity|].
  cbn [daterange_loop].
  destruct (Z.leb_spec cur end_); [|lia].
  rewrite date_add_one_ok by lia. cbn [rbind].
  rewrite (IH (cur + 1) end_) by lia. cbn [rbind].
  now rewrite days_from_S.
Qed.

Lemma daterange_loop_overflow (fuel : nat) :
  forall cur,
    0 <= cur <= MAXORD -> fuel = Z.to_nat (MAXORD - cur + 1) ->
    daterange_loop fuel cur MAXORD = Raise OverflowError.
Proof.
  induction fuel as [|fuel IH]; intros cur Hc Hfuel; [lia|].
  cbn [daterange_loop].
  destruct (Z.leb_spec cur MAXORD); [|lia].
  destruct (Z.eq_dec cur MAXORD) as [->|Hne].
  - now rewrite date_add_one_overflow.
  - rewrite date_add_one_ok by lia. cbn [rbind].
    rewrite (IH (cur + 1)) by lia. reflexivity.
Qed.

Lemma daterange_ok (start end_ : date) :
  0 <= start -> end_ < MAXORD ->
  daterange start end_ = Ok (days_from start (Z.to_nat (end_ - start + 1))).
Proof. intros. now apply daterange_loop_ok. Qed.

Lemma daterange_overflow (start : date) :
  0 <= start <= MAXORD -> daterange start MAXORD = Raise OverflowError.
Proof. intros. now apply daterange_loop_overflow. Qed.

Lemma daterange_empty (start end_ : date) :
  end_ < start -> daterange start end_ = Ok [].
Proof.
  intros H. unfold daterange.
  replace (Z.to_nat (end_ - start + 1)) with O by lia. reflexivity.
Qed.

(** The loop equation of [daterange]: the fuel of [daterange_loop] is the
    number of iterations the [while] runs. *)
Lemma daterange_unfold (start end_ : date) :
  daterange start end_ =
  if start <=? end_ then
    cur' <-? date_add_days start 1 ;;
    res <-? daterange cur' end_ ;;
    Ok (start :: res)
  else Ok [].
Proof.
  unfold daterange. destruct (Z.leb_spec start end_) as [H|H].
  - replace (Z.to_nat (end_ - start + 1))
      with (S (Z.to_nat (end_ - (start + 1) + 1))) by lia.
    cbn [daterange_loop]. destruct (Z.leb_spec start end_); [|lia].
    unfold date_add_days. cbv zeta.
    destruct ((MINORD <=? start + 1) && (start + 1 <=? MAXORD)); reflexivity.
  - replace (Z.to_nat (end_ - start + 1)) with O by lia. reflexivity.
Qed.

Lemma date_range_is_daterange (start end_ : date) :
  date_range start end_ = daterange start end_.
Proof.
  unfold date_range, daterange.
  generalize (Z.to_nat (end_ - start + 1)) as fuel. intros fuel. revert start.
  induction fuel as [|fuel IH]; intros start; [reflexivity|].
  cbn [date_range_loop daterange_loop].
  destruct (start <=? end_); [|reflexivity].
  destruct (date_add_days start 1) as [cur'|e]; [|reflexivity].
  cbn [rbind]. now rewrite IH.
Qed.

(** ** The fallback series *)

(** With a mean and a deviation of at most 1 every shock lies, by the bound
    on the variates, well within the range of [math.exp]. *)
Lemma small_shock_in_range (w : World) (mean std : R) (k : nat) :
  (-1 <= mean <= 1)%R -> (0 <= std <= 1)%R ->
  (EXP_MIN <= shock_at w mean std k <= EXP_MAX)%R.
Proof.
  intros Hm Hs. unfold shock_at.
  pose proof (variate_bound w k) as Hz. pose proof EXP_bounds as Hb.
  assert (-9 <= normal_variate w k * std <= 9)%R by nra.
  lra.
Qed.

Lemma sqrt_fraction (x : R) : (0 <= x <= 1)%R -> (0 <= sqrt x <= 1)%R.
Proof.
  intros H. split; [apply sqrt_pos|].
  rewrite <- sqrt_1. apply sqrt_le_1_alt. lra.
Qed.

(** The shocks of [simulate_gbm] at its default drift and volatility. *)
Lemma fallback_shock_in_range (w : World) (k : nat) :
  (EXP_MIN
   <= shock_at w ((0.07 - 0.5 * 0.2 * 0.2) * (1.0 / 252.0))
                 (0.2 * sqrt (1.0 / 252.0)) k
   <= EXP_MAX)%R.
Proof.
  apply small_shock_in_range; [lra|].
  pose proof (sqrt_fraction (1.0 / 252.0)) as H. lra.
Qed.

Lemma gbm_steps_total (w : World) (mean std : R) (dates : list date) :
  (forall k, (shock_at w mean std k <= EXP_MAX)%R) ->
  forall (price : R) (s : state),
    exists series s',
      gbm_steps w mean std price dates s = (Ok series, s')
      /\ map r_date series = dates
      /\ net_pos s' = net_pos s.
Proof.
  intros Hr. induction dates as [|d dates IH]; intros price s.
  - exists [], s. auto.
  - cbn [gbm_steps]. unfold bind at 1. unfold gauss at 1.
    unfold bind at 1. unfold lift at 1.
    rewrite math_exp_ok by apply (Hr (rng_pos s)).
    set (s1 := mkState (S (rng_pos s)) (net_pos s)).
    set (price' := (price * exp_value (mean + normal_variate w (rng_pos s) * std))%R).
    destruct (IH price' s1) as [series [s' [H1 [H2 H3]]]].
    exists (mkRow d price' :: series), s'.
    unfold bind. rewrite H1. unfold ret. cbn [map r_date].
    rewrite H2. auto.
Qed.

Lemma fallback_series_ok (w : World) (start end_ : date) (dates : list date)
  (s : state) :
  daterange start end_ = Ok dates ->
  exists series s',
    fallback_series w start end_ s = (Ok series, s')
    /\ map r_date series = dates
    /\ net_pos s' = net_pos s.
Proof.
  intros Hd. unfold fallback_series, simulate_gbm, bind, lift. rewrite Hd.
  destruct dates as [|d0 dates].
  - exists [], s. auto.
  - cbv zeta.
    match goal with
    | |- context [gbm_steps w ?m ?sd ?p dates s] =>
        destruct (gbm_steps_total
                    w m sd dates
                    (fun k => proj2 (fallback_shock_in_range w k)) p s)
          as [series [s' [H1 [H2 H3]]]];
        rewrite H1
    end.
    exists (mkRow d0 100.0%R :: series), s'. unfold ret. cbn [map r_date].
    rewrite H2. auto.
Qed.

Lemma fallback_series_raise (w : World) (start end_ : date) (e : exn) (s : state) :
  daterange start end_ = Raise e ->
  fallback_series w start end_ s = (Raise e, s).
Proof.
  intros Hd. unfold fallback_series, simulate_gbm, bind, lift. now rewrite Hd.
Qed.

(** ** One symbol *)

Lemma symbol_series_eq (w : World) (sym : string) (start end_ : date) (s : state) :
  symbol_series w sym start end_ s =
  match retrieved w sym start end_ s with
  | [] => fallback_series w start end_ (after_fetch w sym s)
  | series => (Ok series, after_fetch w sym s)
  end.
Proof.
  unfold symbol_series, retrieved, after_fetch, try_except, bind.
  destruct (fetch_stooq_history w sym s) as [[rows|e] s1]; cbn [snd]; [|reflexivity].
  destruct (filter _ rows) as [|r series]; [|reflexivity].
  destruct (daterange start end_) as [dates|e] eqn:Hd.
  - destruct (fallback_series_ok w start end_ dates s1 Hd) as [sr [s' [H _]]].
    now rewrite H.
  - now rewrite !(fallback_series_raise w start end_ e s1 Hd).
Qed.

Lemma symbol_series_total (w : World) (sym : string) (start end_ : date)
  (dates : list date) (s : state) :
  daterange start end_ = Ok dates ->
  exists series s', symbol_series w sym start end_ s = (Ok series, s').
Proof.
  intros Hd. rewrite symbol_series_eq.
  destruct (retrieved w sym start end_ s) as [|r series].
  - destruct (fallback_series_ok w start end_ dates (after_fetch w sym s) Hd)
      as [sr [s' [H _]]]. eauto.
  - eauto.
Qed.

(** ** All symbols *)

Lemma price_history_loop_total (w : World) (start end_ : date)
  (dates : list date) (symbols : list string) :
  daterange start end_ = Ok dates ->
  forall (results : list (string * list row)) (s : state),
    exists results' s',
      price_history_loop w symbols start end_ results s = (Ok results', s')
      /\ (forall sym, In sym symbols ->
            exists s1 series s2,
              symbol_series w sym start end_ s1 = (Ok series, s2)
              /\ dict_get String.eqb results' sym = Some series)
      /\ (forall sym, ~ In sym symbols ->
            dict_get String.eqb results' sym = dict_get String.eqb results sym).
Proof.
  intros Hd. induction symbols as [|sym0 symbols IH]; intros results s.
  - exists results, s. split; [reflexivity|]. split; [intros ? []|auto].
  - cbn [price_history_loop]. unfold bind at 1.
    destruct (symbol_series_total w sym0 start end_ dates s Hd)
      as [series0 [s1 H0]]. rewrite H0.
    destruct (IH (dict_set String.eqb results sym0 series0) s1)
      as [results' [s' [H1 [H2 H3]]]].
    exists results', s'. split; [exact H1|]. split.
    + intros sym Hin.
      destruct (in_dec string_dec sym symbols) as [Hi|Hni]; [now apply H2|].
      destruct Hin as [->|Hin]; [|contradiction].
      exists s, series0, s1. split; [exact H0|].
      rewrite (H3 sym Hni), (dict_get_set String.eqb string_eqb_eq).
      now rewrite String.eqb_refl.
    + intros sym Hni. rewrite H3 by (intros Hin; apply Hni; now right).
      rewrite (dict_get_set String.eqb string_eqb_eq).
      destruct (String.eqb_spec sym0 sym) as [->|]; [|reflexivity].
      exfalso. apply Hni. now left.
Qed.

(** Away from the last representable day the provider always returns, and
    the entry of every symbol is the series of that symbol alone: its own
    retrieved rows, or a fallback series when it retrieved nothing. *)
Lemma get_price_history_total (w : World) (symbols : list string)
  (start end_ : date) (s : state) :
  0 <= start -> end_ < MAXORD ->
  exists results s',
    get_price_history w symbols start end_ s = (Ok results, s')
    /\ (forall sym, In sym symbols ->
          exists s1 series s2,
            symbol_series w sym start end_ s1 = (Ok series, s2)
            /\ dict_get String.eqb results sym = Some series)
    /\ (forall sym, ~ In sym symbols -> dict_get String.eqb results sym = None).
Proof.
  intros H0 Hmax. unfold get_price_history.
  destruct (price_history_loop_total w start end_ _ symbols
              (daterange_ok start end_ H0 Hmax) [] s)
    as [results [s' [H1 [H2 H3]]]].
  exists results, s'. split; [exact H1|]. split; [exact H2|].
  intros sym Hni. now rewrite H3.
Qed.

Lemma get_last_prices_total (w : World) (symbols : list string) (as_of : date)
  (s : state) :
  365 < as_of < MAXORD ->
  exists prices s', get_last_prices w symbols as_of s = (Ok prices, s').
Proof.
  intros H. unfold get_last_prices, bind, lift.
  rewrite date_sub_ok by (unfold MINORD, MAXORD in *; lia).
  destruct (get_price_history_total w symbols (as_of - 365) as_of s)
    as [results [s' [H1 _]]]; [lia|lia|].
  rewrite H1. unfold ret. eauto.
Qed.

Lemma get_last_prices_overflow (w : World) (symbols : list string) (as_of : date)
  (s : state) :
  as_of <= 365 ->
  get_last_prices w symbols as_of s = (Raise OverflowError, s).
Proof.
  intros H. unfold get_last_prices, bind, lift.
  rewrite date_sub_overflow by (unfold MINORD; lia). reflexivity.
Qed.

End MarketFacts.

Import MarketFacts.

Module OverflowFacts.

Lemma symbol_series_overflow (w : World) (sym : string) (start : date) (s : state) :
  0 <= start <= MAXORD ->
  retrieved w sym start MAXORD s = [] ->
  symbol_series w sym start MAXORD s = (Raise OverflowError, after_fetch w sym s).
Proof.
  intros Hs Hr. rewrite symbol_series_eq, Hr.
  apply fallback_series_raise. now apply daterange_overflow.
Qed.

Lemma get_price_history_overflow (w : World) (sym : string) (rest : list string)
  (start : date) (s : state) :
  0 <= start <= MAXORD ->
  retrieved w sym start MAXORD s = [] ->
  get_price_history w (sym :: rest) start MAXORD s
  = (Raise OverflowError, after_fetch w sym s).
Proof.
  intros Hs Hr. unfold get_price_history. cbn [price_history_loop].
  unfold bind. now rewrite symbol_series_overflow.
Qed.

Lemma offline_retrieves_nothing (sym : string) (start end_ : date) (s : state) :
  retrieved offline sym start end_ s = []
  /\ after_fetch offline sym s = mkState (rng_pos s) (S (net_pos s)).
Proof. split; reflexivity. Qed.

End OverflowFacts.

Import OverflowFacts.

(** C2, at a failing input. For the year that ends on the last representable
    day, 9999-12-31, and a symbol whose retrieval fails (here: the request
    raises), the provider raises [OverflowError] to its caller instead of
    returning a fallback series, and the symbols after it are never
    attempted: building the fallback, [daterange] steps past the last day,
    and the [except] clause runs the same fallback again. *)
Theorem get_price_history_raises_on_last_day :
  retrieved offline "AAPL" (MAXORD - 365) MAXORD s0 = []
  /\ get_price_history offline ["AAPL"; "MSFT"]%string (MAXORD - 365) MAXORD s0
     = (Raise OverflowError, mkState 0 1).
Proof.
  split; [reflexivity|].
  rewrite get_price_history_overflow.
  - reflexivity.
  - unfold MAXORD. lia.
  - reflexivity.
Qed.

(* ================================================================== *)
(** * The valuation series                                             *)
(* ================================================================== *)

Module ValuationFacts.

Lemma portfolio_value_no_positions (w : World) (session : Session) (user : Z)
  (as_of : option date) (s : state) :
  get_positions w session user = [] ->
  portfolio_value w session user as_of s
  = (Ok [mkPortfolioValuePoint (as_of_or_today w as_of)
                               (get_cash_balance w session user)], s).
Proof. intros H. unfold portfolio_value. now rewrite H. Qed.

Lemma portfolio_value_window (w : World) (session : Session) (user : Z)
  (as_of : option date) (s : state) :
  get_positions w session user <> [] ->
  365 < as_of_or_today w as_of < MAXORD ->
  exists points s',
    portfolio_value w session user as_of s = (Ok points, s')
    /\ map pv_date points = days_from (as_of_or_today w as_of - 365) 366.
Proof.
  intros Hp Hd. unfold portfolio_value.
  set (day := as_of_or_today w as_of) in *.
  destruct (get_positions w session user) as [|p ps] eqn:E; [congruence|].
  unfold bind, lift.
  rewrite date_sub_ok by (unfold MINORD, MAXORD in *; lia).
  destruct (get_price_history_total w (dict_keys (p :: ps)) (day - 365) day s)
    as [history [s' [H1 _]]]; [lia|lia|].
  rewrite H1, date_range_is_daterange, daterange_ok by lia.
  replace (Z.to_nat (day - (day - 365) + 1)) with 366%nat by lia.
  eexists _, s'. unfold ret. split; [reflexivity|].
  rewrite map_map. cbn [pv_date]. apply map_id.
Qed.

Lemma portfolio_value_overflow (w : World) (session : Session) (user : Z)
  (as_of : option date) (s : state) :
  get_positions w session user <> [] ->
  as_of_or_today w as_of <= 365 ->
  portfolio_value w session user as_of s = (Raise OverflowError, s).
Proof.
  intros Hp Hd. unfold portfolio_value.
  destruct (get_positions w session user) as [|p ps] eqn:E; [congruence|].
  unfold bind, lift. rewrite date_sub_overflow by (unfold MINORD; lia).
  reflexivity.
Qed.

Lemma sample_positions_nonempty (w : World) :
  get_positions w ledger_with_trade 1 <> [].
Proof.
  intros E.
  pose proof (get_positions_lookup w ledger_with_trade 1 "AAPL") as H.
  rewrite E in H. discriminate H.
Qed.

End ValuationFacts.

Import ValuationFacts.




(* ================================================================== *)
(** * The allocation calculator                                        *)
(* ================================================================== *)

Module AllocationFacts.

Lemma allocation_loop (positions prices : list (string * R))
  (symbols : list string) :
  forall parts : list AllocationSlice,
    fold_left (allocation_step positions prices) symbols parts
    = parts ++ symbol_slices positions prices symbols.
Proof.
  unfold symbol_slices.
  induction symbols as [|sym symbols IH]; intros parts; cbn [fold_left filter].
  - now rewrite app_nil_r.
  - rewrite IH. unfold allocation_step. fold (holding_value positions prices sym).
    destruct (Rltb 0 (holding_value positions prices sym)); [|reflexivity].
    cbn [map]. now rewrite <- app_assoc.
Qed.

Lemma allocation_no_symbols (w : World) (session : Session) (user : Z)
  (as_of : option date) (s : state) :
  get_positions w session user = [] ->
  allocation w session user as_of s
  = (Ok (cash_slice (get_cash_balance w session user)), s).
Proof.
  intros H. unfold allocation. rewrite H. cbn [dict_keys map].
  unfold bind, ret. cbn [fold_left]. reflexivity.
Qed.

Lemma allocation_with_prices (w : World) (session : Session) (user : Z)
  (as_of : option date) (s s' : state) (prices : list (string * R)) :
  get_positions w session user <> [] ->
  get_last_prices w (dict_keys (get_positions w session user))
                  (as_of_or_today w as_of) s = (Ok prices, s') ->
  allocation w session user as_of s
  = (Ok (cash_slice (get_cash_balance w session user)
         ++ symbol_slices (get_positions w session user) prices
                          (dict_keys (get_positions w session user))), s').
Proof.
  intros Hp Hl. unfold allocation.
  destruct (dict_keys (get_positions w session user)) as [|k ks] eqn:E.
  - destruct (get_positions w session user); [congruence|discriminate E].
  - unfold bind. rewrite Hl. unfold ret. now rewrite allocation_loop.
Qed.

Lemma allocation_overflow (w : World) (session : Session) (user : Z)
  (as_of : option date) (s : state) :
  get_positions w session user <> [] ->
  as_of_or_today w as_of <= 365 ->
  allocation w session user as_of s = (Raise OverflowError, s).
Proof.
  intros Hp Hd. unfold allocation.
  destruct (dict_keys (get_positions w session user)) as [|k ks] eqn:E.
  - destruct (get_positions w session user); [congruence|discriminate E].
  - unfold bind. now rewrite get_last_prices_overflow.
Qed.

Lemma sample_cash_positive (w : World) :
  (0 < get_cash_balance w ledger_with_trade 1)%R.
Proof.
  rewrite cash_balance_cents.
  - simpl. lra.
  - intros t [<-|[<-|[<-|[]]]] _ _; apply decimals_IZR.
Qed.

End AllocationFacts.

Import AllocationFacts.




(* ================================================================== *)
(** * The Monte Carlo projector                                        *)
(* ================================================================== *)

Module PathFacts.

Local Open Scope R_scope.

Lemma shocks_in_range_step (w : World) (means stds : R) (k m : nat) :
  shocks_in_range w means stds k (S m)
  <-> shock_at w means stds k <= EXP_MAX
      /\ shocks_in_range w means stds (S k) m.
Proof.
  unfold shocks_in_range. split.
  - intros H. split; [apply H; lia|]. intros j Hj. apply H. lia.
  - intros [H0 H] j Hj. destruct (Nat.eq_dec j k) as [->|Hne]; [exact H0|].
    apply H. lia.
Qed.

Lemma shocks_in_range_app (w : World) (means stds : R) (k m m' : nat) :
  shocks_in_range w means stds k (m + m')
  <-> shocks_in_range w means stds k m
      /\ shocks_in_range w means stds (k + m) m'.
Proof.
  unfold shocks_in_range. split.
  - intros H. split; intros j Hj; apply H; lia.
  - intros [H1 H2] j Hj. destruct (Nat.lt_ge_cases j (k + m)).
    + apply H1. lia.
    + apply H2. lia.
Qed.

Lemma shocks_in_range_dec (w : World) (means stds : R) (m : nat) :
  forall k, shocks_in_range w means stds k m
            \/ ~ shocks_in_range w means stds k m.
Proof.
  induction m as [|m IH]; intros k.
  - left. intros j Hj. lia.
  - destruct (Rle_dec (shock_at w means stds k) EXP_MAX) as [H0|H0].
    + destruct (IH (S k)) as [H|H].
      * left. now apply shocks_in_range_step.
      * right. intros Hr. apply shocks_in_range_step in Hr. tauto.
    + right. intros Hr. apply shocks_in_range_step in Hr. tauto.
Qed.

(** A drift and a deviation of at most 1 a step keep every shock in range. *)
Lemma moderate_in_range (w : World) (params : MonteCarloParams) (s : state) :
  -1 <= means_of params <= 1 -> 0 <= stds_of params <= 1 ->
  simulation_in_range w params s.
Proof.
  intros Hm Hs j _. now apply small_shock_in_range.
Qed.

Lemma path_steps_run (w : World) (means stds : R) (n : nat) :
  forall (value : R) (s : state),
    shocks_in_range w means stds (rng_pos s) n ->
    path_steps w means stds n value s
    = (Ok (path_from w means stds n value (rng_pos s)),
       mkState (rng_pos s + n) (net_pos s)).
Proof.
  induction n as [|n IH]; intros value s Hr.
  - cbn [path_steps path_from]. unfold ret. destruct s as [r q]. cbn.
    now rewrite Nat.add_0_r.
  - apply shocks_in_range_step in Hr. destruct Hr as [H0 Hr].
    cbn [path_steps path_from]. unfold bind at 1. unfold gauss at 1.
    unfold bind at 1. unfold lift at 1. rewrite math_exp_ok by exact H0.
    unfold bind. rewrite IH by exact Hr. unfold ret. cbn [rng_pos net_pos].
    now rewrite Nat.add_succ_r.
Qed.

Lemma path_steps_raise (w : World) (means stds : R) (n : nat) :
  forall (value : R) (s : state),
    ~ shocks_in_range w means stds (rng_pos s) n ->
    exists s', path_steps w means stds n value s = (Raise OverflowError, s').
Proof.
  induction n as [|n IH]; intros value s Hr.
  - exfalso. apply Hr. intros j Hj. lia.
  - cbn [path_steps]. unfold bind at 1. unfold gauss at 1.
    unfold bind at 1. unfold lift at 1.
    destruct (Rle_dec (shock_at w means stds (rng_pos s)) EXP_MAX) as [H0|H0].
    + rewrite math_exp_ok by exact H0.
      set (s1 := mkState (S (rng_pos s)) (net_pos s)).
      destruct (IH (value * exp_value (means + normal_variate w (rng_pos s) * stds))
                   s1) as [s' Hs'].
      { intros H. apply Hr. apply shocks_in_range_step. now split. }
      exists s'. unfold bind. now rewrite Hs'.
    + rewrite math_exp_raise by (unfold shock_at in H0; lra). eauto.
Qed.

Lemma simulate_path_run (w : World) (initial means stds : R) (n : Z) (s : state) :
  shocks_in_range w means stds (rng_pos s) (Z.to_nat n) ->
  simulate_path w initial means stds n s
  = (Ok (initial :: path_from w means stds (Z.to_nat n) initial (rng_pos s)),
     mkState (rng_pos s + Z.to_nat n) (net_pos s)).
Proof.
  intros Hr. unfold simulate_path, bind. now rewrite path_steps_run.
Qed.

Lemma simulate_path_raise (w : World) (initial means stds : R) (n : Z)
  (s : state) :
  ~ shocks_in_range w means stds (rng_pos s) (Z.to_nat n) ->
  exists s', simulate_path w initial means stds n s = (Raise OverflowError, s').
Proof.
  intros Hr. unfold simulate_path, bind.
  destruct (path_steps_raise w means stds (Z.to_nat n) initial s Hr) as [s' H].
  exists s'. now rewrite H.
Qed.

Lemma replicate_paths_run (w : World) (initial means stds : R) (n : Z)
  (sims : nat) :
  forall s : state,
    shocks_in_range w means stds (rng_pos s) (sims * Z.to_nat n) ->
    replicateM sims (simulate_path w initial means stds n) s
    = (Ok (paths_from w initial means stds (Z.to_nat n) sims (rng_pos s)),
       mkState (rng_pos s + sims * Z.to_nat n) (net_pos s)).
Proof.
  induction sims as [|sims IH]; intros s Hr.
  - cbn [replicateM paths_from]. unfold ret. destruct s as [r q]. cbn.
    now rewrite Nat.add_0_r.
  - cbn [Nat.mul] in Hr. apply shocks_in_range_app in Hr.
    destruct Hr as [H0 Hr].
    cbn [replicateM paths_from]. unfold bind at 1.
    rewrite simulate_path_run by exact H0.
    unfold bind. rewrite IH by exact Hr. unfold ret. cbn [rng_pos net_pos].
    f_equal. f_equal. lia.
Qed.

Lemma replicate_paths_raise (w : World) (initial means stds : R) (n : Z)
  (sims : nat) :
  forall s : state,
    ~ shocks_in_range w means stds (rng_pos s) (sims * Z.to_nat n) ->
    exists s',
      replicateM sims (simulate_path w initial means stds n) s
      = (Raise OverflowError, s').
Proof.
  induction sims as [|sims IH]; intros s Hr.
  - exfalso. apply Hr. intros j Hj. cbn in Hj. lia.
  - cbn [replicateM]. unfold bind at 1.
    destruct (shocks_in_range_dec w means stds (Z.to_nat n) (rng_pos s))
      as [H0|H0].
    + rewrite simulate_path_run by exact H0.
      set (s1 := mkState (rng_pos s + Z.to_nat n) (net_pos s)).
      destruct (IH s1) as [s' Hs'].
      { intros H. apply Hr. cbn [Nat.mul]. apply shocks_in_range_app.
        now split. }
      exists s'. unfold bind. now rewrite Hs'.
    + destruct (simulate_path_raise w initial means stds n s H0) as [s' Hs'].
      exists s'. now rewrite Hs'.
Qed.

Lemma simulate_all_run (w : World) (initial : R) (params : MonteCarloParams)
  (s : state) :
  simulation_in_range w params s ->
  simulate_all w initial params s
  = (Ok (paths_from w initial (means_of params) (stds_of params)
                    (Z.to_nat (periods params))
                    (Z.to_nat (simulations params)) (rng_pos s)),
     mkState (rng_pos s
              + Z.to_nat (simulations params) * Z.to_nat (periods params))
             (net_pos s)).
Proof. unfold simulate_all. apply replicate_paths_run. Qed.

Lemma simulate_all_raise (w : World) (initial : R) (params : MonteCarloParams)
  (s : state) :
  ~ simulation_in_range w params s ->
  exists s', simulate_all w initial params s = (Raise OverflowError, s').
Proof. unfold simulate_all. apply replicate_paths_raise. Qed.

Lemma path_from_length (w : World) (means stds : R) (n : nat) :
  forall (value : R) (k : nat),
    List.length (path_from w means stds n value k) = n.
Proof.
  induction n as [|n IH]; intros value k; cbn [path_from List.length]; auto.
Qed.

Lemma paths_from_length (w : World) (initial means stds : R) (n sims : nat) :
  forall k, List.length (paths_from w initial means stds n sims k) = sims.
Proof.
  induction sims as [|sims IH]; intros k; cbn [paths_from List.length]; auto.
Qed.

Lemma paths_from_rows (w : World) (initial means stds : R) (n sims : nat) :
  forall k,
    Forall (fun path => List.length path = S n)
           (paths_from w initial means stds n sims k).
Proof.
  induction sims as [|sims IH]; intros k; cbn [paths_from]; constructor.
  - cbn [List.length]. now rewrite path_from_length.
  - apply IH.
Qed.

End PathFacts.

Module ColumnFacts.

Local Open Scope R_scope.

Lemma heads_rows (rows : list (list R)) (L : nat) :
  Forall (fun r => List.length r = S L) rows ->
  heads rows = Some (cross_section rows 0).
Proof.
  induction 1 as [|r rows Hr _ IH]; [reflexivity|].
  destruct r as [|x r]; [discriminate Hr|].
  cbn [heads cross_section map nth]. unfold cross_section in IH.
  now rewrite IH.
Qed.

Lemma nth_tl (r : list R) (t : nat) : nth t (tl r) 0 = nth (S t) r 0.
Proof. destruct r; [now destruct t|reflexivity]. Qed.

Lemma zip_star_n_columns (L : nat) :
  forall rows : list (list R),
    Forall (fun r => List.length r = L) rows ->
    zip_star_n L rows = map (cross_section rows) (seq 0 L).
Proof.
  induction L as [|L IH]; intros rows Hrows; [reflexivity|].
  cbn [zip_star_n]. rewrite (heads_rows rows L Hrows).
  rewrite IH.
  - cbn [seq map]. f_equal. rewrite <- seq_shift, map_map.
    apply map_ext. intros t. unfold cross_section. rewrite map_map.
    apply map_ext. intros r. apply nth_tl.
  - apply Forall_forall. intros r Hr. apply in_map_iff in Hr.
    destruct Hr as [r0 [<- Hr0]].
    rewrite Forall_forall in Hrows. specialize (Hrows r0 Hr0).
    destruct r0; [discriminate|]. cbn in *. lia.
Qed.

Lemma zip_star_columns (rows : list (list R)) (L : nat) :
  rows <> [] ->
  Forall (fun r => List.length r = L) rows ->
  zip_star rows = map (cross_section rows) (seq 0 L).
Proof.
  intros Hne Hrows. destruct rows as [|r rows]; [congruence|].
  unfold zip_star. inversion Hrows as [|? ? Hr _]; subst.
  now apply zip_star_n_columns.
Qed.

Lemma cross_section_length (rows : list (list R)) (t : nat) :
  List.length (cross_section rows t) = List.length rows.
Proof. unfold cross_section. apply length_map. Qed.

Lemma rmap_ok {A B : Type} (f : A -> result B) (g : A -> B) (l : list A) :
  (forall x, In x l -> f x = Ok (g x)) -> rmap f l = Ok (map g l).
Proof.
  induction l as [|x l IH]; intros H; [reflexivity|].
  cbn [rmap map]. rewrite (H x) by now left. cbn [rbind].
  rewrite IH by (intros y Hy; apply H; now right). reflexivity.
Qed.

Lemma py_index_ok (l : list R) (i : Z) :
  (0 <= i < Z.of_nat (List.length l))%Z ->
  py_index l i = Ok (nth (Z.to_nat i) l 0).
Proof.
  intros H. unfold py_index. cbv zeta.
  destruct (Z.ltb_spec i 0); [lia|].
  destruct (Z.leb_spec 0 i); [|lia].
  destruct (Z.ltb_spec i (Z.of_nat (List.length l))); [|lia].
  cbn [andb].
  destruct (nth_error l (Z.to_nat i)) as [x|] eqn:E.
  - now rewrite (nth_error_nth l (Z.to_nat i) 0 E).
  - apply nth_error_None in E. lia.
Qed.

(** ** The three indices *)

Lemma py_int_nonneg (x : R) : 0 <= x -> py_int x = Int_part x.
Proof. intros H. unfold py_int. destruct (Rle_dec 0 x); [reflexivity|lra]. Qed.

Lemma floor_tenth (k : Z) :
  (0 <= k)%Z -> Int_part (0.10 * IZR k) = (k / 10)%Z.
Proof.
  intros Hk. symmetry. apply Int_part_spec.
  pose proof (Z.div_mod k 10 ltac:(lia)) as Hdm.
  pose proof (Z.mod_pos_bound k 10 ltac:(lia)) as Hm.
  assert (H9 : (0 <= k mod 10 <= 9)%Z) by lia.
  apply (f_equal IZR) in Hdm. rewrite plus_IZR, mult_IZR in Hdm.
  destruct H9 as [Ha Hb]. apply IZR_le in Ha, Hb. lra.
Qed.

Lemma floor_nine_tenths (k : Z) :
  (0 <= k)%Z -> Int_part (0.90 * IZR k) = (9 * k / 10)%Z.
Proof.
  intros Hk. symmetry. apply Int_part_spec.
  pose proof (Z.div_mod (9 * k) 10 ltac:(lia)) as Hdm.
  pose proof (Z.mod_pos_bound (9 * k) 10 ltac:(lia)) as Hm.
  assert (H9 : (0 <= (9 * k) mod 10 <= 9)%Z) by lia.
  apply (f_equal IZR) in Hdm. rewrite plus_IZR, !mult_IZR in Hdm.
  destruct H9 as [Ha Hb]. apply IZR_le in Ha, Hb. lra.
Qed.

Lemma scaled_nonneg (c : R) (k : Z) : 0 <= c -> (0 <= k)%Z -> 0 <= c * IZR k.
Proof.
  intros Hc Hk. apply IZR_le in Hk. now apply Rmult_le_pos.
Qed.

(** The three picks on a column of [n >= 1] values. *)
Lemma picks_ok (col : list R) :
  (1 <= len col)%Z ->
  median_pick col
  = Ok (nth (Z.to_nat (len col / 2)) (sorted (fun x => x) Rleb col) 0)
  /\ p10_pick col
     = Ok (nth (Z.to_nat (Int_part (0.10 * IZR (len col - 1))))
               (sorted (fun x => x) Rleb col) 0)
  /\ p90_pick col
     = Ok (nth (Z.to_nat (Int_part (0.90 * IZR (len col - 1))))
               (sorted (fun x => x) Rleb col) 0).
Proof.
  intros Hn. unfold median_pick, p10_pick, p90_pick.
  assert (Hl : Z.of_nat (List.length (sorted (fun x => x) Rleb col)) = len col)
    by (unfold len; now rewrite sorted_length).
  rewrite !py_int_nonneg by (apply scaled_nonneg; [lra|lia]).
  rewrite floor_tenth, floor_nine_tenths by lia.
  rewrite Z.max_r by (apply Z.div_pos; lia).
  repeat split; apply py_index_ok; rewrite Hl;
    (split; [apply Z.div_pos; lia|apply Z.div_lt_upper_bound; lia]).
Qed.

End ColumnFacts.

Module BandFacts.

Import PathFacts ColumnFacts.

Local Open Scope R_scope.

Lemma simulate_bands_run (w : World) (initial : R) (params : MonteCarloParams)
  (s : state) :
  (1 <= simulations params)%Z ->
  simulation_in_range w params s ->
  let n := simulations params in
  let L := S (Z.to_nat (periods params)) in
  let paths :=
    paths_from w initial (means_of params) (stds_of params)
               (Z.to_nat (periods params)) (Z.to_nat n) (rng_pos s) in
  simulate_all w initial params s
  = (Ok paths,
     mkState (rng_pos s + Z.to_nat n * Z.to_nat (periods params)) (net_pos s))
  /\ simulate_bands w initial params s
     = (Ok (mkMonteCarloResult (band (median_index n) paths L)
                               (band (p10_index n) paths L)
                               (band (p90_index n) paths L)),
        mkState (rng_pos s + Z.to_nat n * Z.to_nat (periods params)) (net_pos s)).
Proof.
  intros Hn Hr n L paths.
  split; [now apply simulate_all_run|].
  unfold simulate_bands. unfold bind at 1. rewrite simulate_all_run by exact Hr.
  fold n. fold paths.
  assert (Hlen : List.length paths = Z.to_nat n)
    by apply paths_from_length.
  assert (Hne : paths <> []).
  { intros E. rewrite E in Hlen. cbn in Hlen. lia. }
  rewrite (zip_star_columns paths L Hne) by apply paths_from_rows.
  assert (Hcol : forall col,
             In col (map (cross_section paths) (seq 0 L)) -> len col = n).
  { intros col Hc. apply in_map_iff in Hc. destruct Hc as [t [<- _]].
    unfold len. rewrite cross_section_length, Hlen. lia. }
  assert (Hband : forall (f : list R -> result R) (idx : Z -> nat),
             (forall col, (1 <= len col)%Z ->
                f col = Ok (nth (idx (len col)) (sorted (fun x => x) Rleb col) 0)) ->
             rmap f (map (cross_section paths) (seq 0 L))
             = Ok (band (idx n) paths L)).
  { intros f idx Hf.
    rewrite (rmap_ok f (fun col => nth (idx n) (sorted (fun x => x) Rleb col) 0)).
    - unfold band. now rewrite map_map.
    - intros col Hc. rewrite Hf by (rewrite (Hcol col Hc); exact Hn).
      now rewrite (Hcol col Hc). }
  unfold bind, lift, ret.
  rewrite (Hband median_pick median_index) by (intros col H; apply picks_ok, H).
  rewrite (Hband p10_pick p10_index) by (intros col H; apply picks_ok, H).
  rewrite (Hband p90_pick p90_index) by (intros col H; apply picks_ok, H).
  reflexivity.
Qed.

(** A shock above the range of [math.exp] ends the simulation: the
    [OverflowError] of [math.exp] leaves [simulate_path] and the entry
    point. *)
Lemma simulate_bands_raise (w : World) (initial : R) (params : MonteCarloParams)
  (s : state) :
  ~ simulation_in_range w params s ->
  exists s', simulate_bands w initial params s = (Raise OverflowError, s').
Proof.
  intros Hr. destruct (simulate_all_raise w initial params s Hr) as [s' H].
  exists s'. unfold simulate_bands, bind. now rewrite H.
Qed.

(** Whenever the simulation returns, its shocks were in range. *)
Lemma simulate_bands_returns (w : World) (initial : R)
  (params : MonteCarloParams) (s s' : state) (res : MonteCarloResult) :
  simulate_bands w initial params s = (Ok res, s') ->
  simulation_in_range w params s.
Proof.
  intros H.
  destruct (shocks_in_range_dec w (means_of params) (stds_of params)
              (Z.to_nat (simulations params) * Z.to_nat (periods params))
              (rng_pos s)) as [Hr|Hr]; [exact Hr|].
  destruct (simulate_bands_raise w initial params s Hr) as [s1 H1].
  rewrite H1 in H. discriminate H.
Qed.

Lemma band_length (idx : nat) (paths : list (list R)) (L : nat) :
  List.length (band idx paths L) = L.
Proof. unfold band. now rewrite length_map, length_seq. Qed.

Lemma band_nth (idx : nat) (paths : list (list R)) (L t : nat) :
  (t < L)%nat -> nth t (band idx paths L) 0 = pick idx paths t.
Proof.
  intros Ht. unfold band.
  rewrite (nth_indep _ 0 (pick idx paths 0%nat))
    by (now rewrite length_map, length_seq).
  rewrite map_nth, seq_nth by exact Ht. reflexivity.
Qed.

Lemma index_bounds (n : Z) :
  (1 <= n)%Z ->
  (median_index n < Z.to_nat n)%nat
  /\ (p10_index n < Z.to_nat n)%nat
  /\ (p90_index n < Z.to_nat n)%nat
  /\ p10_index n = Z.to_nat ((n - 1) / 10)
  /\ p90_index n = Z.to_nat (9 * (n - 1) / 10).
Proof.
  intros Hn. unfold median_index, p10_index, p90_index.
  rewrite floor_tenth, floor_nine_tenths by lia.
  repeat split; try reflexivity;
    (apply Z2Nat.inj_lt; [apply Z.div_pos; lia|lia|];
     apply Z.div_lt_upper_bound; lia).
Qed.

Lemma sqrt_dt_fraction : 0 <= sqrt dt <= 1.
Proof. apply sqrt_fraction. unfold dt. lra. Qed.

Lemma three_paths_in_range (w : World) (s : state) :
  simulation_in_range w three_paths s.
Proof.
  pose proof sqrt_dt_fraction as H.
  apply moderate_in_range; unfold means_of, stds_of, three_paths;
    cbn [expected_return volatility]; [unfold dt|]; lra.
Qed.

Lemma two_paths_in_range (w : World) (s : state) :
  simulation_in_range w two_paths s.
Proof.
  pose proof sqrt_dt_fraction as H.
  apply moderate_in_range; unfold means_of, stds_of, two_paths;
    cbn [expected_return volatility]; [unfold dt|]; lra.
Qed.

End BandFacts.

Import PathFacts ColumnFacts BandFacts.



Module CalmFacts.

Local Open Scope R_scope.

Lemma path_from_calm (w : World) (means : R) (n : nat) :
  forall (value : R) (k : nat),
    path_from w means 0 n value k
    = map (fun t => value * exp_value means ^ S t) (seq 0 n).
Proof.
  induction n as [|n IH]; intros value k; [reflexivity|].
  cbn [path_from]. rewrite IH. cbn [seq map].
  replace (shock_at w means 0 k) with means by (unfold shock_at; lra).
  f_equal; [simpl; lra|].
  rewrite <- seq_shift, map_map. apply map_ext. intros t. simpl. lra.
Qed.

(** Without volatility every shock is the drift. *)
Lemma calm_in_range (w : World) (params : MonteCarloParams) (s : state) :
  stds_of params = 0 ->
  (periods params <= 0)%Z \/ means_of params <= EXP_MAX ->
  simulation_in_range w params s.
Proof.
  intros Hstd [Hp|Hm] j Hj.
  - replace (Z.to_nat (periods params)) with 0%nat in Hj by lia. lia.
  - unfold shock_at. rewrite Hstd. lra.
Qed.

Lemma calm_out_of_range (w : World) (params : MonteCarloParams) (s : state) :
  stds_of params = 0 ->
  (1 <= simulations params)%Z -> (1 <= periods params)%Z ->
  EXP_MAX < means_of params ->
  ~ simulation_in_range w params s.
Proof.
  intros Hstd Hn Hp Hm Hr.
  assert (Hj : (rng_pos s <= rng_pos s
                < rng_pos s
                  + Z.to_nat (simulations params) * Z.to_nat (periods params))%nat)
    by nia.
  pose proof (Hr (rng_pos s) Hj) as H. unfold shock_at in H.
  rewrite Hstd in H. lra.
Qed.

Lemma calm_path (w : World) (initial means : R) (n k : nat) :
  initial :: path_from w means 0 n initial k
  = det_path initial (exp_value means) n.
Proof.
  unfold det_path. rewrite path_from_calm. cbn [seq map].
  f_equal; [simpl; lra|].
  rewrite <- seq_shift, map_map. reflexivity.
Qed.

Lemma calm_paths (w : World) (initial means : R) (n sims : nat) :
  forall k,
    paths_from w initial means 0 n sims k
    = repeat (det_path initial (exp_value means) n) sims.
Proof.
  induction sims as [|sims IH]; intros k; [reflexivity|].
  cbn [paths_from repeat]. now rewrite calm_path, IH.
Qed.

Lemma det_path_nth (initial growth : R) (n t : nat) :
  (t <= n)%nat -> nth t (det_path initial growth n) 0 = initial * growth ^ t.
Proof.
  intros Ht. unfold det_path.
  transitivity (nth t (map (fun t => initial * growth ^ t) (seq 0 (S n)))
                    ((fun t => initial * growth ^ t) 0%nat)).
  { apply nth_indep. rewrite length_map, length_seq. lia. }
  rewrite (map_nth (fun t => initial * growth ^ t)), seq_nth by lia.
  reflexivity.
Qed.

Lemma cross_section_repeat (path : list R) (m t : nat) :
  cross_section (repeat path m) t = repeat (nth t path 0) m.
Proof.
  unfold cross_section. induction m as [|m IH]; [reflexivity|].
  cbn [repeat map]. now rewrite IH.
Qed.

Lemma sorted_repeat (x : R) (m : nat) :
  sorted (fun x => x) Rleb (repeat x m) = repeat x m.
Proof.
  induction m as [|m IH]; [reflexivity|].
  cbn [repeat sorted fold_right]. fold (sorted (fun x : R => x) Rleb (repeat x m)).
  rewrite IH. destruct m as [|m]; [reflexivity|].
  cbn [repeat insort]. now rewrite (proj2 (Rleb_true x x)) by lra.
Qed.

Lemma nth_repeat_lt (x : R) (m idx : nat) :
  (idx < m)%nat -> nth idx (repeat x m) 0 = x.
Proof.
  intros H. rewrite (nth_indep _ 0 x) by (now rewrite repeat_length).
  apply nth_repeat.
Qed.

Lemma calm_band (initial growth : R) (n m idx : nat) :
  (idx < m)%nat ->
  band idx (repeat (det_path initial growth n) m) (S n)
  = det_path initial growth n.
Proof.
  intros H. unfold band, det_path at 2. apply map_ext_in. intros t Ht.
  apply in_seq in Ht. unfold pick.
  rewrite cross_section_repeat, sorted_repeat, nth_repeat_lt by exact H.
  apply det_path_nth. lia.
Qed.

End CalmFacts.

Import CalmFacts.



Module OrderFacts.

Local Open Scope R_scope.

Lemma ascending_nth (l : list R) :
  StronglySorted Rle l ->
  forall i j : nat,
    (i <= j)%nat -> (j < List.length l)%nat -> nth i l 0 <= nth j l 0.
Proof.
  induction 1 as [|a l Hl IH Ha]; intros i j Hij Hj; [cbn in Hj; lia|].
  destruct i as [|i], j as [|j]; cbn [nth]; cbn [List.length] in Hj.
  - lra.
  - rewrite Forall_forall in Ha. apply Ha, nth_In. lia.
  - lia.
  - apply IH; lia.
Qed.

Lemma index_order (n : Z) :
  (1 <= n)%Z ->
  (p10_index n <= median_index n)%nat
  /\ (n <> 2%Z -> (median_index n <= p90_index n)%nat).
Proof.
  intros Hn. destruct (index_bounds n Hn) as [_ [_ [_ [H10 H90]]]].
  rewrite H10, H90. unfold median_index. split.
  - apply Z2Nat.inj_le; [apply Z.div_pos; lia|apply Z.div_pos; lia|].
    Z.div_mod_to_equations. lia.
  - intros Hne.
    apply Z2Nat.inj_le; [apply Z.div_pos; lia|apply Z.div_pos; lia|].
    Z.div_mod_to_equations. lia.
Qed.

Lemma pick_monotone (paths : list (list R)) (t i j : nat) :
  (i <= j)%nat -> (j < List.length paths)%nat ->
  pick i paths t <= pick j paths t.
Proof.
  intros Hij Hj. unfold pick.
  apply ascending_nth; [apply sorted_R_ascending|exact Hij|].
  now rewrite sorted_length, cross_section_length.
Qed.

(** The two paths of [two_paths] in the world [offline_alternating]. *)
Lemma two_paths_values :
  exists v1 v2 : R,
    v1 < v2
    /\ paths_from offline_alternating 1 (means_of two_paths) (stds_of two_paths)
                  1 2 0
       = [[1; v1]; [1; v2]].
Proof.
  set (m := means_of two_paths). set (sd := stds_of two_paths).
  exists (1 * exp_value (shock_at offline_alternating m sd 0)),
         (1 * exp_value (shock_at offline_alternating m sd 1)).
  split; [|reflexivity].
  assert (Hsd : 0 < sd).
  { unfold sd, stds_of, two_paths. cbn [volatility].
    assert (0 < sqrt dt) by (apply sqrt_lt_R0; unfold dt; lra). lra. }
  assert (Hm : m = 0).
  { unfold m, means_of, two_paths, dt. cbn [expected_return volatility]. lra. }
  unfold shock_at. cbn [normal_variate offline_alternating Nat.even].
  pose proof EXP_bounds as Hb.
  rewrite !exp_value_exp by lra.
  apply Rmult_lt_compat_l; [lra|]. apply exp_increasing. lra.
Qed.

End OrderFacts.

Import OrderFacts.




(* ================================================================== *)
(** * The entry points as a whole, and the model at work               *)
(* ================================================================== *)

Module EntryPoints.

(** [monte_carlo] values the current holdings, then simulates. *)
Lemma monte_carlo_unfold (w : World) (session : Session)
  (params : MonteCarloParams) (s : state) :
  monte_carlo w session params s =
  match current_total w session (user_id params) s with
  | (Ok total, s1) => simulate_bands w (initial_of params total) params s1
  | (Raise e, s1) => (Raise e, s1)
  end.
Proof. reflexivity. Qed.

(** The valuation that precedes the simulation returns whenever no symbol is
    held or the clock shows a day after 0001-12-31 and before 9999-12-31. *)
Lemma current_total_total (w : World) (session : Session) (user : Z) (s : state) :
  get_positions w session user = [] \/ 365 < today w < MAXORD ->
  exists total s1, current_total w session user s = (Ok total, s1).
Proof.
  intros H. unfold current_total.
  destruct (get_positions w session user) as [|p ps] eqn:E.
  - unfold ret. eauto.
  - destruct H as [H|H]; [discriminate H|].
    destruct (get_last_prices_total w (dict_keys (p :: ps)) (today w) s H)
      as [prices [s1 Hl]].
    unfold bind. rewrite Hl. unfold ret. eauto.
Qed.

Lemma monte_carlo_total (w : World) (session : Session)
  (params : MonteCarloParams) (s : state) :
  get_positions w session (user_id params) = [] \/ 365 < today w < MAXORD ->
  1 <= simulations params ->
  (forall k, (shock_at w (means_of params) (stds_of params) k <= EXP_MAX)%R) ->
  exists res s', monte_carlo w session params s = (Ok res, s').
Proof.
  intros Hc Hn Hr. rewrite monte_carlo_unfold.
  destruct (current_total_total w session (user_id params) s Hc)
    as [total [s1 Ht]]. rewrite Ht.
  destruct (simulate_bands_run w (initial_of params total) params s1 Hn
              (fun j _ => Hr j))
    as [_ Hrun]. eauto.
Qed.

(** On the last representable day a valuation with positions never returns:
    when the provider does, [date_range] steps past the last day. *)
Lemma portfolio_value_raises_on_last_day (w : World) (session : Session)
  (user : Z) (s : state) :
  get_positions w session user <> [] ->
  exists e s', portfolio_value w session user (Some MAXORD) s = (Raise e, s').
Proof.
  intros Hp. unfold portfolio_value.
  destruct (get_positions w session user) as [|p ps] eqn:E; [congruence|].
  unfold bind, lift. cbn [as_of_or_today].
  rewrite date_sub_ok by (unfold MINORD, MAXORD; lia).
  destruct (get_price_history w (dict_keys (p :: ps)) (MAXORD - 365) MAXORD s)
    as [[history|e] s']; [|eauto].
  rewrite date_range_is_daterange, daterange_overflow
    by (unfold MAXORD; lia).
  eauto.
Qed.

Lemma allocation_raises_on_last_day :
  allocation offline ledger_with_trade 1 (Some MAXORD) s0
  = (Raise OverflowError, mkState 0 1).
Proof.
  unfold allocation.
  change (dict_keys (get_positions offline ledger_with_trade 1))
    with ["AAPL"%string].
  unfold bind, get_last_prices, bind, lift. cbn [as_of_or_today].
  rewrite date_sub_ok by (unfold MINORD, MAXORD; lia).
  rewrite get_price_history_overflow; [reflexivity|unfold MAXORD; lia|reflexivity].
Qed.

(** The fallback series of a single day is the one point at the reference
    price. *)
Lemma fallback_single_day (w : World) (d : date) (s : state) :
  0 <= d < MAXORD ->
  fallback_series w d d s = (Ok [mkRow d 100.0%R], s).
Proof.
  intros H. unfold fallback_series, simulate_gbm, bind, lift.
  rewrite daterange_ok by lia.
  replace (Z.to_nat (d - d + 1)) with 1%nat by lia.
  unfold days_from. cbn [seq map gbm_steps]. unfold ret.
  replace (d + Z.of_nat 0) with d by (simpl; lia). reflexivity.
Qed.

(** ** Runs of the model on the sample data *)

Example calendar_of_ordinals :
  ord2ymd 1 = (1, 1, 1)
  /\ ord2ymd 738890 = (2024, 1, 5)
  /\ ord2ymd 738945 = (2024, 2, 29)
  /\ ord2ymd MAXORD = (9999, 12, 31)
  /\ ymd2ord 2024 2 1 = 738917.
Proof. repeat split. Qed.

(** From 2000-01-01 to 2030-12-31 the two calendar conversions agree. *)
Example calendar_roundtrip :
  ymd2ord 2000 1 1 = 730120 /\ ymd2ord 2030 12 31 = 730120 + 11322
  /\ holds_from (Z.to_nat 11323) 730120 ymd_roundtrip = true.
Proof. split; [|split]; vm_compute; reflexivity. Qed.

Example fetch_parses_and_sorts :
  fetch_stooq_history online "AAPL" s0
  = (Ok [mkRow 738887 185.64%R; mkRow 738888 184.25%R], mkState 0 2).
Proof. reflexivity. Qed.

Example fetch_unknown_symbol :
  fetch_stooq_history online "MSFT" s0 = (Ok [], mkState 0 2).
Proof. reflexivity. Qed.

Example history_real_and_fallback :
  get_price_history online ["AAPL"; "MSFT"]%string 738887 738887 s0
  = (Ok [("AAPL"%string, [mkRow 738887 185.64%R]);
         ("MSFT"%string, [mkRow 738887 100.0%R])], mkState 0 4).
Proof. reflexivity. Qed.

(** In binary64 arithmetic [int(0.10 * k)] and [int(0.90 * k)] are the
    floors [k / 10] and [9 k / 10] of the real products, for every
    [k = len(col) - 1] up to 20000 simulations. *)
Example binary64_indices :
  holds_from (Z.to_nat 20000) 0
    (fun k =>
       Binary64.int_of_product_is Binary64.tenth k (k / 10)
       && Binary64.int_of_product_is Binary64.nine_tenths k (9 * k / 10))
  = true.
Proof. vm_compute. reflexivity. Qed.

(** A deposit of 10.126 is stored as it is and comes back as 10.13, and the
    balance of the ledger it opens is 10.13. A deposit of 10.555 comes back
    as 10.55 where the float of 10.555 lies below the half, as it does in
    binary64. *)
Example deposit_read_back :
  forall w : World,
    snd (add_transaction w [] 1 (deposit 10.126)) = [income_tx 1 1 738920 10.126]
    /\ t_amount (fst (add_transaction w [] 1 (deposit 10.126))) = 10.13%R
    /\ get_cash_balance w (snd (add_transaction w [] 1 (deposit 10.126))) 1
       = 10.13%R
    /\ (half_up w 10.555 = false ->
        t_amount (fst (add_transaction w [] 1 (deposit 10.555))) = 10.55%R).
Proof.
  intros w. split; [reflexivity|].
  assert (Hr : round_to w 2 10.126 = 10.13%R).
  { rewrite (round_to_near w 2 10.126 1013); [simpl; lra|].
    apply Rabs_def1; simpl; lra. }
  split; [exact Hr|]. split.
  - rewrite cash_balance_rounded. cbn [add_transaction create_transaction snd].
    cbn [deposit tc_user_id tc_date tc_type tc_category tc_amount
         tc_asset_symbol tc_shares tc_price_at_trade app].
    change (sum_amount "expense" 1 _) with 0%R.
    change (sum_amount "income" 1 _) with (10.126 + 0)%R.
    rewrite round_to_0, Rplus_0_r, Hr. lra.
  - intros Hw.
    change (t_amount (fst (add_transaction w [] 1 (deposit 10.555))))
      with (round_to w 2 10.555).
    rewrite (round_to_half w 2 10.555 1055) by (simpl; lra).
    rewrite Hw. simpl. lra.
Qed.

(** An expected return of 10000 a year, without volatility: the first step
    calls [math.exp(833.33...)], whose [OverflowError] leaves the entry
    point. *)
Example monte_carlo_out_of_range :
  forall w : World,
    exists s', monte_carlo w [] runaway_paths s0 = (Raise OverflowError, s').
Proof.
  intros w. rewrite monte_carlo_unfold.
  change (current_total w [] (user_id runaway_paths) s0)
    with (@pair (result R) state
                (Ok (or_zero None - or_zero None)%R) s0).
  apply simulate_bands_raise. apply calm_out_of_range.
  - unfold stds_of, runaway_paths. cbn [volatility]. lra.
  - simpl. lia.
  - simpl. lia.
  - pose proof EXP_bounds. unfold means_of, runaway_paths, dt.
    cbn [expected_return volatility]. lra.
Qed.

Example cashflow_two_months :
  forall w : World,
    map cf_date (cashflow w ledger_two_months 1) = [738886; 738917]
    /\ exists i1 i2 e1 e2 n1 n2 : R,
         map cf_income (cashflow w ledger_two_months 1) = [i1; i2]
         /\ map cf_expense (cashflow w ledger_two_months 1) = [e1; e2]
         /\ map cf_net (cashflow w ledger_two_months 1) = [n1; n2]
         /\ (i1 = 150 /\ i2 = 0 /\ e1 = 0 /\ e2 = 30
             /\ n1 = 150 /\ n2 = -30)%R.
Proof.
  intros w. unfold cashflow.
  rewrite list_transactions_at_scale by whole_rows.
  split; [vm_compute; reflexivity|].
  cbv -[Rplus Rminus Ropp IZR Q2R Rmult Rinv].
  eexists _, _, _, _, _, _.
  split; [reflexivity|]. split; [reflexivity|]. split; [reflexivity|].
  repeat split; lra.
Qed.

End EntryPoints.

(* ================================================================== *)
(** * Beyond the specification: the calendar helpers                   *)
(* ================================================================== *)

Module CalendarFacts.

Lemma days_from_in (cur : date) (n : nat) (d : date) :
  In d (days_from cur n) <-> cur <= d < cur + Z.of_nat n.
Proof.
  unfold days_from. rewrite in_map_iff. split.
  - intros [i [<- Hi]]. apply in_seq in Hi. lia.
  - intros H. exists (Z.to_nat (d - cur)). split; [lia|].
    apply in_seq. lia.
Qed.

Lemma days_from_sorted (n : nat) :
  forall cur : date, StronglySorted Z.lt (days_from cur n).
Proof.
  induction n as [|n IH]; intros cur; [constructor|].
  rewrite days_from_S. constructor; [apply IH|].
  apply Forall_forall. intros d Hd. apply days_from_in in Hd. lia.
Qed.

End CalendarFacts.

Import CalendarFacts.

(** X1. Up to the day before the last representable one, [daterange] and
    [date_range] return every day from [start] to [end] inclusive, once
    each and in ascending order; the list is empty when [end < start]. *)
Theorem daterange_every_day_once :
  forall start end_ : date,
    MINORD <= start -> end_ < MAXORD ->
    exists days : list date,
      daterange start end_ = Ok days
      /\ date_range start end_ = Ok days
      /\ (forall d, In d days <-> start <= d <= end_)
      /\ StronglySorted Z.lt days
      /\ List.length days = Z.to_nat (end_ - start + 1)
      /\ (end_ < start -> days = []).
Proof.
  intros start end_ Hs He. unfold MINORD in Hs.
  exists (days_from start (Z.to_nat (end_ - start + 1))).
  split; [apply daterange_ok; lia|].
  split; [rewrite date_range_is_daterange; apply daterange_ok; lia|].
  split; [intros d; rewrite days_from_in; lia|].
  split; [apply days_from_sorted|].
  split; [apply days_from_length|].
  intros H. replace (Z.to_nat (end_ - start + 1)) with O by lia. reflexivity.
Qed.

Lemma daterange_every_day_once_witness :
  MINORD <= 738887 /\ 738889 < MAXORD
  /\ exists days : list date,
       daterange 738887 738889 = Ok days
       /\ List.length days = 3%nat.
Proof.
  assert (H1 : MINORD <= 738887) by (unfold MINORD; lia).
  assert (H2 : 738889 < MAXORD) by (unfold MAXORD; lia).
  split; [exact H1|split; [exact H2|]].
  destruct (daterange_every_day_once 738887 738889 H1 H2)
    as [days [Hd [_ [_ [_ [Hl _]]]]]].
  exists days. split; [exact Hd|exact Hl].
Defined.

(** X2. For every start up to it, a range that ends on the last
    representable day, 9999-12-31, makes [daterange] and [date_range] raise
    [OverflowError]: after the last day has been appended the loop still
    computes the day after it. *)
Theorem daterange_overflows_on_last_day :
  forall start : date,
    date_valid start ->
    daterange start MAXORD = Raise OverflowError
    /\ date_range start MAXORD = Raise OverflowError.
Proof.
  intros start [H1 H2]. unfold MINORD in H1.
  split; [|rewrite date_range_is_daterange]; apply daterange_overflow; lia.
Qed.

Lemma daterange_overflows_on_last_day_witness :
  date_valid 738887 /\ daterange 738887 MAXORD = Raise OverflowError.
Proof.
  assert (H : date_valid 738887) by (unfold date_valid, MINORD, MAXORD; lia).
  split; [exact H|].
  exact (proj1 (daterange_overflows_on_last_day 738887 H)).
Defined.

(* ================================================================== *)
(** * Beyond the specification: the fallback generator                *)
(* ================================================================== *)

Module GbmFacts.

Local Open Scope R_scope.

Lemma gbm_steps_shape (w : World) (mean std : R) (dates : list date) :
  forall (price : R) (s : state),
    shocks_in_range w mean std (rng_pos s) (List.length dates) ->
    exists series : list row,
      gbm_steps w mean std price dates s
      = (Ok series, mkState (rng_pos s + List.length dates) (net_pos s))
      /\ map r_date series = dates.
Proof.
  induction dates as [|d dates IH]; intros price s Hr.
  - exists []. cbn [gbm_steps List.length map]. unfold ret.
    rewrite Nat.add_0_r. destruct s. split; reflexivity.
  - cbn [List.length] in Hr. apply shocks_in_range_step in Hr.
    destruct Hr as [H0 Hr].
    cbn [gbm_steps]. unfold bind at 1. unfold gauss at 1.
    unfold bind at 1. unfold lift at 1. rewrite math_exp_ok by exact H0.
    set (price' := price * exp_value (mean + normal_variate w (rng_pos s) * std)).
    destruct (IH price' (mkState (S (rng_pos s)) (net_pos s)) Hr)
      as [series [H1 H2]].
    exists (mkRow d price' :: series).
    unfold bind. rewrite H1. unfold ret. cbn [rng_pos net_pos map r_date List.length].
    rewrite H2. split; [f_equal; f_equal; lia|reflexivity].
Qed.

Lemma gbm_steps_raise (w : World) (mean std : R) (dates : list date) :
  forall (price : R) (s : state),
    ~ shocks_in_range w mean std (rng_pos s) (List.length dates) ->
    exists s', gbm_steps w mean std price dates s = (Raise OverflowError, s').
Proof.
  induction dates as [|d dates IH]; intros price s Hr.
  - exfalso. apply Hr. intros j Hj. cbn in Hj. lia.
  - cbn [gbm_steps]. unfold bind at 1. unfold gauss at 1.
    unfold bind at 1. unfold lift at 1.
    destruct (Rle_dec (shock_at w mean std (rng_pos s)) EXP_MAX) as [H0|H0].
    + rewrite math_exp_ok by exact H0.
      set (s1 := mkState (S (rng_pos s)) (net_pos s)).
      destruct (IH (price * exp_value (mean + normal_variate w (rng_pos s) * std))
                   s1) as [s' Hs'].
      { intros H. apply Hr. cbn [List.length]. apply shocks_in_range_step.
        now split. }
      exists s'. unfold bind. now rewrite Hs'.
    + rewrite math_exp_raise by (unfold shock_at in H0; lra). eauto.
Qed.

Lemma simulate_gbm_shape (w : World) (start end_ : date) (p mu sigma : R)
  (s : state) :
  (0 <= start)%Z -> (end_ < MAXORD)%Z ->
  shocks_in_range w ((mu - 0.5 * sigma * sigma) * (1.0 / 252.0))
                  (sigma * sqrt (1.0 / 252.0)) (rng_pos s)
                  (Nat.pred (Z.to_nat (end_ - start + 1))) ->
  exists (series : list row) (s' : state),
    simulate_gbm w start end_ p mu sigma s = (Ok series, s')
    /\ map r_date series = days_from start (Z.to_nat (end_ - start + 1))
    /\ ((start <= end_)%Z -> exists rest, series = mkRow start p :: rest)
    /\ rng_pos s' = (rng_pos s + Nat.pred (Z.to_nat (end_ - start + 1)))%nat
    /\ net_pos s' = net_pos s.
Proof.
  intros Hs He Hr. unfold simulate_gbm, bind, lift.
  rewrite daterange_ok by assumption.
  destruct (Z.to_nat (end_ - start + 1)) as [|n] eqn:En.
  - exists [], s. cbn. unfold ret.
    split; [reflexivity|]. split; [reflexivity|]. split; [lia|].
    split; [lia|reflexivity].
  - rewrite days_from_S. cbv zeta. cbn [Nat.pred] in Hr.
    rewrite <- (days_from_length (start + 1)%Z n) in Hr.
    destruct (gbm_steps_shape w _ _ _ p s Hr) as [series [H1 H2]].
    rewrite H1.
    eexists _, _. unfold ret. split; [reflexivity|].
    cbn [map r_date rng_pos net_pos Nat.pred]. rewrite H2, days_from_length.
    split; [reflexivity|]. split; [eauto|].
    split; reflexivity.
Qed.

Lemma simulate_gbm_raise (w : World) (start end_ : date) (p mu sigma : R)
  (s : state) :
  (0 <= start)%Z -> (end_ < MAXORD)%Z ->
  ~ shocks_in_range w ((mu - 0.5 * sigma * sigma) * (1.0 / 252.0))
                    (sigma * sqrt (1.0 / 252.0)) (rng_pos s)
                    (Nat.pred (Z.to_nat (end_ - start + 1))) ->
  exists s', simulate_gbm w start end_ p mu sigma s = (Raise OverflowError, s').
Proof.
  intros Hs He Hr. unfold simulate_gbm, bind, lift.
  rewrite daterange_ok by assumption.
  destruct (Z.to_nat (end_ - start + 1)) as [|n] eqn:En.
  - exfalso. apply Hr. intros j Hj. cbn in Hj. lia.
  - rewrite days_from_S. cbv zeta. cbn [Nat.pred] in Hr.
    rewrite <- (days_from_length (start + 1)%Z n) in Hr.
    destruct (gbm_steps_raise w _ _ _ p s Hr) as [s' H1].
    exists s'. now rewrite H1.
Qed.

End GbmFacts.

Import GbmFacts.

(** X3. Up to the day before the last representable one, [simulate_gbm]
    returns exactly when none of its shocks exceeds the range of [math.exp],
    one shock being drawn per day after the first; otherwise the
    [OverflowError] of [math.exp] is raised. It then returns one row per
    calendar day from [start] to [end], in order (none when [end < start]);
    the first row carries [start_price]; on a single day the series is the
    one point at [start_price]; and it issues no request. At the default
    drift and volatility, the only ones the provider passes, every shock is
    in range. *)
Theorem simulate_gbm_one_row_per_day :
  forall (w : World) (start end_ : date) (start_price mu sigma : R) (s : state),
    let mean := ((mu - 0.5 * sigma * sigma) * (1.0 / 252.0))%R in
    let std := (sigma * sqrt (1.0 / 252.0))%R in
    let draws := Nat.pred (Z.to_nat (end_ - start + 1)) in
    MINORD <= start -> end_ < MAXORD ->
    (shocks_in_range w mean std (rng_pos s) draws ->
     exists (series : list row) (s' : state),
       simulate_gbm w start end_ start_price mu sigma s = (Ok series, s')
       /\ map r_date series = days_from start (Z.to_nat (end_ - start + 1))
       /\ (start <= end_ ->
           exists rest, series = mkRow start start_price :: rest)
       /\ (start = end_ -> series = [mkRow start start_price])
       /\ rng_pos s' = (rng_pos s + draws)%nat
       /\ net_pos s' = net_pos s)
    /\ (~ shocks_in_range w mean std (rng_pos s) draws ->
        exists s',
          simulate_gbm w start end_ start_price mu sigma s
          = (Raise OverflowError, s'))
    /\ (mu = 0.07%R -> sigma = 0.2%R ->
        shocks_in_range w mean std (rng_pos s) draws).
Proof.
  intros w start end_ p mu sigma s mean std draws Hs He. unfold MINORD in Hs.
  split; [|split].
  - intros Hr.
    destruct (simulate_gbm_shape w start end_ p mu sigma s ltac:(lia) He Hr)
      as [series [s' [H1 [H2 [H3 [H5 H6]]]]]].
    exists series, s'.
    split; [exact H1|]. split; [exact H2|]. split; [exact H3|].
    split; [|split; [exact H5|exact H6]].
    intros Heq. subst end_. destruct (H3 ltac:(lia)) as [rest Hrest].
    subst series. f_equal.
    replace (Z.to_nat (start - start + 1)) with 1%nat in H2 by lia.
    cbn in H2. destruct rest; [reflexivity|discriminate H2].
  - intros Hr. apply simulate_gbm_raise; [lia|exact He|exact Hr].
  - intros Hmu Hsigma j _. unfold mean, std. rewrite Hmu, Hsigma.
    apply fallback_shock_in_range.
Qed.

Lemma simulate_gbm_one_row_per_day_witness :
  MINORD <= 738887 /\ 738889 < MAXORD
  /\ exists (series : list row) (s' : state),
       simulate_gbm offline 738887 738889 100.0%R 0.07%R 0.2%R s0
       = (Ok series, s')
       /\ map r_date series = [738887; 738888; 738889].
Proof.
  assert (H1 : MINORD <= 738887) by (unfold MINORD; lia).
  assert (H2 : 738889 < MAXORD) by (unfold MAXORD; lia).
  split; [exact H1|split; [exact H2|]].
  destruct (simulate_gbm_one_row_per_day offline 738887 738889
              100.0%R 0.07%R 0.2%R s0 H1 H2) as [Hret [_ Hdef]].
  destruct (Hret (Hdef eq_refl eq_refl)) as [series [s' [Hr [Hd _]]]].
  exists series, s'. split; [exact Hr|exact Hd].
Defined.

(* ================================================================== *)
(** * Beyond the specification: the retrieval from the price source    *)
(* ================================================================== *)

Module FetchFacts.

Lemma fetch_candidates_step (w : World) (cand : string) (rest : list string)
  (s : state) :
  fetch_candidates w (cand :: rest) s =
  match http_get w (net_pos s) (stooq_url cand) with
  | Raise e => (Raise e, requested s)
  | Ok resp =>
      if no_data w resp then fetch_candidates w rest (requested s)
      else (Ok (rows_of w resp), requested s)
  end.
Proof.
  cbn [fetch_candidates]. unfold bind at 1, client_get at 1. fold (requested s).
  destruct (http_get w (net_pos s) (stooq_url cand)) as [resp|e]; [|reflexivity].
  unfold no_data, rows_of.
  destruct ((status_code resp =? 200) && contains HEADER (text resp)); cbn [negb orb];
    [|reflexivity].
  destruct (List.length (splitlines (strip (text resp))) <=? 1)%nat; cbn [orb];
    [reflexivity|].
  destruct (parse_lines w (tl (splitlines (strip (text resp))))); reflexivity.
Qed.

Lemma rows_of_sorted (w : World) (resp : response) :
  StronglySorted (fun a b => r_date a <= r_date b) (rows_of w resp).
Proof.
  unfold rows_of.
  assert (H : StronglySorted (key_le r_date Z.leb)
                (sorted r_date Z.leb
                   (parse_lines w (tl (splitlines (strip (text resp))))))).
  { apply sorted_sorted.
    - intros a b. rewrite !Z.leb_le. lia.
    - intros a b c. rewrite !Z.leb_le. lia. }
  induction H as [|a l Hl IH Ha]; constructor; [exact IH|].
  eapply Forall_impl; [|exact Ha]. intros b Hb. now apply Z.leb_le.
Qed.

Lemma fetch_candidates_bounds (w : World) (candidates : list string) :
  forall s : state,
    (net_pos s <= net_pos (snd (fetch_candidates w candidates s))
     <= net_pos s + List.length candidates)%nat
    /\ (candidates <> [] ->
        (net_pos s < net_pos (snd (fetch_candidates w candidates s)))%nat)
    /\ rng_pos (snd (fetch_candidates w candidates s)) = rng_pos s
    /\ (forall rows, fst (fetch_candidates w candidates s) = Ok rows ->
        StronglySorted (fun a b => r_date a <= r_date b) rows).
Proof.
  induction candidates as [|cand rest IH]; intros s.
  - cbn. repeat split; try lia; try congruence.
    intros rows H. inversion H. constructor.
  - rewrite fetch_candidates_step.
    destruct (http_get w (net_pos s) (stooq_url cand)) as [resp|e].
    + destruct (no_data w resp).
      * destruct (IH (requested s)) as [H1 [_ [H3 H4]]].
        cbn [requested net_pos rng_pos List.length] in *.
        repeat split; try lia; auto.
      * cbn [fst snd requested net_pos rng_pos List.length].
        repeat split; try lia.
        intros rows H. inversion H. apply rows_of_sorted.
    + cbn [fst snd requested net_pos rng_pos List.length].
      repeat split; try lia. intros rows H. discriminate H.
Qed.

End FetchFacts.

Import FetchFacts.

(** X4. Whatever the price source answers, [fetch_stooq_history] issues one
    or two requests, draws no random number, and the rows it returns are in
    ascending date order. *)
Theorem fetch_stooq_history_requests_and_order :
  forall (w : World) (symbol : string) (s : state),
    let out := fetch_stooq_history w symbol s in
    (net_pos s < net_pos (snd out) <= net_pos s + 2)%nat
    /\ rng_pos (snd out) = rng_pos s
    /\ (forall rows, fst out = Ok rows ->
        StronglySorted (fun a b => r_date a <= r_date b) rows).
Proof.
  intros w symbol s out. unfold out, fetch_stooq_history.
  destruct (fetch_candidates_bounds w
              [lower symbol; String.append (lower symbol) ".us"] s)
    as [H1 [H2 [H3 H4]]].
  cbn [List.length] in H1.
  split; [split; [apply H2; discriminate|lia]|]. split; assumption.
Qed.

Lemma fetch_stooq_history_requests_and_order_witness :
  fst (fetch_stooq_history online "AAPL" s0)
  = Ok [mkRow 738887 185.64%R; mkRow 738888 184.25%R]
  /\ StronglySorted (fun a b => r_date a <= r_date b)
       [mkRow 738887 185.64%R; mkRow 738888 184.25%R].
Proof.
  assert (H : fst (fetch_stooq_history online "AAPL" s0)
              = Ok [mkRow 738887 185.64%R; mkRow 738888 184.25%R])
    by reflexivity.
  split; [exact H|].
  exact (proj2 (proj2 (fetch_stooq_history_requests_and_order online "AAPL" s0))
               _ H).
Defined.

(** X5. The candidates of [fetch_stooq_history] are tried in order: if the
    request for the lower-cased symbol raises, the exception is raised and
    the [.us] candidate is not requested; if it answers with rows, these
    rows, sorted by date, are the result after one request; only when it
    answers without any row (no success, no header, no data line, or no
    line that parses) is the [.us] candidate requested, and then its rows
    are the result, [[]] when it has none either, and its exception is
    raised. *)
Theorem fetch_stooq_history_candidates_in_order :
  forall (w : World) (symbol : string) (s : state),
    let first := http_get w (net_pos s) (stooq_url (lower symbol)) in
    let second :=
      http_get w (S (net_pos s))
               (stooq_url (String.append (lower symbol) ".us")) in
    (forall e, first = Raise e ->
       fetch_stooq_history w symbol s = (Raise e, requested s))
    /\ (forall r1, first = Ok r1 -> no_data w r1 = false ->
          fetch_stooq_history w symbol s = (Ok (rows_of w r1), requested s))
    /\ (forall r1 r2, first = Ok r1 -> no_data w r1 = true ->
          second = Ok r2 ->
          fetch_stooq_history w symbol s
          = (Ok (if no_data w r2 then [] else rows_of w r2),
             requested (requested s)))
    /\ (forall r1 e, first = Ok r1 -> no_data w r1 = true ->
          second = Raise e ->
          fetch_stooq_history w symbol s = (Raise e, requested (requested s))).
Proof.
  intros w symbol s first second. unfold fetch_stooq_history.
  rewrite fetch_candidates_step. fold first.
  split; [intros e ->; reflexivity|].
  split; [intros r1 -> ->; reflexivity|].
  split.
  - intros r1 r2 -> -> H2. rewrite fetch_candidates_step.
    cbn [requested net_pos]. fold second. rewrite H2.
    destruct (no_data w r2); reflexivity.
  - intros r1 e -> -> H2. rewrite fetch_candidates_step.
    cbn [requested net_pos]. fold second. rewrite H2. reflexivity.
Qed.

Lemma fetch_stooq_history_candidates_in_order_witness :
  http_get online 0 (stooq_url (lower "AAPL")) = Ok (mkResponse 404 "")
  /\ no_data online (mkResponse 404 "") = true
  /\ http_get online 1 (stooq_url (String.append (lower "AAPL") ".us"))
     = Ok (mkResponse 200 payload)
  /\ fetch_stooq_history online "AAPL" s0
     = (Ok (if no_data online (mkResponse 200 payload) then []
            else rows_of online (mkResponse 200 payload)),
        requested (requested s0)).
Proof.
  assert (H1 : http_get online (net_pos s0) (stooq_url (lower "AAPL"))
               = Ok (mkResponse 404 "")) by reflexivity.
  assert (H2 : no_data online (mkResponse 404 "") = true) by reflexivity.
  assert (H3 : http_get online (S (net_pos s0))
                 (stooq_url (String.append (lower "AAPL") ".us"))
               = Ok (mkResponse 200 payload)) by reflexivity.
  split; [exact H1|split; [exact H2|split; [exact H3|]]].
  exact (proj1 (proj2 (proj2 (fetch_stooq_history_candidates_in_order
                                online "AAPL" s0)))
               _ _ H1 H2 H3).
Defined.

(* ================================================================== *)
(** * Beyond the specification: histories and last prices              *)
(* ================================================================== *)

Module HistoryFacts.

Lemma retrieved_within (w : World) (sym : string) (start end_ : date) (s : state) :
  Forall (dated_within start end_) (retrieved w sym start end_ s).
Proof.
  unfold retrieved.
  destruct (fetch_stooq_history w sym s) as [[rows|e] s1]; [|constructor].
  apply Forall_forall. intros r Hr.
  apply (proj1 (filter_In _ _ _)) in Hr. destruct Hr as [_ Hr].
  apply andb_true_iff in Hr. destruct Hr as [H1 H2].
  apply Z.leb_le in H1, H2. split; assumption.
Qed.

Lemma retrieved_empty_range (w : World) (sym : string) (start end_ : date)
  (s : state) :
  end_ < start -> retrieved w sym start end_ s = [].
Proof.
  intros H. pose proof (retrieved_within w sym start end_ s) as Hw.
  destruct (retrieved w sym start end_ s) as [|r rest]; [reflexivity|].
  inversion Hw as [|? ? [H1 H2] _]; subst. lia.
Qed.

Lemma symbol_series_within (w : World) (sym : string) (start end_ : date)
  (s s' : state) (series : list row) :
  0 <= start -> start <= end_ -> end_ < MAXORD ->
  symbol_series w sym start end_ s = (Ok series, s') ->
  series <> [] /\ Forall (dated_within start end_) series.
Proof.
  intros Hs Hse He Hrun. rewrite symbol_series_eq in Hrun.
  pose proof (retrieved_within w sym start end_ s) as Hw.
  destruct (retrieved w sym start end_ s) as [|r rest].
  - destruct (fallback_series_ok w start end_ _ (after_fetch w sym s)
                (daterange_ok start end_ Hs He)) as [sr [s2 [H1 [H2 _]]]].
    rewrite H1 in Hrun. inversion Hrun; subst. split.
    + intros E. subst series. cbn in H2.
      replace (Z.to_nat (end_ - start + 1))
        with (S (Z.to_nat (end_ - start))) in H2 by lia.
      rewrite days_from_S in H2. discriminate H2.
    + apply Forall_forall. intros r Hr.
      assert (Hin : In (r_date r) (map r_date series)) by now apply in_map.
      rewrite H2 in Hin. apply days_from_in in Hin. unfold dated_within. lia.
  - inversion Hrun; subst. split; [discriminate|exact Hw].
Qed.

Lemma symbol_series_empty_range (w : World) (sym : string) (start end_ : date)
  (s : state) :
  end_ < start ->
  symbol_series w sym start end_ s = (Ok [], after_fetch w sym s).
Proof.
  intros H. rewrite symbol_series_eq, retrieved_empty_range by exact H.
  unfold fallback_series, simulate_gbm, bind, lift.
  now rewrite daterange_empty.
Qed.

Lemma price_history_loop_keys (w : World) (start end_ : date)
  (symbols : list string) :
  forall (results results' : list (string * list row)) (s s' : state),
    price_history_loop w symbols start end_ results s = (Ok results', s') ->
    NoDup (dict_keys results) -> NoDup (dict_keys results').
Proof.
  induction symbols as [|sym symbols IH]; intros results results' s s' Hrun Hnd.
  - cbn in Hrun. unfold ret in Hrun. inversion Hrun; subst. exact Hnd.
  - cbn [price_history_loop] in Hrun. unfold bind in Hrun.
    destruct (symbol_series w sym start end_ s) as [[series|e] s1];
      [|discriminate Hrun].
    eapply IH; [exact Hrun|].
    now apply (dict_set_NoDup String.eqb string_eqb_eq).
Qed.

Lemma history_keys (w : World) (symbols : list string) (start end_ : date)
  (s s' : state) (results : list (string * list row)) :
  get_price_history w symbols start end_ s = (Ok results, s') ->
  (forall sym, In sym symbols -> dict_get String.eqb results sym <> None) ->
  (forall sym, ~ In sym symbols -> dict_get String.eqb results sym = None) ->
  NoDup (dict_keys results)
  /\ forall sym, In sym (dict_keys results) <-> In sym symbols.
Proof.
  intros Hrun Hin Hout. split.
  - eapply price_history_loop_keys; [exact Hrun|constructor].
  - intros sym. split.
    + intros Hk. destruct (in_dec string_dec sym symbols) as [H|H]; [exact H|].
      apply Hout in H.
      apply (dict_get_none String.eqb string_eqb_eq) in H. contradiction.
    + intros Hs. destruct (in_dec string_dec sym (dict_keys results)) as [H|H];
        [exact H|].
      apply (dict_get_none String.eqb string_eqb_eq) in H.
      now apply Hin in Hs.
Qed.

Lemma last_prices_fold (hist : list (string * list row)) :
  NoDup (dict_keys hist) ->
  forall (acc : list (string * R)) (sym : string),
    dict_get String.eqb
      (fold_left
         (fun last item =>
            dict_set String.eqb last (fst item) (last_close (snd item)))
         hist acc) sym
    = match dict_get String.eqb hist sym with
      | Some series => Some (last_close series)
      | None => dict_get String.eqb acc sym
      end.
Proof.
  induction hist as [|[k v] hist IH]; intros Hnd acc sym; [reflexivity|].
  unfold dict_keys in Hnd. cbn [map fst] in Hnd.
  inversion Hnd as [|? ? Hk Hrest]; subst.
  cbn [fold_left fst snd dict_get]. rewrite (IH Hrest).
  rewrite (dict_get_set String.eqb string_eqb_eq).
  destruct (String.eqb_spec k sym) as [->|Hne]; [|reflexivity].
  apply (dict_get_none String.eqb string_eqb_eq) in Hk. now rewrite Hk.
Qed.

Lemma last_close_last (init : list row) (r : row) :
  last_close (init ++ [r]) = r_close r.
Proof. unfold last_close. now rewrite rev_app_distr. Qed.

End HistoryFacts.

Import HistoryFacts.

(** X6. For a range [start <= end] that ends before the last representable
    day, [get_price_history] returns a history with exactly one entry per
    distinct requested symbol, and every series in it is non-empty and has
    all its rows dated within [[start, end]]: whatever the source answers,
    there is data to value against. *)
Theorem get_price_history_series_cover_range :
  forall (w : World) (symbols : list string) (start end_ : date) (s : state),
    MINORD <= start -> start <= end_ -> end_ < MAXORD ->
    exists (results : list (string * list row)) (s' : state),
      get_price_history w symbols start end_ s = (Ok results, s')
      /\ NoDup (dict_keys results)
      /\ (forall sym, In sym (dict_keys results) <-> In sym symbols)
      /\ (forall sym series,
             dict_get String.eqb results sym = Some series ->
             series <> [] /\ Forall (dated_within start end_) series).
Proof.
  intros w symbols start end_ s Hs Hse He. unfold MINORD in Hs.
  destruct (get_price_history_total w symbols start end_ s ltac:(lia) He)
    as [results [s' [Hrun [Hin Hout]]]].
  exists results, s'. split; [exact Hrun|].
  destruct (history_keys w symbols start end_ s s' results Hrun) as [Hnd Hk].
  - intros sym H. destruct (Hin sym H) as [s1 [sr [s2 [_ Hg]]]]. congruence.
  - exact Hout.
  - split; [exact Hnd|]. split; [exact Hk|].
    intros sym series Hg.
    destruct (in_dec string_dec sym symbols) as [H|H].
    + destruct (Hin sym H) as [s1 [sr [s2 [Hss Hg']]]].
      assert (sr = series) by congruence. subst sr.
      eapply symbol_series_within; [| | |exact Hss]; lia.
    + rewrite (Hout sym H) in Hg. discriminate Hg.
Qed.

Lemma get_price_history_series_cover_range_witness :
  MINORD <= 738887 /\ 738887 <= 738889 /\ 738889 < MAXORD
  /\ exists (results : list (string * list row)) (s' : state),
       get_price_history offline ["AAPL"; "MSFT"; "AAPL"]%string
                         738887 738889 s0 = (Ok results, s')
       /\ forall sym, In sym (dict_keys results)
                      <-> In sym ["AAPL"; "MSFT"; "AAPL"]%string.
Proof.
  assert (H1 : MINORD <= 738887) by (unfold MINORD; lia).
  assert (H2 : 738887 <= 738889) by lia.
  assert (H3 : 738889 < MAXORD) by (unfold MAXORD; lia).
  split; [exact H1|split; [exact H2|split; [exact H3|]]].
  destruct (get_price_history_series_cover_range offline
              ["AAPL"; "MSFT"; "AAPL"]%string 738887 738889 s0 H1 H2 H3)
    as [results [s' [Hrun [_ [Hk _]]]]].
  exists results, s'. split; [exact Hrun|exact Hk].
Defined.

(** X7. For an empty range, [end < start], [get_price_history] raises
    nothing and maps every requested symbol to the empty series: the
    retrieved rows are all filtered out and the fallback has no day to
    cover. *)
Theorem get_price_history_empty_range :
  forall (w : World) (symbols : list string) (start end_ : date) (s : state),
    end_ < start ->
    exists (results : list (string * list row)) (s' : state),
      get_price_history w symbols start end_ s = (Ok results, s')
      /\ rng_pos s' = rng_pos s
      /\ (forall sym, In sym symbols ->
            dict_get String.eqb results sym = Some [])
      /\ (forall sym, ~ In sym symbols ->
            dict_get String.eqb results sym = None).
Proof.
  intros w symbols start end_ s Hlt. unfold get_price_history.
  assert (Hloop : forall syms results st,
    exists results' st',
      price_history_loop w syms start end_ results st = (Ok results', st')
      /\ rng_pos st' = rng_pos st
      /\ (forall sym, In sym syms -> dict_get String.eqb results' sym = Some [])
      /\ (forall sym, ~ In sym syms ->
            dict_get String.eqb results' sym = dict_get String.eqb results sym)).
  { induction syms as [|sym0 syms IH]; intros results st.
    - exists results, st. repeat split; auto. intros ? [].
    - cbn [price_history_loop]. unfold bind at 1.
      rewrite symbol_series_empty_range by exact Hlt.
      destruct (IH (dict_set String.eqb results sym0 []) (after_fetch w sym0 st))
        as [results' [st' [H1 [H2 [H3 H4]]]]].
      exists results', st'. split; [exact H1|]. split.
      + rewrite H2. unfold after_fetch.
        apply (fetch_candidates_bounds w _ st).
      + split.
        * intros sym Hin.
          destruct (in_dec string_dec sym syms) as [Hi|Hni]; [now apply H3|].
          destruct Hin as [->|Hin]; [|contradiction].
          rewrite (H4 sym Hni), (dict_get_set String.eqb string_eqb_eq).
          now rewrite String.eqb_refl.
        * intros sym Hni. rewrite H4 by (intros Hin; apply Hni; now right).
          rewrite (dict_get_set String.eqb string_eqb_eq).
          destruct (String.eqb_spec sym0 sym) as [->|]; [|reflexivity].
          exfalso. apply Hni. now left. }
  destruct (Hloop symbols [] s) as [results [s' [H1 [H2 [H3 H4]]]]].
  exists results, s'. split; [exact H1|]. split; [exact H2|].
  split; [exact H3|]. intros sym Hni. now rewrite H4.
Qed.

Lemma get_price_history_empty_range_witness :
  738887 < 738889
  /\ exists (results : list (string * list row)) (s' : state),
       get_price_history online ["AAPL"]%string 738889 738887 s0
       = (Ok results, s')
       /\ dict_get String.eqb results "AAPL"%string = Some [].
Proof.
  assert (H : 738887 < 738889) by lia.
  split; [exact H|].
  destruct (get_price_history_empty_range online ["AAPL"]%string
              738889 738887 s0 H) as [results [s' [Hrun [_ [Hin _]]]]].
  exists results, s'. split; [exact Hrun|]. apply Hin. now left.
Defined.

(** X8. For [as_of] after 0001-12-31 and before 9999-12-31,
    [get_last_prices] returns one price per distinct requested symbol and
    no other: the close of the last row of that symbol's history over the
    365 days up to [as_of], a row dated within that window. For [as_of] on
    or before 0001-12-31 it raises [OverflowError], the window having no
    first day. *)
Theorem get_last_prices_latest_close :
  forall (w : World) (symbols : list string) (as_of : date) (s : state),
    (365 < as_of < MAXORD ->
     exists (history : list (string * list row)) (prices : list (string * R))
            (s' : state),
       get_price_history w symbols (as_of - 365) as_of s = (Ok history, s')
       /\ get_last_prices w symbols as_of s = (Ok prices, s')
       /\ (forall sym, In sym symbols ->
             exists init r,
               dict_get String.eqb history sym = Some (init ++ [r])
               /\ dict_get String.eqb prices sym = Some (r_close r)
               /\ dated_within (as_of - 365) as_of r)
       /\ (forall sym, ~ In sym symbols ->
             dict_get String.eqb prices sym = None))
    /\ (as_of <= 365 ->
        get_last_prices w symbols as_of s = (Raise OverflowError, s)).
Proof.
  intros w symbols as_of s. split; [|apply get_last_prices_overflow].
  intros Hd.
  destruct (get_price_history_total w symbols (as_of - 365) as_of s
              ltac:(lia) ltac:(lia)) as [history [s' [Hrun [Hin Hout]]]].
  destruct (history_keys w symbols _ _ s s' history Hrun) as [Hnd _].
  { intros sym H. destruct (Hin sym H) as [s1 [sr [s2 [_ Hg]]]]. congruence. }
  { exact Hout. }
  eexists history, _, s'. split; [exact Hrun|].
  split.
  { unfold get_last_prices, bind, lift.
    rewrite date_sub_ok by (unfold MINORD, MAXORD in *; lia).
    rewrite Hrun. reflexivity. }
  split.
  - intros sym H. destruct (Hin sym H) as [s1 [series [s2 [Hss Hg]]]].
    destruct (symbol_series_within w sym (as_of - 365) as_of s1 s2 series
                ltac:(lia) ltac:(lia) ltac:(lia) Hss) as [Hne Hw].
    destruct (exists_last Hne) as [init [r Hr]]. subst series.
    exists init, r. split; [exact Hg|]. split.
    + rewrite (last_prices_fold history Hnd), Hg. now rewrite last_close_last.
    + rewrite Forall_forall in Hw. apply Hw. apply in_or_app. right. now left.
  - intros sym H. rewrite (last_prices_fold history Hnd), (Hout sym H).
    reflexivity.
Qed.

Lemma get_last_prices_latest_close_witness :
  365 < 738918 < MAXORD
  /\ exists (prices : list (string * R)) (s' : state),
       get_last_prices offline ["AAPL"]%string 738918 s0 = (Ok prices, s')
       /\ dict_get String.eqb prices "MSFT"%string = None.
Proof.
  assert (H : 365 < 738918 < MAXORD) by (unfold MAXORD; lia).
  split; [exact H|].
  destruct (proj1 (get_last_prices_latest_close offline ["AAPL"]%string
                     738918 s0) H)
    as [history [prices [s' [_ [Hrun [_ Hout]]]]]].
  exists prices, s'. split; [exact Hrun|]. apply Hout.
  intros [E|[]]. discriminate E.
Defined.

(* ================================================================== *)
(** * Beyond the specification: the ledger                             *)
(* ================================================================== *)

Module LedgerFacts.

Local Open Scope R_scope.

Lemma filter_implied {A : Type} (f g : A -> bool) (l : list A) :
  (forall x, f x = true -> g x = true) ->
  filter f (filter g l) = filter f l.
Proof.
  intros H. induction l as [|x l IH]; [reflexivity|].
  cbn [filter]. destruct (g x) eqn:Eg.
  - cbn [filter]. now rewrite IH.
  - rewrite IH. destruct (f x) eqn:Ef; [|reflexivity].
    apply H in Ef. congruence.
Qed.

Lemma positions_own_rows (w : World) (session : Session) (user : Z) :
  get_positions w (filter (of_user user) session) user
  = get_positions w session user.
Proof.
  unfold get_positions, positions_rows.
  rewrite filter_implied; [reflexivity|].
  intros t H. unfold of_user.
  apply andb_true_iff in H. destruct H as [H _].
  apply andb_true_iff in H. now destruct H as [H _].
Qed.

Lemma cash_own_rows (w : World) (session : Session) (user : Z) :
  get_cash_balance w (filter (of_user user) session) user
  = get_cash_balance w session user.
Proof.
  unfold get_cash_balance, sum_amount_stmt.
  rewrite !filter_implied; [reflexivity| |];
    intros t H; unfold of_user; apply andb_true_iff in H; now destruct H.
Qed.

Lemma listing_own_rows (w : World) (session : Session) (user : Z) :
  list_transactions w (filter (of_user user) session) (Some user)
  = list_transactions w session (Some user).
Proof.
  unfold list_transactions, select_transactions.
  change (fun t : Transaction => (t_user_id t =? user)%Z) with (of_user user).
  rewrite filter_implied by auto. reflexivity.
Qed.

Lemma cashflow_own_rows (w : World) (session : Session) (user : Z) :
  cashflow w (filter (of_user user) session) user = cashflow w session user.
Proof. unfold cashflow. now rewrite listing_own_rows. Qed.

Lemma sum_amount_app (ty : string) (user : Z) (l l' : list Transaction) :
  sum_amount ty user (l ++ l') = sum_amount ty user l + sum_amount ty user l'.
Proof.
  induction l as [|t l IH]; cbn [app sum_amount]; [lra|].
  destruct ((t_user_id t =? user)%Z && String.eqb (t_type t) ty)%bool; lra.
Qed.

Lemma sum_amount_added (ty : string) (user : Z) (session : Session)
  (row : Transaction) :
  sum_amount ty user (session ++ [row])
  = sum_amount ty user session
    + (if ((t_user_id row =? user)%Z && String.eqb (t_type row) ty)%bool
       then t_amount row else 0).
Proof.
  rewrite sum_amount_app. cbn [sum_amount].
  destruct ((t_user_id row =? user)%Z && String.eqb (t_type row) ty)%bool; lra.
Qed.

Lemma cash_in_cents_added (user : Z) (session : Session) (row : Transaction) :
  cash_in_cents user session -> decimals 2 (t_amount row) ->
  cash_in_cents user (session ++ [row]).
Proof.
  intros Hc Hr t Ht Hu Hty. apply in_app_or in Ht.
  destruct Ht as [Ht|[<-|[]]]; [now apply Hc|exact Hr].
Qed.

Lemma sum_shares_app (user : Z) (sym : string) (l l' : list Transaction) :
  sum_shares user sym (l ++ l') = sum_shares user sym l + sum_shares user sym l'.
Proof.
  induction l as [|t l IH]; cbn [app sum_shares]; [lra|].
  destruct (trade_in user sym t); [|exact IH].
  destruct (t_shares t); lra.
Qed.

Lemma sum_shares_untraded (user : Z) (sym : string) (l : list Transaction) :
  traded user sym l = false -> sum_shares user sym l = 0.
Proof.
  unfold traded. induction l as [|t l IH]; cbn [existsb sum_shares]; [reflexivity|].
  intros H. apply orb_false_iff in H. destruct H as [H1 H2].
  rewrite H1. auto.
Qed.

Lemma held_spec (w : World) (session : Session) (user : Z) (sym : string) :
  sym <> EmptyString ->
  held (get_positions w session user) sym
  = round_to w 6 (sum_shares user sym session).
Proof.
  intros Hne. unfold held. rewrite get_positions_lookup.
  destruct (String.eqb_spec sym ""); [contradiction|].
  rewrite andb_true_r.
  destruct (traded user sym session) eqn:E; [reflexivity|].
  rewrite sum_shares_untraded by exact E. now rewrite round_to_0.
Qed.

Lemma shares_in_millionths_added (user : Z) (session : Session)
  (row : Transaction) :
  shares_in_millionths user session -> opt_decimals 6 (t_shares row) ->
  shares_in_millionths user (session ++ [row]).
Proof.
  intros Hc Hr t Ht Hu Hty. apply in_app_or in Ht.
  destruct Ht as [Ht|[<-|[]]]; [now apply Hc|exact Hr].
Qed.

Lemma positions_key (w : World) (session : Session) (user : Z) (sym : string) :
  In sym (dict_keys (get_positions w session user))
  <-> sym <> EmptyString /\ traded user sym session = true.
Proof.
  pose proof (get_positions_lookup w session user sym) as Hl.
  pose proof (dict_get_none String.eqb string_eqb_eq
                (get_positions w session user) sym) as Hn.
  destruct (String.eqb_spec sym "") as [Heq|Hne].
  - rewrite andb_false_r in Hl. split; [|intros [H _]; now contradiction H].
    intros Hin. apply Hn in Hl. contradiction.
  - rewrite andb_true_r in Hl.
    destruct (traded user sym session) eqn:E.
    + split; [auto|]. intros _.
      destruct (in_dec string_dec sym (dict_keys (get_positions w session user)))
        as [H|H]; [exact H|].
      apply Hn in H. congruence.
    + split; [|intros [_ H]; discriminate H].
      intros Hin. apply Hn in Hl. contradiction.
Qed.

Lemma comprehension_NoDup (rows : list (string * option R)) :
  forall d : list (string * R),
    NoDup (dict_keys d) -> NoDup (dict_keys (fold_left comprehension_step rows d)).
Proof.
  induction rows as [|row rows IH]; intros d H; cbn [fold_left]; [exact H|].
  apply IH. unfold comprehension_step.
  destruct (negb (String.eqb (fst row) "")); [|exact H].
  now apply (dict_set_NoDup String.eqb string_eqb_eq).
Qed.

Lemma selection_sorted (session : Session) (user_id : option Z) :
  StronglySorted
    (fun a b => lex_le (t_date a, t_id a) (t_date b, t_id b))
    (select_transactions session user_id).
Proof.
  unfold select_transactions.
  match goal with
  | |- StronglySorted _ (sorted ?k _ ?l) =>
      assert (H : StronglySorted (key_le k pair_leb) (sorted k pair_leb l))
        by (apply sorted_sorted; [apply pair_leb_total|apply pair_leb_trans]);
      induction H as [|a l' Hl IH Ha]; constructor; [exact IH|];
      eapply Forall_impl; [|exact Ha]
  end.
  intros b Hb. unfold key_le in Hb. apply pair_leb_spec in Hb. exact Hb.
Qed.

Lemma listing_sorted (w : World) (session : Session) (user_id : option Z) :
  StronglySorted
    (fun a b => lex_le (t_date a, t_id a) (t_date b, t_id b))
    (list_transactions w session user_id).
Proof.
  unfold list_transactions.
  pose proof (selection_sorted session user_id) as H.
  induction H as [|a l Hl IH Ha]; cbn [map]; constructor; [exact IH|].
  apply Forall_forall. intros b Hb. apply in_map_iff in Hb.
  destruct Hb as [b0 [<- Hb0]]. rewrite Forall_forall in Ha.
  exact (Ha b0 Hb0).
Qed.

Lemma listing_perm (w : World) (session : Session) (user_id : option Z) :
  Permutation
    (list_transactions w session user_id)
    (orm_rows w (match user_id with
                 | Some u => filter (fun t => (t_user_id t =? u)%Z) session
                 | None => session
                 end)).
Proof.
  unfold list_transactions, select_transactions, orm_rows.
  apply Permutation_map, sorted_perm.
Qed.

End LedgerFacts.

Import LedgerFacts.

(** X9. [list_transactions], and [get_transactions] which returns it,
    lists exactly the transactions of the user, each as often as the table
    holds it and as the ORM reads it (all transactions when no user is
    given), in ascending order of date and, within a date, of id. *)
Theorem list_transactions_ordered_by_date_then_id :
  forall (w : World) (session : Session) (user_id : option Z),
    get_transactions w session user_id = list_transactions w session user_id
    /\ Permutation
         (list_transactions w session user_id)
         (orm_rows w (match user_id with
                      | Some u => filter (fun t => t_user_id t =? u) session
                      | None => session
                      end))
    /\ StronglySorted
         (fun a b => lex_le (t_date a, t_id a) (t_date b, t_id b))
         (list_transactions w session user_id).
Proof.
  intros w session user_id. split; [reflexivity|]. split.
  - apply listing_perm.
  - apply listing_sorted.
Qed.

(** X10. The position map has no duplicate key and no empty key: its keys
    are exactly the non-empty symbols that some trade of the user names. *)
Theorem get_positions_keys :
  forall (w : World) (session : Session) (user : Z),
    NoDup (dict_keys (get_positions w session user))
    /\ ~ In EmptyString (dict_keys (get_positions w session user))
    /\ (forall sym,
          In sym (dict_keys (get_positions w session user))
          <-> sym <> EmptyString /\ traded user sym session = true).
Proof.
  intros w session user. split; [|split].
  - unfold get_positions. apply comprehension_NoDup. constructor.
  - intros H. apply positions_key in H. destruct H as [H _]. now apply H.
  - apply positions_key.
Qed.

(** X11. The aggregations of a user read that user's rows only: two
    ledgers that hold the same transactions of the user, in the same order,
    give the user the same positions, cash balance, transaction listing and
    monthly cashflow, whatever the other users' transactions are. *)
Theorem aggregations_read_own_rows_only :
  forall (w : World) (session session' : Session) (user : Z),
    filter (fun t => t_user_id t =? user) session
    = filter (fun t => t_user_id t =? user) session' ->
    get_positions w session user = get_positions w session' user
    /\ get_cash_balance w session user = get_cash_balance w session' user
    /\ list_transactions w session (Some user)
       = list_transactions w session' (Some user)
    /\ cashflow w session user = cashflow w session' user.
Proof.
  intros w session session' user H.
  change (fun t : Transaction => t_user_id t =? user) with (of_user user) in H.
  rewrite <- (positions_own_rows w session), <- (positions_own_rows w session'),
          <- (cash_own_rows w session), <- (cash_own_rows w session'),
          <- (listing_own_rows w session), <- (listing_own_rows w session'),
          <- (cashflow_own_rows w session), <- (cashflow_own_rows w session').
  rewrite H. repeat split.
Qed.

Lemma aggregations_read_own_rows_only_witness :
  filter (fun t => t_user_id t =? 1) ledger_two_users
  = filter (fun t => t_user_id t =? 1) ledger_with_trade
  /\ get_positions offline ledger_two_users 1
     = get_positions offline ledger_with_trade 1
  /\ get_cash_balance offline ledger_two_users 1
     = get_cash_balance offline ledger_with_trade 1.
Proof.
  assert (H : filter (fun t => t_user_id t =? 1) ledger_two_users
              = filter (fun t => t_user_id t =? 1) ledger_with_trade)
    by reflexivity.
  split; [exact H|].
  destruct (aggregations_read_own_rows_only offline ledger_two_users
              ledger_with_trade 1 H) as [H1 [H2 _]].
  split; [exact H1|exact H2].
Defined.



(** X13. Adding a transaction returns the stored row as the ORM reads it
    back: it carries the assigned id and the user, date, type, category and
    symbol of the request, and the amount, the shares and the price of the
    request at the scale of their columns, the amount being a number of
    whole cents nearest to the requested one. Afterwards the listing of its
    owner is the old listing with that row added, and the listing of every
    other user is unchanged. *)
Theorem add_transaction_is_listed :
  forall (w : World) (session : Session) (new_id : Z)
         (payload : TransactionCreate) (user : Z),
    let txn := fst (add_transaction w session new_id payload) in
    let session' := snd (add_transaction w session new_id payload) in
    t_id txn = new_id
    /\ t_user_id txn = tc_user_id payload
    /\ t_date txn = tc_date payload
    /\ t_type txn = tc_type payload
    /\ t_category txn = tc_category payload
    /\ t_asset_symbol txn = tc_asset_symbol payload
    /\ t_amount txn = round_to w 2 (tc_amount payload)
    /\ nearest 2 (tc_amount payload) (t_amount txn)
    /\ t_shares txn = option_map (round_to w 6) (tc_shares payload)
    /\ t_price_at_trade txn
       = option_map (round_to w 4) (tc_price_at_trade payload)
    /\ Permutation (list_transactions w session' None)
                   (txn :: list_transactions w session None)
    /\ (tc_user_id payload = user ->
        Permutation (list_transactions w session' (Some user))
                    (txn :: list_transactions w session (Some user)))
    /\ (tc_user_id payload <> user ->
        list_transactions w session' (Some user)
        = list_transactions w session (Some user)).
Proof.
  intros w session new_id payload user txn session'.
  unfold txn, session', add_transaction, create_transaction. cbn [fst snd].
  repeat (split; [reflexivity|]).
  split; [apply round_to_nearest|].
  repeat (split; [reflexivity|]).
  split; [|split].
  - rewrite !listing_perm. unfold orm_rows. rewrite map_app. cbn [map].
    rewrite Permutation_app_comm. reflexivity.
  - intros Hu. rewrite !listing_perm. unfold orm_rows.
    rewrite filter_app, map_app. cbn [filter t_user_id].
    rewrite Hu, Z.eqb_refl. cbn [map].
    rewrite Permutation_app_comm. reflexivity.
  - intros Hu. unfold list_transactions, select_transactions.
    rewrite filter_app. cbn [filter t_user_id].
    destruct (Z.eqb_spec (tc_user_id payload) user); [contradiction|].
    now rewrite app_nil_r.
Qed.

Lemma add_transaction_is_listed_witness :
  tc_user_id buy_msft <> 2
  /\ list_transactions offline
       (snd (add_transaction offline ledger_two_users 10 buy_msft)) (Some 2)
     = list_transactions offline ledger_two_users (Some 2).
Proof.
  assert (H : tc_user_id buy_msft <> 2) by (simpl; lia).
  split; [exact H|].
  exact (proj2 (proj2 (proj2 (proj2 (proj2 (proj2 (proj2 (proj2 (proj2 (proj2
          (proj2 (proj2
           (add_transaction_is_listed offline ledger_two_users 10 buy_msft
              2))))))))))))
         H).
Defined.



(* ================================================================== *)
(** * Beyond the specification: cashflow against the cash balance      *)
(* ================================================================== *)

Module NetFacts.

Local Open Scope R_scope.

Lemma cashflow_months (w : World) (session : Session) (user : Z) :
  let rows := orm_rows w session in
  exists months : list (Z * Z),
    cashflow w session user
    = map (fun k =>
             mkCashflowPoint
               (ymd2ord (fst k) (snd k) 1)
               (month_amount "income" user k rows)
               (month_amount "expense" user k rows)
               (month_amount "income" user k rows
                - month_amount "expense" user k rows))
          months
    /\ NoDup months
    /\ (forall t, In t rows -> t_user_id t = user ->
        is_cash_type (t_type t) = true -> In (month_of t) months).
Proof.
  intros rows.
  set (txns := list_transactions w session (Some user)).
  set (monthly := fold_left cashflow_step txns []).
  exists (sorted (fun k => k) pair_leb (dict_keys monthly)).
  assert (Hsum : forall ty k,
             month_amount ty user k txns = month_amount ty user k rows).
  { intros ty k. unfold txns.
    rewrite (month_amount_perm ty user k _ _
               (list_transactions_perm w session user)).
    apply month_amount_user_filter. }
  split; [|split].
  - rewrite cashflow_unfold. fold txns. fold monthly. cbv zeta.
    apply map_ext. intros k. unfold cashflow_point.
    destruct (fold_bucket user txns (list_transactions_user w session user) [] k)
      as [H1 H2].
    fold monthly in H1, H2. rewrite !Hsum in *.
    unfold bucket_of at 2 in H1. unfold bucket_of at 2 in H2. simpl in H1, H2.
    f_equal; lra.
  - eapply Permutation_NoDup; [symmetry; apply sorted_perm|].
    apply fold_NoDup. constructor.
  - intros t Ht Hu Hc.
    apply (Permutation_in _ (Permutation_sym (sorted_perm (fun k => k) pair_leb _))).
    apply (proj2 (fold_keys txns [] (month_of t))). right. exists t.
    repeat split; auto.
    apply (Permutation_in
             _ (Permutation_sym (list_transactions_perm w session user))).
    apply (proj2 (filter_In _ _ _)). split; [exact Ht|now apply Z.eqb_eq].
Qed.

Lemma sum_list_plus {A : Type} (f g : A -> R) (l : list A) :
  sum_list (map (fun k => f k + g k) l)
  = sum_list (map f l) + sum_list (map g l).
Proof.
  unfold sum_list. induction l as [|k l IH]; cbn [map fold_right]; [lra|].
  rewrite IH. lra.
Qed.

Lemma sum_list_minus {A : Type} (f g : A -> R) (l : list A) :
  sum_list (map (fun k => f k - g k) l)
  = sum_list (map f l) - sum_list (map g l).
Proof.
  unfold sum_list. induction l as [|k l IH]; cbn [map fold_right]; [lra|].
  rewrite IH. lra.
Qed.

Lemma sum_one_month (months : list (Z * Z)) (k0 : Z * Z) (a : R) :
  NoDup months -> In k0 months ->
  sum_list (map (fun k => if ym_eqb k0 k then a else 0) months) = a.
Proof.
  unfold sum_list. induction 1 as [|k months Hk Hnd IH]; intros Hin; [destruct Hin|].
  cbn [map fold_right]. destruct (ym_eqb k0 k) eqn:E.
  - apply ym_eqb_eq in E. subst k.
    assert (Hz : fold_right Rplus 0
                   (map (fun k => if ym_eqb k0 k then a else 0) months) = 0).
    { clear IH Hin Hnd. induction months as [|k months IH]; [reflexivity|].
      cbn [map fold_right].
      destruct (ym_eqb k0 k) eqn:E.
      - apply ym_eqb_eq in E. subst k. exfalso. apply Hk. now left.
      - rewrite IH; [lra|]. intros H. apply Hk. now right. }
    rewrite Hz. lra.
  - destruct Hin as [->|Hin]; [rewrite ym_eqb_refl in E; discriminate|].
    rewrite (IH Hin). lra.
Qed.

Lemma months_partition (ty : string) (user : Z) (months : list (Z * Z))
  (session : Session) :
  NoDup months ->
  (forall t, In t session -> t_user_id t = user ->
     String.eqb (t_type t) ty = true -> In (month_of t) months) ->
  sum_list (map (fun k => month_amount ty user k session) months)
  = sum_amount ty user session.
Proof.
  intros Hnd. induction session as [|t session IH]; intros Hcover.
  - cbn [month_amount sum_amount]. unfold sum_list.
    clear. induction months; cbn [map fold_right]; lra.
  - assert (IH' := IH (fun t' H => Hcover t' (or_intror H))).
    cbn [sum_amount].
    destruct ((t_user_id t =? user)%Z && String.eqb (t_type t) ty)%bool eqn:E.
    + apply andb_true_iff in E. destruct E as [E1 E2]. apply Z.eqb_eq in E1.
      rewrite <- IH'.
      rewrite <- (sum_one_month months (month_of t) (t_amount t) Hnd)
        at 1 by (apply Hcover; auto; now left).
      rewrite <- sum_list_plus. f_equal. apply map_ext. intros k.
      cbn [month_amount]. rewrite E1, Z.eqb_refl, E2. cbn [andb].
      destruct (ym_eqb (month_of t) k); lra.
    + rewrite <- IH'. f_equal. apply map_ext. intros k.
      cbn [month_amount]. rewrite E. reflexivity.
Qed.

(** The cashflow adds up to the sums of the amounts as read. *)
Lemma cashflow_sums (w : World) (session : Session) (user : Z) :
  sum_list (map cf_income (cashflow w session user))
  = sum_amount "income" user (orm_rows w session)
  /\ sum_list (map cf_expense (cashflow w session user))
     = sum_amount "expense" user (orm_rows w session)
  /\ sum_list (map cf_net (cashflow w session user))
     = sum_amount "income" user (orm_rows w session)
       - sum_amount "expense" user (orm_rows w session).
Proof.
  destruct (cashflow_months w session user) as [months [Hc [Hnd Hcover]]].
  rewrite Hc, !map_map. cbn [cf_net cf_income cf_expense].
  rewrite sum_list_minus.
  rewrite !months_partition; try exact Hnd.
  - repeat split.
  - intros t Ht Hu Hty. apply Hcover; auto.
    unfold is_cash_type. now rewrite Hty, orb_true_r.
  - intros t Ht Hu Hty. apply Hcover; auto.
    unfold is_cash_type. now rewrite Hty.
Qed.

(** Amounts stored in whole cents are read as they are. *)
Lemma sum_amount_read (w : World) (ty : string) (user : Z) (session : Session) :
  is_cash_type ty = true -> cash_in_cents user session ->
  sum_amount ty user (orm_rows w session) = sum_amount ty user session.
Proof.
  intros Hty. unfold orm_rows.
  induction session as [|t session IH]; intros Hc; [reflexivity|].
  assert (IH' : sum_amount ty user (map (orm_read w) session)
                = sum_amount ty user session).
  { apply IH. intros t' Ht'. apply Hc. now right. }
  cbn [map sum_amount]. rewrite IH'.
  change (t_user_id (orm_read w t)) with (t_user_id t).
  change (t_type (orm_read w t)) with (t_type t).
  change (t_amount (orm_read w t)) with (round_to w 2 (t_amount t)).
  destruct ((t_user_id t =? user)%Z && String.eqb (t_type t) ty)%bool eqn:E;
    [|reflexivity].
  apply andb_true_iff in E. destruct E as [E1 E2].
  apply Z.eqb_eq in E1. apply String.eqb_eq in E2.
  rewrite round_to_decimals; [reflexivity|].
  apply Hc; [now left|exact E1|now rewrite E2].
Qed.

End NetFacts.

Import NetFacts.



(* ================================================================== *)
(** * Beyond the specification: the value of a day                     *)
(* ================================================================== *)

Module DayValueFacts.

Local Open Scope R_scope.

Lemma scan_price_known (rows : list row) (d : date) :
  scan_price (filter (fun r => (r_date r <=? d)%Z) rows) d = scan_price rows d.
Proof.
  induction rows as [|r rows IH]; [reflexivity|].
  cbn [filter scan_price]. destruct (r_date r <=? d)%Z eqn:E; [|exact IH].
  cbn [scan_price]. now rewrite E.
Qed.

Lemma price_known (series : list row) (d : date) :
  price_at_or_before (known_on d series) d = price_at_or_before series d.
Proof.
  unfold price_at_or_before, known_on.
  rewrite <- filter_rev. apply scan_price_known.
Qed.

Lemma total_on_prices (cash : R) (positions : list (string * R))
  (history history' : list (string * list row)) (d : date) :
  (forall sym,
      price_at_or_before (history_get history sym) d
      = price_at_or_before (history_get history' sym) d) ->
  total_on cash positions history d = total_on cash positions history' d.
Proof.
  intros H. unfold total_on. revert cash.
  induction positions as [|item positions IH]; intros cash; [reflexivity|].
  cbn [fold_left]. now rewrite H, IH.
Qed.

Lemma total_on_unpriced (positions : list (string * R))
  (history : list (string * list row)) (d : date) :
  (forall sym, price_at_or_before (history_get history sym) d = 0) ->
  forall cash : R, total_on cash positions history d = cash.
Proof.
  intros H. unfold total_on.
  induction positions as [|item positions IH]; intros cash; [reflexivity|].
  cbn [fold_left]. rewrite H, IH. lra.
Qed.

End DayValueFacts.

Import DayValueFacts.

(** X16. The value [portfolio_value] gives to a day [d] looks at no row
    dated after [d]: two histories that agree, symbol by symbol, on their
    rows dated at or before [d] value the day alike; and when no symbol has
    a row dated at or before [d], the day is valued at the cash balance. *)
Theorem day_value_uses_no_later_row :
  forall (cash : R) (positions : list (string * R))
         (history history' : list (string * list row)) (d : date),
    ((forall sym,
         known_on d (history_get history sym)
         = known_on d (history_get history' sym)) ->
     total_on cash positions history d = total_on cash positions history' d)
    /\ ((forall sym, known_on d (history_get history sym) = []) ->
        total_on cash positions history d = cash).
Proof.
  intros cash positions history history' d. split.
  - intros H. apply total_on_prices. intros sym.
    rewrite <- (price_known (history_get history sym)),
            <- (price_known (history_get history' sym)).
    now rewrite H.
  - intros H. apply total_on_unpriced. intros sym.
    rewrite <- price_known, H. unfold price_at_or_before. cbn. lra.
Qed.

Lemma day_value_uses_no_later_row_witness :
  (forall sym,
      known_on 10 (history_get [("AAPL"%string, [mkRow 20 150%R])] sym) = [])
  /\ total_on 1000%R [("AAPL"%string, 10%R)]
              [("AAPL"%string, [mkRow 20 150%R])] 10 = 1000%R.
Proof.
  assert (H : forall sym,
             known_on 10 (history_get [("AAPL"%string, [mkRow 20 150%R])] sym)
             = []).
  { intros sym. unfold history_get. cbn [dict_get].
    destruct (String.eqb "AAPL" sym); reflexivity. }
  split; [exact H|].
  exact (proj2 (day_value_uses_no_later_row 1000%R [("AAPL"%string, 10%R)]
                  [("AAPL"%string, [mkRow 20 150%R])]
                  [("AAPL"%string, [mkRow 20 150%R])] 10) H).
Defined.

(* ================================================================== *)
(** * Beyond the specification: the shape of the simulated bands       *)
(* ================================================================== *)

Module StartFacts.

Import PathFacts ColumnFacts BandFacts CalmFacts.

Local Open Scope R_scope.

Lemma cross_section_start (w : World) (initial means stds : R) (n sims : nat) :
  forall k,
    cross_section (paths_from w initial means stds n sims k) 0
    = repeat initial sims.
Proof.
  unfold cross_section.
  induction sims as [|sims IH]; intros k; [reflexivity|].
  cbn [paths_from map repeat nth]. now rewrite IH.
Qed.

Lemma pick_start (w : World) (initial means stds : R) (n sims k idx : nat) :
  (idx < sims)%nat ->
  pick idx (paths_from w initial means stds n sims k) 0 = initial.
Proof.
  intros H. unfold pick.
  now rewrite cross_section_start, sorted_repeat, nth_repeat_lt.
Qed.

Lemma no_simulation (w : World) (initial : R) (params : MonteCarloParams)
  (s : state) :
  (simulations params <= 0)%Z ->
  simulate_bands w initial params s = (Ok (mkMonteCarloResult [] [] []), s).
Proof.
  intros H. unfold simulate_bands, simulate_all.
  replace (Z.to_nat (simulations params)) with 0%nat by lia.
  reflexivity.
Qed.

End StartFacts.

Import StartFacts.

(** X17. With at least one simulation, every band of a Monte Carlo
    simulation that returns starts at the initial value, whatever the
    variates; the run has drawn [simulations * max(periods, 0)] variates and
    requested nothing; and with [periods <= 0] each band is the single entry
    [initial]. The simulation returns whenever its shocks are in the range
    of [math.exp], always when [periods <= 0]. *)
Theorem monte_carlo_bands_start_at_initial :
  forall (w : World) (initial : R) (params : MonteCarloParams) (s : state),
    1 <= simulations params ->
    (forall (res : MonteCarloResult) (s' : state),
        simulate_bands w initial params s = (Ok res, s') ->
        s' = mkState (rng_pos s
                      + Z.to_nat (simulations params)
                        * Z.to_nat (periods params))
                     (net_pos s)
        /\ nth 0 (median res) 0%R = initial
        /\ nth 0 (p10 res) 0%R = initial
        /\ nth 0 (p90 res) 0%R = initial
        /\ (periods params <= 0 ->
            median res = [initial] /\ p10 res = [initial]
            /\ p90 res = [initial]))
    /\ (periods params <= 0 \/ simulation_in_range w params s ->
        exists res s', simulate_bands w initial params s = (Ok res, s')).
Proof.
  intros w initial params s Hn. split.
  - intros res s' Hres.
    pose proof (simulate_bands_returns w initial params s s' res Hres) as Hr.
    destruct (BandFacts.simulate_bands_run w initial params s Hn Hr)
      as [_ Hrun].
    cbv zeta in Hrun. rewrite Hrun in Hres. injection Hres as <- <-.
    split; [reflexivity|].
    destruct (BandFacts.index_bounds (simulations params) Hn)
      as [Hm [H10 [H90 _]]].
    cbn [median p10 p90].
    rewrite !BandFacts.band_nth by lia.
    rewrite !pick_start by assumption.
    split; [reflexivity|]. split; [reflexivity|]. split; [reflexivity|].
    intros Hp. replace (Z.to_nat (periods params)) with 0%nat by lia.
    unfold band. cbn [seq map].
    rewrite !pick_start by assumption. auto.
  - intros Hok.
    assert (Hr : simulation_in_range w params s).
    { destruct Hok as [Hp|Hr]; [|exact Hr]. intros j Hj.
      replace (Z.to_nat (periods params)) with 0%nat in Hj by lia. lia. }
    destruct (BandFacts.simulate_bands_run w initial params s Hn Hr)
      as [_ Hrun].
    eexists _, _. exact Hrun.
Qed.

Lemma monte_carlo_bands_start_at_initial_witness :
  1 <= simulations three_paths
  /\ simulation_in_range offline three_paths s0
  /\ exists res s',
       simulate_bands offline 1000%R three_paths s0 = (Ok res, s')
       /\ nth 0 (median res) 0%R = 1000%R
       /\ nth 0 (p10 res) 0%R = 1000%R
       /\ nth 0 (p90 res) 0%R = 1000%R.
Proof.
  assert (H1 : 1 <= simulations three_paths) by (simpl; lia).
  assert (H2 : simulation_in_range offline three_paths s0)
    by apply BandFacts.three_paths_in_range.
  split; [exact H1|]. split; [exact H2|].
  destruct (monte_carlo_bands_start_at_initial offline 1000%R three_paths s0 H1)
    as [Hstart Hret].
  destruct (Hret (or_intror H2)) as [res [s' Hrun]].
  exists res, s'. split; [exact Hrun|].
  destruct (Hstart res s' Hrun) as [_ [Ha [Hb [Hc _]]]].
  split; [exact Ha|]. split; [exact Hb|exact Hc].
Defined.

(** X18. With [simulations <= 0] the Monte Carlo simulation raises nothing
    and returns three empty bands, whatever [periods] is; no variate is
    drawn. *)
Theorem monte_carlo_without_simulations :
  forall (w : World) (initial : R) (params : MonteCarloParams) (s : state),
    simulations params <= 0 ->
    simulate_bands w initial params s = (Ok (mkMonteCarloResult [] [] []), s).
Proof.
  intros w initial params s H. now apply no_simulation.
Qed.

Lemma monte_carlo_without_simulations_witness :
  simulate_bands offline 1000%R (mkMonteCarloParams 1 None 0.07%R 0.15%R 12 0) s0
  = (Ok (mkMonteCarloResult [] [] []), s0).
Proof.
  apply (monte_carlo_without_simulations offline 1000%R
           (mkMonteCarloParams 1 None 0.07%R 0.15%R 12 0) s0).
  vm_compute. discriminate.
Defined.
